(** * tube: a shallow embedding of the router and its HTML preprocessor

    The Go sources embedded here are the router (route compilation, the two
    route tiers, the request cache, dispatch, cache invalidation and route
    removal) and html.go (include and conditional directives, the document
    cache).

    Conventions.
    - A Go [string] is a sequence of bytes: [list ascii]; [go:"..."] writes
      one.  The Go regexp package steps over UTF-8 runes; the embedding steps
      over bytes.  The two agree on ASCII text, and on every pattern this
      development reasons about ([.+], [[^/]+], [[A-Z]+], literals) they
      accept the same byte strings with the same captures.
    - [regexp.MustCompile] is a parser for a fragment of the RE2 syntax; a
      pattern outside the fragment yields [ErrUnsupported], a pattern Go
      rejects yields [ErrSyntax] (Go panics there).
    - Matching is leftmost-first (a backtracking search in preference order),
      which is what Go's regexp package specifies.
    - A [*route] is an address together with the struct stored there, which
      is never written after it has been built; pointer equality is equality
      of addresses.
    - A [Callback] is a Go function.  A user callback is described by what it
      does with its [*Data]: the list of methods it calls.  The callbacks
      [StaticDir] and [StaticFile] return are embedded as they are written.
    - The file system is a finite map from paths to files, the environment a
      finite map from names to values; [router.logger] is the list of lines
      written to it; the response is the list of calls on the
      [http.ResponseWriter].  [http.FileServer], [http.ServeFile] and
      [http.Redirect] are events of the response, not modelled further.
    - A panic or running out of fuel is [None].  Fuel bounds the nesting of
      includes and of routes run from inside a callback, which Go does not
      bound. *)

From Stdlib Require Import Ascii String.
From stdpp Require Import gmap strings list fin_maps.

Open Scope list_scope.

(** ** Go strings *)

Module GoString.

Definition lit (s : string) : list ascii := list_ascii_of_string s.

Definition eqb (a b : list ascii) : bool := bool_decide (a = b).

(** [strings.HasPrefix] *)
Fixpoint HasPrefix (s p : list ascii) : bool :=
  match p, s with
  | [], _ => true
  | c :: p', d :: s' => bool_decide (c = d) && HasPrefix s' p'
  | _ :: _, [] => false
  end.

(** [strings.HasSuffix] *)
Definition HasSuffix (s p : list ascii) : bool :=
  HasPrefix (rev s) (rev p).

(** [strings.Contains] *)
Fixpoint Contains (s sub : list ascii) : bool :=
  HasPrefix s sub ||
  match s with
  | [] => false
  | _ :: s' => Contains s' sub
  end.

(** [strings.Replace(s, old, new, 1)]: the first occurrence only. *)
Fixpoint Replace1 (s old new : list ascii) : list ascii :=
  if HasPrefix s old then new ++ drop (length old) s
  else match s with
       | [] => []
       | c :: s' => c :: Replace1 s' old new
       end.

(** [strings.TrimPrefix] *)
Definition TrimPrefix (s p : list ascii) : list ascii :=
  if HasPrefix s p then drop (length p) s else s.

(** [s[:len(s)-1]] *)
Definition dropLast (s : list ascii) : list ascii := take (length s - 1) s.

End GoString.

Notation "'go:' s" := (GoString.lit s) (at level 1, s at level 0, format "'go:' s").

(** ** Regular expressions: syntax *)

Module Regexp.

Import GoString.

(** A character class: a list of inclusive byte ranges, possibly negated. *)
Record charset := { cs_neg : bool; cs_ranges : list (ascii * ascii) }.

Definition in_range (c : ascii) (r : ascii * ascii) : bool :=
  (nat_of_ascii (fst r) <=? nat_of_ascii c) && (nat_of_ascii c <=? nat_of_ascii (snd r)).

Definition cs_mem (cs : charset) (c : ascii) : bool :=
  xorb (cs_neg cs) (existsb (in_range c) (cs_ranges cs)).

Definition cs_lit (c : ascii) : charset := {| cs_neg := false; cs_ranges := [(c, c)] |}.
(** [.] without the [s] flag: anything but a newline *)
Definition cs_dot : charset := {| cs_neg := true; cs_ranges := [("010", "010")] |}%char.
Definition rs_space : list (ascii * ascii) :=
  [("009", "010"); ("012", "013"); (" ", " ")]%char.
Definition rs_digit : list (ascii * ascii) := [("0", "9")]%char.
Definition rs_word : list (ascii * ascii) :=
  [("0", "9"); ("A", "Z"); ("_", "_"); ("a", "z")]%char.

Inductive regex :=
| Empty
| Chr (cs : charset)
| Cat (r1 r2 : regex)
| Alt (r1 r2 : regex)
| Star (greedy : bool) (r : regex)
| Plus (greedy : bool) (r : regex)
| Quest (greedy : bool) (r : regex)
| Cap (i : nat) (r : regex)
| BeginText
| EndText.

Inductive perr := ErrSyntax | ErrUnsupported.

(** *** The parser

    Like Go's [regexp/syntax] parser this is one left-to-right pass over the
    pattern with a stack of open groups.  A frame holds the alternatives
    already closed by [|] and the items of the concatenation being read, both
    most recent first. *)

Record frame := {
  f_cap : option nat;
  f_alts : list regex;
  f_cur : list regex
}.

(** inside a bracket expression: negation, "nothing read yet", ranges so far *)
Record cls := { c_neg : bool; c_first : bool; c_rs : list (ascii * ascii) }.

Record pstate := {
  p_top : frame;
  p_stack : list frame;
  p_ncap : nat;
  p_lastRepeat : bool;
  p_cls : option cls
}.

Definition mk_concat (items : list regex) : regex := foldr Cat Empty items.

Fixpoint mk_alt (alts : list regex) : regex :=
  match alts with
  | [] => Empty
  | [r] => r
  | r :: rs => Alt r (mk_alt rs)
  end.

(** the regex of a frame: its alternatives in source order *)
Definition frame_regex (f : frame) : regex :=
  mk_alt (rev (mk_concat (rev (f_cur f)) :: f_alts f)).

Definition new_frame (cap : option nat) : frame :=
  {| f_cap := cap; f_alts := []; f_cur := [] |}.

Definition pinit : pstate :=
  {| p_top := new_frame None; p_stack := []; p_ncap := 0;
     p_lastRepeat := false; p_cls := None |}.

Definition push (r : regex) (st : pstate) : pstate :=
  {| p_top := {| f_cap := f_cap (p_top st); f_alts := f_alts (p_top st);
                 f_cur := r :: f_cur (p_top st) |};
     p_stack := p_stack st; p_ncap := p_ncap st;
     p_lastRepeat := false; p_cls := None |}.

(** [*], [+], [?]: apply to the last item; stacking two repetition operators
    or repeating nothing is a syntax error. *)
Definition repeat (mk : regex -> regex) (st : pstate) : perr + pstate :=
  if p_lastRepeat st then inl ErrSyntax
  else match f_cur (p_top st) with
       | [] => inl ErrSyntax
       | r :: items =>
           inr {| p_top := {| f_cap := f_cap (p_top st); f_alts := f_alts (p_top st);
                              f_cur := mk r :: items |};
                  p_stack := p_stack st; p_ncap := p_ncap st;
                  p_lastRepeat := true; p_cls := None |}
       end.

Definition open (capture : bool) (st : pstate) : pstate :=
  let n := if capture then S (p_ncap st) else p_ncap st in
  {| p_top := new_frame (if capture then Some n else None);
     p_stack := p_top st :: p_stack st; p_ncap := n;
     p_lastRepeat := false; p_cls := None |}.

Definition close (st : pstate) : perr + pstate :=
  match p_stack st with
  | [] => inl ErrSyntax
  | parent :: rest =>
      let r := frame_regex (p_top st) in
      let r' := match f_cap (p_top st) with Some i => Cap i r | None => r end in
      inr {| p_top := {| f_cap := f_cap parent; f_alts := f_alts parent;
                         f_cur := r' :: f_cur parent |};
             p_stack := rest; p_ncap := p_ncap st;
             p_lastRepeat := false; p_cls := None |}
  end.

Definition bar (st : pstate) : pstate :=
  {| p_top := {| f_cap := f_cap (p_top st);
                 f_alts := mk_concat (rev (f_cur (p_top st))) :: f_alts (p_top st);
                 f_cur := [] |};
     p_stack := p_stack st; p_ncap := p_ncap st;
     p_lastRepeat := false; p_cls := None |}.

Definition enter_cls (neg : bool) (st : pstate) : pstate :=
  {| p_top := p_top st; p_stack := p_stack st; p_ncap := p_ncap st;
     p_lastRepeat := false;
     p_cls := Some {| c_neg := neg; c_first := true; c_rs := [] |} |}.

Definition cls_add (rs : list (ascii * ascii)) (k : cls) (st : pstate) : pstate :=
  {| p_top := p_top st; p_stack := p_stack st; p_ncap := p_ncap st;
     p_lastRepeat := false;
     p_cls := Some {| c_neg := c_neg k; c_first := false; c_rs := c_rs k ++ rs |} |}.

Definition is_digit (c : ascii) : bool := in_range c ("0", "9")%char.
Definition is_alnum (c : ascii) : bool := existsb (in_range c) [("0", "9"); ("A", "Z"); ("a", "z")]%char.
Definition is_ascii (c : ascii) : bool := nat_of_ascii c <? 128.

(** what a backslash escape stands for, outside or inside a class *)
Inductive esc := EscChar (c : ascii) | EscClass (neg : bool) (rs : list (ascii * ascii)) | EscBad (e : perr).

Definition escape (c : ascii) : esc :=
  if bool_decide (c = "d"%char) then EscClass false rs_digit
  else if bool_decide (c = "s"%char) then EscClass false rs_space
  else if bool_decide (c = "w"%char) then EscClass false rs_word
  else if bool_decide (c = "D"%char) then EscClass true rs_digit
  else if bool_decide (c = "S"%char) then EscClass true rs_space
  else if bool_decide (c = "W"%char) then EscClass true rs_word
  else if bool_decide (c = "n"%char) then EscChar "010"%char
  else if bool_decide (c = "t"%char) then EscChar "009"%char
  else if bool_decide (c = "r"%char) then EscChar "013"%char
  else if bool_decide (c = "f"%char) then EscChar "012"%char
  else if bool_decide (c = "v"%char) then EscChar "011"%char
  else if bool_decide (c = "a"%char) then EscChar "007"%char
  else if is_alnum c then EscBad ErrUnsupported
  else if is_ascii c then EscChar c
  else EscBad ErrSyntax.

(** The bytes that are not ordinary literals at the top level of a pattern. *)
Definition is_meta (c : ascii) : bool :=
  bool_decide (c ∈ ["\"; "."; "+"; "*"; "?"; "("; ")"; "|"; "["; "{"; "^"; "$"]%char).

(** A compiled expression: the syntax tree and the number of capture groups. *)
Record Regexp := { re_prog : regex; re_ncap : nat }.

Fixpoint parse_loop (s : list ascii) (st : pstate) : perr + Regexp :=
  match p_cls st with
  | Some k =>
      (* inside [...] *)
      match s with
      | [] => inl ErrSyntax
      | c :: t =>
          if bool_decide (c = "]"%char) && negb (c_first k) then
            parse_loop t (push (Chr {| cs_neg := c_neg k; cs_ranges := c_rs k |}) st)
          else if bool_decide (c = "["%char) then inl ErrUnsupported
          else if negb (is_ascii c) then inl ErrUnsupported
          else if bool_decide (c = "\"%char) then
            match t with
            | [] => inl ErrSyntax
            | e :: t' =>
                match escape e with
                | EscChar x =>
                    match t' with
                    | "-"%char :: y :: _ =>
                        if bool_decide (y = "]"%char) then parse_loop t' (cls_add [(x, x)] k st)
                        else inl ErrUnsupported
                    | _ => parse_loop t' (cls_add [(x, x)] k st)
                    end
                | EscClass false rs => parse_loop t' (cls_add rs k st)
                | EscClass true _ => inl ErrUnsupported
                | EscBad e => inl e
                end
            end
          else
            match t with
            | "-"%char :: hi :: t' =>
                if bool_decide (hi = "]"%char) then parse_loop t (cls_add [(c, c)] k st)
                else if bool_decide (hi = "\"%char) || negb (is_ascii hi) then inl ErrUnsupported
                else if nat_of_ascii hi <? nat_of_ascii c then inl ErrSyntax
                else parse_loop t' (cls_add [(c, hi)] k st)
            | _ => parse_loop t (cls_add [(c, c)] k st)
            end
      end
  | None =>
      match s with
      | [] =>
          match p_stack st with
          | [] => inr {| re_prog := frame_regex (p_top st); re_ncap := p_ncap st |}
          | _ :: _ => inl ErrSyntax
          end
      | c :: t =>
          if bool_decide (c = "("%char) then
            match t with
            | "?"%char :: ":"%char :: t' => parse_loop t' (open false st)
            | "?"%char :: _ => inl ErrUnsupported
            | _ => parse_loop t (open true st)
            end
          else if bool_decide (c = ")"%char) then
            match close st with
            | inl e => inl e
            | inr st' => parse_loop t st'
            end
          else if bool_decide (c = "|"%char) then parse_loop t (bar st)
          else if bool_decide (c = "*"%char) || bool_decide (c = "+"%char) || bool_decide (c = "?"%char) then
            let op := fun g => if bool_decide (c = "*"%char) then Star g
                               else if bool_decide (c = "+"%char) then Plus g else Quest g in
            match t with
            | "?"%char :: t' =>
                match repeat (op false) st with
                | inl e => inl e
                | inr st' => parse_loop t' st'
                end
            | _ =>
                match repeat (op true) st with
                | inl e => inl e
                | inr st' => parse_loop t st'
                end
            end
          else if bool_decide (c = "["%char) then
            match t with
            | "^"%char :: t' => parse_loop t' (enter_cls true st)
            | _ => parse_loop t (enter_cls false st)
            end
          else if bool_decide (c = "."%char) then parse_loop t (push (Chr cs_dot) st)
          else if bool_decide (c = "^"%char) then parse_loop t (push BeginText st)
          else if bool_decide (c = "$"%char) then parse_loop t (push EndText st)
          else if bool_decide (c = "\"%char) then
            match t with
            | [] => inl ErrSyntax
            | e :: t' =>
                match escape e with
                | EscChar x => parse_loop t' (push (Chr (cs_lit x)) st)
                | EscClass neg rs => parse_loop t' (push (Chr {| cs_neg := neg; cs_ranges := rs |}) st)
                | EscBad e => inl e
                end
            end
          else if bool_decide (c = "{"%char) then
            (* a repetition count is outside the fragment; otherwise [{] is a literal *)
            match t with
            | d :: _ => if is_digit d then inl ErrUnsupported
                        else parse_loop t (push (Chr (cs_lit c)) st)
            | [] => parse_loop t (push (Chr (cs_lit c)) st)
            end
          else if negb (is_ascii c) then inl ErrUnsupported
          else parse_loop t (push (Chr (cs_lit c)) st)
      end
  end.

(** [regexp.Compile]; [regexp.MustCompile] panics on [inl]. *)
Definition Compile (pat : list ascii) : perr + Regexp := parse_loop pat pinit.

(** *** Matching

    A backtracking matcher in continuation-passing style.  The continuation
    receives the rest of the input and the captures made so far; alternatives
    are tried in preference order, so the first success is the leftmost-first
    match.  [n] is the length of the whole text, so that [^] can tell whether
    it stands at its beginning. *)

Definition caps := list (nat * list ascii).
Definition mres := option (list ascii * caps).
Definition cont := list ascii -> caps -> mres.

Definition orelse (a b : mres) : mres :=
  match a with Some x => Some x | None => b end.

(** the captured text between two positions given as remaining inputs *)
Definition consumed (s s' : list ascii) : list ascii := take (length s - length s') s.

(** Repetition of a body matcher [mb].  An iteration that consumes nothing is
    not repeated, so [fuel = length s] iterations always suffice. *)
Fixpoint star_loop (mb : cont -> cont) (g : bool) (k : cont) (fuel : nat)
    (s : list ascii) (c : caps) : mres :=
  match fuel with
  | O => k s c
  | S f =>
      let again := mb (fun s' c' => if length s' <? length s
                                    then star_loop mb g k f s' c' else None) s c in
      if g then orelse again (k s c) else orelse (k s c) again
  end.

Fixpoint m (n : nat) (r : regex) (k : cont) (s : list ascii) (c : caps) : mres :=
  match r with
  | Empty => k s c
  | Chr cs =>
      match s with
      | a :: s' => if cs_mem cs a then k s' c else None
      | [] => None
      end
  | Cat r1 r2 => m n r1 (m n r2 k) s c
  | Alt r1 r2 => orelse (m n r1 k s c) (m n r2 k s c)
  | Star g r1 => star_loop (m n r1) g k (length s) s c
  | Plus g r1 => m n r1 (fun s' c' => star_loop (m n r1) g k (length s') s' c') s c
  | Quest g r1 =>
      if g then orelse (m n r1 k s c) (k s c) else orelse (k s c) (m n r1 k s c)
  | Cap i r1 => m n r1 (fun s' c' => k s' ((i, consumed s s') :: c')) s c
  | BeginText => if length s =? n then k s c else None
  | EndText => match s with [] => k s c | _ :: _ => None end
  end.

Definition accept : cont := fun s c => Some (s, c).

(** One execution of the machine on [s], the part of a text of length [n]
    that starts at the search position: the leftmost position where a match
    starts, with the input left after it and its captures. *)
Fixpoint exec (n : nat) (r : regex) (s : list ascii) : option (list ascii * list ascii * caps) :=
  match m n r accept s [] with
  | Some (s', c) => Some (s, s', c)
  | None =>
      match s with
      | [] => None
      | _ :: t => exec n r t
      end
  end.

(** [re.MatchString] *)
Definition MatchString (re : Regexp) (s : list ascii) : bool :=
  bool_decide (is_Some (exec (length s) (re_prog re) s)).

(** the text of group [i]; a group that took no part in the match gives the empty string *)
Fixpoint cap_get (i : nat) (c : caps) : list ascii :=
  match c with
  | [] => []
  | (j, v) :: c' => if i =? j then v else cap_get i c'
  end.

(** a match as [FindStringSubmatch] delivers it: whole match, then groups 1..ncap *)
Definition submatches (re : Regexp) (s s' : list ascii) (c : caps) : list (list ascii) :=
  consumed s s' :: map (fun i => cap_get i c) (seq 1 (re_ncap re)).

(** The loop of [re.allMatches] for [n = -1].  [pos] is the search position,
    [prevMatchEnd] the end of the previous match ([None] for -1).  An empty
    match right after the previous match is dropped and the search moves on
    by one byte. *)
Fixpoint allMatches (fuel : nat) (re : Regexp) (text : list ascii) (pos : nat)
    (prevMatchEnd : option nat) : list (list (list ascii)) :=
  match fuel with
  | O => []
  | S f =>
      if length text <? pos then []
      else match exec (length text) (re_prog re) (drop pos text) with
           | None => []
           | Some (s, s', c) =>
               let m0 := length text - length s in
               let m1 := length text - length s' in
               let accepted := negb ((m1 =? pos) && bool_decide (Some m0 = prevMatchEnd)) in
               let pos' := if m1 =? pos
                           then (if pos <? length text then pos + 1 else length text + 1)
                           else m1 in
               let rest := allMatches f re text pos' (Some m1) in
               if accepted then submatches re s s' c :: rest else rest
           end
  end.

(** [re.FindAllStringSubmatch(text, -1)] *)
Definition FindAllStringSubmatch (re : Regexp) (text : list ascii) : list (list (list ascii)) :=
  allMatches (S (S (length text))) re text 0 None.

End Regexp.

(** ** Package [path] (Go standard library, modelled from its documentation) *)

Module Path.

Import GoString.

(** the elements between slashes, empty ones included: ["a//b"] has three *)
Fixpoint split (s : list ascii) : list (list ascii) :=
  match s with
  | [] => [[]]
  | c :: t =>
      if bool_decide (c = "/"%char) then [] :: split t
      else match split t with
           | e :: es => (c :: e) :: es
           | [] => [[c]]
           end
  end.

Fixpoint join (es : list (list ascii)) : list ascii :=
  match es with
  | [] => []
  | [e] => e
  | e :: es' => e ++ "/"%char :: join es'
  end.

(** One element of [Clean]'s scan.  [out] holds the elements written so far,
    most recent first; the oldest [dotdot] of them are [..] elements that can
    no longer be backed out of. *)
Definition clean_step (rooted : bool) (st : list (list ascii) * nat) (e : list ascii)
    : list (list ascii) * nat :=
  let '(out, dotdot) := st in
  if eqb e [] || eqb e go:"." then st
  else if eqb e go:".." then
    if dotdot <? length out then (tail out, dotdot)
    else if rooted then st
    else (e :: out, S (length out))
  else (e :: out, dotdot).

(** [path.Clean] *)
Definition Clean (p : list ascii) : list ascii :=
  match p with
  | [] => go:"."
  | c :: _ =>
      let rooted := bool_decide (c = "/"%char) in
      let out := rev (fst (fold_left (clean_step rooted) (split p) ([], 0))) in
      if rooted then "/"%char :: join out
      else match out with [] => go:"." | _ => join out end
  end.

(** [path.Join] *)
Definition Join (elem : list (list ascii)) : list ascii :=
  if forallb (fun e => eqb e []) elem then []
  else Clean (fold_left (fun buf e =>
                if eqb buf [] && eqb e [] then buf
                else if eqb buf [] then e
                else buf ++ "/"%char :: e) elem []).

(** the index just after the last slash (0 when there is none) *)
Fixpoint afterLastSlash (s : list ascii) : nat :=
  match s with
  | [] => 0
  | c :: t =>
      if existsb (fun d => bool_decide (d = "/"%char)) t then S (afterLastSlash t)
      else if bool_decide (c = "/"%char) then 1 else 0
  end.

(** [path.Dir] *)
Definition Dir (p : list ascii) : list ascii := Clean (take (afterLastSlash p) p).

Fixpoint trimSlashes (r : list ascii) : list ascii :=
  match r with
  | c :: t => if bool_decide (c = "/"%char) then trimSlashes t else r
  | [] => []
  end.

(** [path.Base] *)
Definition Base (p : list ascii) : list ascii :=
  match p with
  | [] => go:"."
  | _ =>
      let p1 := rev (trimSlashes (rev p)) in
      let p2 := drop (afterLastSlash p1) p1 in
      match p2 with [] => go:"/" | _ => p2 end
  end.

(** [path.Ext]: scanning [r], the path reversed, for a dot before any slash *)
Fixpoint ext_rev (r acc : list ascii) : list ascii :=
  match r with
  | [] => []
  | c :: t =>
      if bool_decide (c = "/"%char) then []
      else if bool_decide (c = "."%char) then c :: acc
      else ext_rev t (c :: acc)
  end.

Definition Ext (p : list ascii) : list ascii := ext_rev (rev p) [].

End Path.

(** ** Errors, the file system and the environment *)

Module Os.

Import GoString.

(** The error values that can reach the router.  [errorString] is what
    [errors.New] and a [fmt.Errorf] without [%w] return: a message with no
    [Unwrap] method. *)
Inductive error :=
| ErrNotExist
| ErrPermission
| Errno (name : string)
| PathError (op : list ascii) (path : list ascii) (err : error)
| errorString (msg : list ascii).

Definition ENOENT := Errno "ENOENT".
Definition EACCES := Errno "EACCES".
Definition EISDIR := Errno "EISDIR".

(** [err.Error()], the text of an error *)
Fixpoint errorText (e : error) : list ascii :=
  match e with
  | ErrNotExist => go:"file does not exist"
  | ErrPermission => go:"permission denied"
  | Errno n =>
      if String.eqb n "ENOENT" then go:"no such file or directory"
      else if String.eqb n "EACCES" then go:"permission denied"
      else if String.eqb n "EISDIR" then go:"is a directory"
      else go:"errno " ++ lit n
  | PathError op path err => op ++ go:" " ++ path ++ go:": " ++ errorText err
  | errorString msg => msg
  end.

Definition error_eqb (a b : error) : bool :=
  match a, b with
  | ErrNotExist, ErrNotExist => true
  | ErrPermission, ErrPermission => true
  | Errno x, Errno y => String.eqb x y
  | _, _ => false
  end.

(** [errors.Is]: equality with the target, the error's own [Is] method
    ([syscall.Errno.Is]), then down the [Unwrap] chain. *)
Fixpoint Is (err target : error) : bool :=
  error_eqb err target ||
  match err with
  | Errno n =>
      match target with
      | ErrNotExist => String.eqb n "ENOENT"
      | ErrPermission => String.eqb n "EACCES" || String.eqb n "EPERM"
      | _ => false
      end
  | PathError _ _ inner => Is inner target
  | _ => false
  end.

(** [fmt.Errorf(prefix + "%s", err)]: formats the message, wraps nothing *)
Definition Errorf_s (prefix : list ascii) (err : error) : error :=
  errorString (prefix ++ errorText err).

Inductive node :=
| File (content : list ascii)
| Directory
| Unreadable.

(** the process's view of the outside: files by path, environment variables *)
Record Sys := {
  files : gmap (list ascii) node;
  environ : gmap (list ascii) (list ascii)
}.

(** [os.ReadFile] *)
Definition ReadFile (sys : Sys) (fn : list ascii) : error + list ascii :=
  match files sys !! fn with
  | Some (File b) => inr b
  | Some Directory => inl (PathError go:"read" fn EISDIR)
  | Some Unreadable => inl (PathError go:"open" fn EACCES)
  | None => inl (PathError go:"open" fn ENOENT)
  end.

(** [os.Stat]: only whether it fails is used *)
Definition Stat (sys : Sys) (fn : list ascii) : option error :=
  match files sys !! fn with
  | Some _ => None
  | None => Some (PathError go:"stat" fn ENOENT)
  end.

(** [os.Getenv] *)
Definition Getenv (sys : Sys) (name : list ascii) : list ascii :=
  default [] (environ sys !! name).

End Os.

(** ** The router *)

Module Tube.

Import GoString Regexp Os.

(** map of url params by @name *)
Abbreviation Params := (gmap (list ascii) (list ascii)).

(** the part of [*http.Request] the router reads and writes *)
Record Request := { Method : list ascii; URLPath : list ascii }.

(** What a user callback does with its [*Data]: the methods it calls and the
    text it appends to [d.HTML], in order.  ([Json] and [WriteJson] belong to
    the JSON helpers and are left out.) *)
Inductive Action :=
| AStatus (code : nat)
| AWrite (s : list ascii)
| ARedirect (url : list ascii) (code : nat)
| ANotFound
| AError (err : error)
| AHTML (s : list ascii).

(** The type [Callback] of functions taking a [*Data]: a user function, or one of the two closures
    the router itself hands out. *)
Inductive Callback :=
| Handler (f : Params -> Request -> list Action)
| StaticDir (dir : list ascii)
| StaticFile (fn : list ascii).

Record route := {
  addr : nat;
  pattern : option Regexp;
  callback : Callback;
  params : list (list ascii);
  method : list ascii
}.

Definition LOG_ERRORS : nat := 0.
Definition LOG_INFO : nat := 1.
Definition LOG_DEBUG : nat := 2.

(** a line written through [router.logger] *)
Inductive LogEntry :=
| LogText (msg : list ascii)
| LogCreate (mthd str : list ascii)
| LogRequest (mthd url : list ascii) (status : nat)
| LogError (err : error).

Record Router := {
  routes : list route;
  lateRoutes : list route;
  route404 : route;
  route500 : route;
  routeCache : gmap (list ascii) route;
  htmlCache : gmap (list ascii) (list ascii);
  noCache : bool;
  htmlDisabled : bool;
  logger : list LogEntry;
  logLevel : nat;
  nextAddr : nat
}.

Definition set_routes (v : list route) (r : Router) : Router :=
  {| routes := v; lateRoutes := lateRoutes r; route404 := route404 r; route500 := route500 r;
     routeCache := routeCache r; htmlCache := htmlCache r; noCache := noCache r;
     htmlDisabled := htmlDisabled r; logger := logger r; logLevel := logLevel r;
     nextAddr := nextAddr r |}.
Definition set_lateRoutes (v : list route) (r : Router) : Router :=
  {| routes := routes r; lateRoutes := v; route404 := route404 r; route500 := route500 r;
     routeCache := routeCache r; htmlCache := htmlCache r; noCache := noCache r;
     htmlDisabled := htmlDisabled r; logger := logger r; logLevel := logLevel r;
     nextAddr := nextAddr r |}.
Definition set_route404 (v : route) (r : Router) : Router :=
  {| routes := routes r; lateRoutes := lateRoutes r; route404 := v; route500 := route500 r;
     routeCache := routeCache r; htmlCache := htmlCache r; noCache := noCache r;
     htmlDisabled := htmlDisabled r; logger := logger r; logLevel := logLevel r;
     nextAddr := nextAddr r |}.
Definition set_route500 (v : route) (r : Router) : Router :=
  {| routes := routes r; lateRoutes := lateRoutes r; route404 := route404 r; route500 := v;
     routeCache := routeCache r; htmlCache := htmlCache r; noCache := noCache r;
     htmlDisabled := htmlDisabled r; logger := logger r; logLevel := logLevel r;
     nextAddr := nextAddr r |}.
Definition set_routeCache (v : gmap (list ascii) route) (r : Router) : Router :=
  {| routes := routes r; lateRoutes := lateRoutes r; route404 := route404 r; route500 := route500 r;
     routeCache := v; htmlCache := htmlCache r; noCache := noCache r;
     htmlDisabled := htmlDisabled r; logger := logger r; logLevel := logLevel r;
     nextAddr := nextAddr r |}.
Definition set_htmlCache (v : gmap (list ascii) (list ascii)) (r : Router) : Router :=
  {| routes := routes r; lateRoutes := lateRoutes r; route404 := route404 r; route500 := route500 r;
     routeCache := routeCache r; htmlCache := v; noCache := noCache r;
     htmlDisabled := htmlDisabled r; logger := logger r; logLevel := logLevel r;
     nextAddr := nextAddr r |}.
Definition set_nextAddr (v : nat) (r : Router) : Router :=
  {| routes := routes r; lateRoutes := lateRoutes r; route404 := route404 r; route500 := route500 r;
     routeCache := routeCache r; htmlCache := htmlCache r; noCache := noCache r;
     htmlDisabled := htmlDisabled r; logger := logger r; logLevel := logLevel r;
     nextAddr := v |}.
Definition println (e : LogEntry) (r : Router) : Router :=
  {| routes := routes r; lateRoutes := lateRoutes r; route404 := route404 r; route500 := route500 r;
     routeCache := routeCache r; htmlCache := htmlCache r; noCache := noCache r;
     htmlDisabled := htmlDisabled r; logger := logger r ++ [e]; logLevel := logLevel r;
     nextAddr := nextAddr r |}.
(** [SetLogLevel] *)
Definition SetLogLevel (i : nat) (r : Router) : Router :=
  {| routes := routes r; lateRoutes := lateRoutes r; route404 := route404 r; route500 := route500 r;
     routeCache := routeCache r; htmlCache := htmlCache r; noCache := noCache r;
     htmlDisabled := htmlDisabled r; logger := logger r; logLevel := i;
     nextAddr := nextAddr r |}.

(** *** Route compilation *)

Definition placeholder_src : list ascii := go:"@+(.+?)(?:/|\)|$)".

(** a pattern literal of the source, compiled once *)
Definition compiled (src : list ascii) : Regexp :=
  match Compile src with
  | inr re => re
  | inl _ => {| re_prog := Empty; re_ncap := 0 |}
  end.

Definition placeholder_re : Regexp := Eval vm_compute in compiled placeholder_src.

(** [match[i]] of a submatch slice *)
Definition sub (mt : list (list ascii)) (i : nat) : list ascii := default [] (mt !! i).

(** ensure all routes both begin with a '/' and end without one *)
Definition stripSlash (str : list ascii) : list ascii :=
  if negb (eqb str go:"/") && HasSuffix str go:"/" then dropLast str else str.

(** the body of the loop over the placeholder matches *)
Definition placeholder_step (acc : list ascii * list (list ascii)) (mt : list (list ascii))
    : list ascii * list (list ascii) :=
  let '(str, params) := acc in
  let name := sub mt 1 in
  (* match wildcard first, then single part *)
  let str := Replace1 str (go:"@@" ++ name) go:"(.+)" in
  let str := Replace1 str (go:"@" ++ name) go:"([^/]+)" in
  (str, params ++ [name]).

Definition parsePattern (str : list ascii) : list ascii * list (list ascii) :=
  let str := stripSlash str in
  let '(str, params) :=
    if Contains str go:"@"
    then fold_left placeholder_step (FindAllStringSubmatch placeholder_re str) (str, [])
    else (str, []) in
  (* ensure pattern can only match the entire url *)
  (go:"^" ++ str ++ go:"$", params).

(** [regexp.MustCompile]: [None] is the panic (or a pattern outside the
    modelled fragment). *)
Definition MustCompile (pat : list ascii) : option Regexp :=
  match Compile pat with
  | inr re => Some re
  | inl _ => None
  end.

Definition createRoute (str : list ascii) (cb : Callback) (mthd : list ascii) (late : bool)
    (router : Router) : option Router :=
  let router := if LOG_DEBUG <=? logLevel router
                then println (LogCreate mthd str) router else router in
  let '(rx, ps) := parsePattern str in
  re ← MustCompile rx;
  let rt := {| addr := nextAddr router; pattern := Some re; callback := cb;
               params := ps; method := mthd |} in
  let router := set_nextAddr (S (nextAddr router)) router in
  Some (if late then set_lateRoutes (lateRoutes router ++ [rt]) router
        else set_routes (routes router ++ [rt]) router).

(** returns a pattern to match a whole dir (for use with StaticDir) *)
Definition Dir (str : list ascii) : list ascii :=
  stripSlash str ++ go:"(?:/?@@path)?".

Definition Route (mthd str : list ascii) (cb : Callback) := createRoute str cb mthd false.
Definition LateRoute (mthd str : list ascii) (cb : Callback) := createRoute str cb mthd true.
Definition GET (str : list ascii) (cb : Callback) := createRoute str cb go:"GET" false.
Definition POST (str : list ascii) (cb : Callback) := createRoute str cb go:"POST" false.
Definition PUT (str : list ascii) (cb : Callback) := createRoute str cb go:"PUT" false.
Definition DELETE (str : list ascii) (cb : Callback) := createRoute str cb go:"DELETE" false.
Definition HEAD (str : list ascii) (cb : Callback) := createRoute str cb go:"HEAD" false.
Definition PATCH (str : list ascii) (cb : Callback) := createRoute str cb go:"PATCH" false.

(** [&route{}] with only the callback set *)
Definition bare_route (a : nat) (cb : Callback) : route :=
  {| addr := a; pattern := None; callback := cb; params := []; method := [] |}.

Definition Set404 (cb : Callback) (router : Router) : Router :=
  set_nextAddr (S (nextAddr router)) (set_route404 (bare_route (nextAddr router) cb) router).

Definition Set500 (cb : Callback) (router : Router) : Router :=
  set_nextAddr (S (nextAddr router)) (set_route500 (bare_route (nextAddr router) cb) router).

Definition NewRouter (sys : Sys) : Router :=
  {| routes := []; lateRoutes := [];
     route404 := bare_route 0 (Handler (fun _ _ => [AWrite go:"404 file not found"]));
     route500 := bare_route 1 (Handler (fun _ _ => [AWrite go:"500 internal server error"]));
     routeCache := ∅; htmlCache := ∅;
     noCache := eqb (Getenv sys go:"NOCACHE") go:"1";
     htmlDisabled := eqb (Getenv sys go:"NOHTML") go:"1";
     logger := [LogText go:"router initialized"];
     logLevel := LOG_ERRORS;
     nextAddr := 2 |}.

Definition writeCache (cacheName : list ascii) (rt : route) (router : Router) : Router :=
  set_routeCache (<[cacheName := rt]> (routeCache router)) router.

(** *** Cache invalidation and route removal *)

(** [for url := range cache { if pattern.MatchString(url) { delete(cache, url) } }] *)
Definition deleteMatching {V} (re : Regexp) (cache : gmap (list ascii) V) : gmap (list ascii) V :=
  foldr (fun kv acc => if MatchString re kv.1 then delete kv.1 acc else acc)
        cache (map_to_list cache).

(** clear cache that matches a pattern *)
Definition ClearCache (str : list ascii) (router : Router) : option Router :=
  let str := go:"[A-Z]+ " ++ str in (* METHOD url/foo/bar *)
  let '(rx, _) := parsePattern str in
  re ← MustCompile rx;
  let router := set_routeCache (deleteMatching re (routeCache router)) router in
  Some (set_htmlCache (deleteMatching re (htmlCache router)) router).

(** empty cache completely *)
Definition EmptyCache (router : Router) : Router :=
  set_htmlCache ∅ (set_routeCache ∅ router).

(** removes routes that match a pattern.

    [for i, rt := range router.routes] takes the slice header once: the loop
    runs over the [todo + i] slots the backing array [arr] had at entry and
    reads slot [i] as it is then.  [append(router.routes[:i],
    router.routes[i+1:]...)] moves the slots after [i] one to the left inside
    that array and makes [router.routes] one shorter; [router.routes[i+1:]]
    panics once [i+1] exceeds the current length. *)
Fixpoint RemoveRoute_loop (str : list ascii) (todo i : nat) (arr : list route)
    (router : Router) : option Router :=
  match todo with
  | O => Some router
  | S todo' =>
      rt ← arr !! i;
      re ← pattern rt;
      if MatchString re str then
        let len := length (routes router) in
        if len <? i + 1 then None
        else
          let arr' := take i arr ++ drop (i + 1) (take len arr) ++ drop (len - 1) arr in
          router ← ClearCache str (set_routes (take (len - 1) arr') router);
          RemoveRoute_loop str todo' (S i) arr' router
      else RemoveRoute_loop str todo' (S i) arr router
  end.

Definition RemoveRoute (str : list ascii) (router : Router) : option Router :=
  RemoveRoute_loop str (length (routes router)) 0 (routes router) router.

(** *** Serving a request *)

(** what reaches the [http.ResponseWriter] *)
Inductive Event :=
| WriteHeader (code : nat)
| Write (s : list ascii)
| Redirect (url : list ascii) (code : nat)
| FileServer (dir path : list ascii)
| ServeFile (fn : list ascii).

(** route callback data; the router, the writer and the request it points to
    are in [State] *)
Record Data := { d_Params : Params; status : nat; HTML : list ascii }.

Record State := { router : Router; request : Request; response : list Event }.

Definition emit (e : Event) (st : State) : State :=
  {| router := router st; request := request st; response := response st ++ [e] |}.
Definition with_router (f : Router -> Router) (st : State) : State :=
  {| router := f (router st); request := request st; response := response st |}.
Definition set_URLPath (p : list ascii) (st : State) : State :=
  {| router := router st;
     request := {| Method := Method (request st); URLPath := p |};
     response := response st |}.

Definition StatusOK : nat := 200.
Definition StatusNotFound : nat := 404.
Definition StatusInternalServerError : nat := 500.

(** write status code *)
Definition Status (code : nat) (d : Data) (st : State) : Data * State :=
  ({| d_Params := d_Params d; status := code; HTML := HTML d |}, emit (WriteHeader code) st).

(** param helper *)
Definition P (d : Data) (name : list ascii) : list ascii := default [] (d_Params d !! name).

Definition dquote : ascii := "034"%char.

Definition include_src : list ascii :=
  go:"<!--\s*include " ++ dquote :: go:"(.+?\.html)" ++ dquote :: go:"\s*-->".
Definition include_re : Regexp := Eval vm_compute in compiled include_src.

Definition conditional_src : list ascii :=
  go:"<!--\s*if (!)?\$(.+?)\s+{\s*(.+)\s*}\s*-->".
Definition conditional_re : Regexp := Eval vm_compute in compiled conditional_src.

Section Serve.

Variable sys : Sys.

Definition readHTMLFile (fn : list ascii) : error + list ascii :=
  (* remove prefixing '/' from filename *)
  ReadFile sys (TrimPrefix fn go:"/").

(** the loop over the include tags; [parse] is [router.parseHTML] itself *)
Fixpoint include_loop (parse : list ascii -> list ascii -> option (error + list ascii))
    (parentDir : list ascii) (includes : list (list (list ascii))) (str : list ascii)
    : option (error + list ascii) :=
  match includes with
  | [] => Some (inr str)
  | mt :: rest =>
      let tag := sub mt 0 in
      let include := sub mt 1 in
      (* read referenced file *)
      let fn := Path.Join [parentDir; include] in
      match readHTMLFile fn with
      | inl err => Some (inl (Errorf_s go:"unreadable include " err))
      | inr body =>
          (* parse it *)
          let nextDir := Path.Join [parentDir; Path.Dir include] in
          match parse body nextDir with
          | None => None
          | Some (inl err) => Some (inl err)
          | Some (inr contents) =>
              (* replace tag with file contents *)
              include_loop parse parentDir rest (Replace1 str tag contents)
          end
      end
  end.

(** the body of the loop over the conditional tags *)
Definition conditional_step (str : list ascii) (mt : list (list ascii)) : list ascii :=
  let tag := sub mt 0 in
  let invchar := sub mt 1 in
  let varname := sub mt 2 in
  let text := sub mt 3 in
  let invert := eqb invchar go:"!" in
  let env := Getenv sys varname in
  let hasEnv := negb (eqb env []) in
  let contents := if (negb invert && hasEnv) || (invert && negb hasEnv) then text else [] in
  Replace1 str tag contents.

(** [fuel] bounds the depth of nested includes; Go recurses without bound. *)
Fixpoint parseHTML (fuel : nat) (str parentDir : list ascii) : option (error + list ascii) :=
  match fuel with
  | O => None
  | S f =>
      (* find and parse include tags *)
      match include_loop (parseHTML f) parentDir (FindAllStringSubmatch include_re str) str with
      | None => None
      | Some (inl err) => Some (inl err)
      | Some (inr str) =>
          (* find and parse conditional tags *)
          Some (inr (fold_left conditional_step (FindAllStringSubmatch conditional_re str) str))
      end
  end.

(** Everything below runs inside [callRoute] and may call it again; [call] is
    that nested [router.callRoute(rt, url, w, r)]. *)
Section Nested.

Variable call : route -> list ascii -> State -> option State.

(** sends and caches '404 not found' *)
Definition NotFound (st : State) : option State :=
  let url := Path.Clean (URLPath (request st)) in
  let cacheName := Method (request st) ++ go:" " ++ url in
  let st := with_router (writeCache cacheName (route404 (router st))) st in
  call (route404 (router st)) url st.

(** sends '500 internal server error' *)
Definition Error (err : error) (st : State) : option State :=
  let st := with_router (println (LogError err)) st in
  let url := Path.Clean (URLPath (request st)) in
  call (route500 (router st)) url st.

(** [serveHTML] after the cache lookup: parse and serve *)
Definition parseAndServe (fuel : nat) (static : bool) (text dir : list ascii) (st : State)
    : option State :=
  let url := URLPath (request st) in
  match parseHTML fuel text dir with
  | None => None
  | Some (inl err) => if Is err ErrNotExist then NotFound st else Error err st
  | Some (inr str) =>
      let st := emit (Write str) st in
      (* save to cache *)
      Some (if static
            then with_router (fun r => set_htmlCache (<[url := str]> (htmlCache r)) r) st
            else st)
  end.

Definition serveHTML (fuel : nat) (static : bool) (text dir : list ascii) (st : State)
    : option State :=
  let url := URLPath (request st) in
  (* serve from cache if exists *)
  match (if static then htmlCache (router st) !! url else None) with
  | Some html =>
      if negb (noCache (router st)) then Some (emit (Write html) st)
      else parseAndServe fuel static text dir st
  | None => parseAndServe fuel static text dir st
  end.

Definition serveHTMLStatic (fuel : nat) (dir fn : list ascii) (st : State) : option State :=
  let fn := Path.Join [dir; fn] in
  match readHTMLFile fn with
  | inl err => Error (Errorf_s go:"unreadable static include " err) st
  | inr body => serveHTML fuel true body dir st
  end.

(** [StaticDir]'s closure after the url has been overwritten: index.html
    detection, then the html parser or the file server *)
Definition StaticDir_serve (fuel : nat) (dir : list ascii) (st : State) : option State :=
  let html := negb (htmlDisabled (router st)) in
  (* if no file extension, use path/index.html if exists *)
  let st :=
    if html && eqb (Path.Ext (URLPath (request st))) []
    then match Stat sys (Path.Join [dir; URLPath (request st); go:"index.html"]) with
         | None => set_URLPath (Path.Join [URLPath (request st); go:"index.html"]) st
         | Some _ => st
         end
    else st in
  (* use html parser if enabled *)
  if html && HasSuffix (URLPath (request st)) go:".html"
  then serveHTMLStatic fuel dir (URLPath (request st)) st
  else match Stat sys (Path.Join [dir; URLPath (request st)]) with
       | Some _ => NotFound st
       | None => Some (emit (FileServer dir (URLPath (request st))) st)
       end.

(** the closure [StaticDir(dir)] returns *)
Definition StaticDir_body (fuel : nat) (dir : list ascii) (d : Data) (st : State) : option State :=
  (* overwrite url with relative param path *)
  let st := match d_Params d !! go:"path" with
            | Some _ => set_URLPath (go:"/" ++ P d go:"path") st
            | None => st
            end in
  StaticDir_serve fuel dir st.

(** the closure [StaticFile(fn)] returns *)
Definition StaticFile_body (fuel : nat) (fn : list ascii) (st : State) : option State :=
  let basefn := Path.Base fn in
  let dir := Path.Dir fn in
  if negb (htmlDisabled (router st)) && HasSuffix fn go:".html"
  then let st := set_URLPath basefn st in
       serveHTMLStatic fuel dir (URLPath (request st)) st
  else match Stat sys fn with
       | Some _ => Error (errorString go:"static file mapped to nonexistent file") st
       | None => Some (emit (ServeFile fn) st)
       end.

(** a user callback at work on its [*Data] *)
Fixpoint runActions (acts : list Action) (d : Data) (st : State) : option (Data * State) :=
  match acts with
  | [] => Some (d, st)
  | a :: rest =>
      match a with
      | AStatus code => let '(d, st) := Status code d st in runActions rest d st
      | AWrite str => runActions rest d (emit (Write str) st)
      | ARedirect url code => runActions rest d (emit (Redirect url code) st)
      | ANotFound => st ← NotFound st; runActions rest d st
      | AError err => st ← Error err st; runActions rest d st
      | AHTML str =>
          runActions rest {| d_Params := d_Params d; status := status d; HTML := HTML d ++ str |} st
      end
  end.

(** [rt.callback(data)] *)
Definition runCallback (fuel : nat) (cb : Callback) (d : Data) (st : State)
    : option (Data * State) :=
  match cb with
  | Handler f => runActions (f (d_Params d) (request st)) d st
  | StaticDir dir => st ← StaticDir_body fuel dir d st; Some (d, st)
  | StaticFile fn => st ← StaticFile_body fuel fn st; Some (d, st)
  end.

End Nested.
(** [p[rt.params[num]] = val] for every capture; a capture without a name
    is an index out of range *)
Fixpoint bindParams (names : list (list ascii)) (num : nat) (vals : list (list ascii))
    (p : Params) : option Params :=
  match vals with
  | [] => Some p
  | val :: rest =>
      name ← names !! num;
      bindParams names (S num) rest (<[name := val]> p)
  end.

(** the head of [callRoute]: the url params of the route *)
Definition routeParams (rt : route) (url : list ascii) : option Params :=
  if 0 <? length (params rt) then
    re ← pattern rt;
    mt ← FindAllStringSubmatch re url !! 0;
    bindParams (params rt) 0 (drop 1 mt) ∅
  else Some ∅.

(** [fuel] bounds the nesting of [callRoute] (a callback signalling not-found
    or an error runs a fallback route inside it) and of includes. *)
Fixpoint callRoute (fuel : nat) (rt : route) (url : list ascii) (st : State) : option State :=
  match fuel with
  | O => None
  | S f =>
      p ← routeParams rt url;
      let data := {| d_Params := p; status := StatusOK; HTML := [] |} in
      let '(data, st) :=
        if addr rt =? addr (route404 (router st)) then Status StatusNotFound data st
        else if addr rt =? addr (route500 (router st))
             then Status StatusInternalServerError data st
             else (data, st) in
      '(data, st) ← runCallback (callRoute f) f (callback rt) data st;
      st ← (if negb (eqb (HTML data) [])
            then serveHTML (callRoute f) f false (HTML data) go:"/" st
            else Some st);
      Some (if (LOG_INFO <=? logLevel (router st)) || (status data =? StatusInternalServerError)
            then with_router (println (LogRequest (Method (request st)) url (status data))) st
            else st)
  end.

(** one [for _, rt := range ...] loop of [ServeHTTP]: the route at which it
    returns, if any.  A route of the right method without a pattern is a nil
    dereference. *)
Fixpoint scan (rs : list route) (mthd url : list ascii) : option (option route) :=
  match rs with
  | [] => Some None
  | rt :: rs' =>
      if eqb (method rt) mthd then
        re ← pattern rt;
        if MatchString re url then Some (Some rt) else scan rs' mthd url
      else scan rs' mthd url
  end.

(** [ServeHTTP] when there is no cached route to use *)
Definition ServeHTTP_scan (fuel : nat) (cacheName url : list ascii) (st : State) : option State :=
  let mthd := Method (request st) in
  (* use first route that matches request URL *)
  found ← scan (routes (router st)) mthd url;
  match found with
  | Some rt => callRoute fuel rt url (with_router (writeCache cacheName rt) st)
  | None =>
      (* check late routes last *)
      found ← scan (lateRoutes (router st)) mthd url;
      match found with
      | Some rt => callRoute fuel rt url (with_router (writeCache cacheName rt) st)
      | None =>
          (* not found *)
          callRoute fuel (route404 (router st)) url
            (with_router (writeCache cacheName (route404 (router st))) st)
      end
  end.

Definition ServeHTTP (fuel : nat) (st : State) : option State :=
  let url := Path.Clean (URLPath (request st)) in
  let st := set_URLPath url st in
  let cacheName := Method (request st) ++ go:" " ++ url in
  (* use cached route *)
  match routeCache (router st) !! cacheName with
  | Some route =>
      if negb (noCache (router st)) then callRoute fuel route url st
      else ServeHTTP_scan fuel cacheName url st
  | None => ServeHTTP_scan fuel cacheName url st
  end.

End Serve.

End Tube.

(** ** staticfs.go: the file system handed to [http.FileServer] *)

Module StaticFs.

Import GoString Os.

(** An [http.File] of the base file system: the name it was opened under and
    what its [Stat] says, an error or whether it is a directory. *)
Record File := { f_name : list ascii; f_Stat : error + bool }.

(** [http.FileSystem]: its [Open] *)
Definition FileSystem := list ascii -> error + File.

(** [staticFsFile]: a file with [Readdir] overridden *)
Record staticFsFile := { wrapped : File }.

(** [Readdir] returns [nil, nil] whatever the file and the count *)
Definition Readdir (f : staticFsFile) (count : Z) : list (list ascii) * option error :=
  ([], None).

Definition Open (base : FileSystem) (name : list ascii) : error + staticFsFile :=
  match base name with
  | inl err => inl err
  | inr f =>
      match f_Stat f with
      | inl err => inl err
      | inr isDir =>
          (* handle dirs *)
          if isDir then
            (* serve index if exists *)
            match base (Path.Join [name; go:"index.html"]) with
            | inr index =>
                (* allow http.FileServer to serve index for root *)
                if negb (eqb name go:"/") then inr {| wrapped := index |}
                else inr {| wrapped := f |}
            | inl _ => inl ErrNotExist
            end
          else
            (* return file with overridden Readdir *)
            inr {| wrapped := f |}
      end
  end.

End StaticFs.

(** * Notions used to state the properties *)

Import GoString Regexp Os Tube.

(** ** Scenarios *)

Module Scenario.

Definition request_of (mthd path : string) (r : Router) : State :=
  {| router := r; request := {| Method := go:mthd; URLPath := go:path |}; response := [] |}.

(** a site served from ./static and mounted at the root *)
Definition site (sys : Sys) : Router :=
  default (NewRouter sys) (GET (Dir go:"/") (StaticDir go:"./static") (NewRouter sys)).

Definition disk (content : list ascii) : Sys :=
  {| files := {[ go:"static/page.html" := File content ]}; environ := ∅ |}.

(** a page that includes a file that is not there *)
Definition page_missing_include : list ascii :=
  go:"a<!-- include " ++ dquote :: go:"missing.html" ++ dquote :: go:" -->b".

(** three routes, the first two on the same path *)
Definition three_routes : Router :=
  let r := NewRouter (disk []) in
  let r := default r (GET go:"/x" (Handler (fun _ _ => [AWrite go:"get x"])) r) in
  let r := default r (POST go:"/x" (Handler (fun _ _ => [AWrite go:"post x"])) r) in
  default r (GET go:"/y" (Handler (fun _ _ => [AWrite go:"get y"])) r).

Definition two_routes : Router :=
  let r := NewRouter (disk []) in
  let r := default r (GET go:"/x" (Handler (fun _ _ => [AWrite go:"get x"])) r) in
  default r (POST go:"/x" (Handler (fun _ _ => [AWrite go:"post x"])) r).

Definition env_with (name value : string) : Sys :=
  {| files := ∅; environ := {[ go:name := go:value ]} |}.
Definition env_empty : Sys := {| files := ∅; environ := ∅ |}.

End Scenario.

(** does the compiled route accept [url], and with which captures *)
Definition route_match (str url : list ascii) : option (option (list (list ascii))) :=
  let '(rx, _) := parsePattern str in
  re ← MustCompile rx;
  Some (if MatchString re url
        then drop 1 <$> (FindAllStringSubmatch re url !! 0)
        else None).

(** [rt] answers [mthd url]: the test of the scan loops *)
Definition answers (mthd url : list ascii) (rt : route) : Prop :=
  method rt = mthd ∧ ∃ re, pattern rt = Some re ∧ MatchString re url = true.

(** the first route of a tier, in registration order, that answers *)
Definition first_answer (rs : list route) (mthd url : list ascii) (rt : route) : Prop :=
  ∃ i, rs !! i = Some rt ∧ answers mthd url rt ∧
       ∀ j rt', j < i → rs !! j = Some rt' → ¬ answers mthd url rt'.

Definition no_answer (rs : list route) (mthd url : list ascii) : Prop :=
  ∀ rt, rt ∈ rs → ¬ answers mthd url rt.

(** The selection as the specification words it: primary tier first, then the
    late tier, then the not-found fallback. *)
Definition selected (r : Router) (mthd url : list ascii) (rt : route) : Prop :=
  first_answer (routes r) mthd url rt
  ∨ (no_answer (routes r) mthd url ∧ first_answer (lateRoutes r) mthd url rt)
  ∨ (no_answer (routes r) mthd url ∧ no_answer (lateRoutes r) mthd url ∧ rt = route404 r).

(** every route of the two tiers carries a compiled pattern, as
    [createRoute] makes them *)
Definition compiled_tiers (r : Router) : Prop :=
  Forall (fun rt => is_Some (pattern rt)) (routes r) ∧
  Forall (fun rt => is_Some (pattern rt)) (lateRoutes r).

(** the key, the normalized url and the state [ServeHTTP] works with *)
Definition normalized (st : State) : list ascii := Path.Clean (URLPath (request st)).

Definition cacheKey (st : State) : list ascii := Method (request st) ++ go:" " ++ normalized st.

(** [ServeHTTP] up to its call of [callRoute]: the route it hands over, and
    whether it came from the request cache or from the scan. *)
Inductive resolution :=
| Cached (rt : route)
| Scanned (rt : route).

Definition resolved (x : resolution) : route :=
  match x with Cached rt | Scanned rt => rt end.

Definition resolve_scan (st : State) : option resolution :=
  found ← scan (routes (router st)) (Method (request st)) (normalized st);
  match found with
  | Some rt => Some (Scanned rt)
  | None =>
      found ← scan (lateRoutes (router st)) (Method (request st)) (normalized st);
      Some (Scanned (default (route404 (router st)) found))
  end.

Definition resolve (st : State) : option resolution :=
  match routeCache (router st) !! cacheKey st with
  | Some rt => if negb (noCache (router st)) then Some (Cached rt) else resolve_scan st
  | None => resolve_scan st
  end.

(** the state [callRoute] starts from *)
Definition entered (x : resolution) (st : State) : State :=
  match x with
  | Cached _ => set_URLPath (normalized st) st
  | Scanned rt => with_router (writeCache (cacheKey st) rt) (set_URLPath (normalized st) st)
  end.

(** What running a route may change: the route tables, the fallback routes
    and the cache switch stay; a request-cache entry stays or becomes the
    not-found route; and the request cache changes only if a 404 header has
    been sent. *)
Record step (st st' : State) : Prop := {
  step_routes : routes (router st') = routes (router st);
  step_late : lateRoutes (router st') = lateRoutes (router st);
  step_404 : route404 (router st') = route404 (router st);
  step_500 : route500 (router st') = route500 (router st);
  step_noCache : noCache (router st') = noCache (router st);
  step_cache : ∀ k, routeCache (router st') !! k = routeCache (router st) !! k
                    ∨ routeCache (router st') !! k = Some (route404 (router st));
  step_sent : ∃ evs, response st' = response st ++ evs ∧
                     (WriteHeader StatusNotFound ∈ evs
                      ∨ routeCache (router st') = routeCache (router st))
}.

Definition sent404 (st st' : State) : Prop :=
  ∃ evs, response st' = response st ++ evs ∧ WriteHeader StatusNotFound ∈ evs.

(** C6 as the specification states it: the second dispatch of the same
    request is a cache hit on the route the first dispatch resolved to. *)
Definition same_route_twice (sys : Sys) (fuel : nat) (st : State) : Prop :=
  noCache (router st) = false →
  ∀ x st1, resolve st = Some x → ServeHTTP sys fuel st = Some st1 →
    addr <$> (resolved <$> resolve {| router := router st1; request := request st; response := [] |})
      = Some (addr (resolved x)).

(** A byte of literal text in a pattern: an ASCII byte that is no pattern
    operator, or a dot.  (A dot matches any byte but a newline, itself
    included.) *)
Definition plain (c : ascii) : Prop :=
  is_ascii c = true ∧ (is_meta c = false ∨ c = "."%char).

(** the class a byte of literal text compiles to *)
Definition lit_cs (c : ascii) : charset :=
  if bool_decide (c = "."%char) then cs_dot else cs_lit c.

Definition lits (l : list ascii) : list regex := map (fun c => Chr (lit_cs c)) l.

(** the parser state after reading literal text *)
Definition after_lits (l : list ascii) (st : pstate) : pstate :=
  {| p_top := {| f_cap := f_cap (p_top st); f_alts := f_alts (p_top st);
                 f_cur := rev (lits l) ++ f_cur (p_top st) |};
     p_stack := p_stack st; p_ncap := p_ncap st;
     p_lastRepeat := false; p_cls := None |}.

Definition dir_tail : list regex :=
  [Quest true (Cat (Quest true (Chr (cs_lit "/")))
                   (Cat (Cap 1 (Cat (Plus true (Chr cs_dot)) Empty)) Empty));
   EndText].

(** the compiled pattern of [Dir prefix]: begin of text, the prefix, an
    optional group of an optional slash and the [path] capture, end of text *)
Definition dir_re (prefix : list ascii) : Regexp :=
  {| re_prog := Cat BeginText (mk_concat (lits prefix ++ dir_tail)); re_ncap := 1 |}.


(** A mount prefix: ordinary path text, that is ASCII bytes that are neither
    pattern operators (the dot apart) nor the placeholder sign. *)
Definition path_byte (c : ascii) : Prop := plain c ∧ c ≠ "@"%char.

(** the route [createRoute] builds for [Dir s] *)
Definition dir_route (s : list ascii) (cb : Callback) (mthd : list ascii) (a : nat) : route :=
  {| addr := a; pattern := Some (dir_re (stripSlash s)); callback := cb;
     params := [go:"path"]; method := mthd |}.

(** The declarative reading of a pattern: [matches n r s s'] says that [r]
    can take the input from [s] to [s'] in a text of [n] bytes. *)
Inductive matches (n : nat) : regex → list ascii → list ascii → Prop :=
| M_Empty s : matches n Empty s s
| M_Chr cs a s : cs_mem cs a = true → matches n (Chr cs) (a :: s) s
| M_Cat r1 r2 s s' s'' :
    matches n r1 s s' → matches n r2 s' s'' → matches n (Cat r1 r2) s s''
| M_AltL r1 r2 s s' : matches n r1 s s' → matches n (Alt r1 r2) s s'
| M_AltR r1 r2 s s' : matches n r2 s s' → matches n (Alt r1 r2) s s'
| M_Star0 g r s : matches n (Star g r) s s
| M_StarS g r s s' s'' :
    matches n r s s' → matches n (Star g r) s' s'' → matches n (Star g r) s s''
| M_Plus g r s s' s'' :
    matches n r s s' → matches n (Star g r) s' s'' → matches n (Plus g r) s s''
| M_Quest0 g r s : matches n (Quest g r) s s
| M_Quest1 g r s s' : matches n r s s' → matches n (Quest g r) s s'
| M_Cap i r s s' : matches n r s s' → matches n (Cap i r) s s'
| M_Begin s : length s = n → matches n BeginText s s
| M_End : matches n EndText [] [].

Definition is_upper (a : ascii) : Prop :=
  nat_of_ascii "A" ≤ nat_of_ascii a ≤ nat_of_ascii "Z".

(** an uppercase method, a space, and a path [/users/<one segment>] *)
Definition users_key (k : list ascii) : Prop :=
  ∃ mthd seg, k = mthd ++ go:" /users/" ++ seg ∧
              mthd ≠ [] ∧ Forall is_upper mthd ∧
              seg ≠ [] ∧ Forall (fun a => a ≠ "/"%char) seg.

Definition cs_upper : charset := {| cs_neg := false; cs_ranges := [("A", "Z")]%char |}.

Definition cs_nonslash : charset := {| cs_neg := true; cs_ranges := [("/", "/")]%char |}.

Definition users_re : Regexp :=
  {| re_prog :=
       Cat BeginText
         (Cat (Plus true (Chr cs_upper))
            (mk_concat (lits go:" /users/"
                        ++ [Cap 1 (Cat (Plus true (Chr cs_nonslash)) Empty); EndText])));
     re_ncap := 1 |}.

(** the compiled pattern of [ClearCache p] for literal path text [p] *)
Definition method_path_re (p : list ascii) : Regexp :=
  {| re_prog :=
       Cat BeginText
         (Cat (Plus true (Chr cs_upper)) (mk_concat (lits (" "%char :: p) ++ [EndText])));
     re_ncap := 0 |}.

(** what a successful run of a matcher with continuation [k] shows *)
Definition sound (n : nat) (r : regex) (mr : cont → cont) : Prop :=
  ∀ k s c res, mr k s c = Some res →
    ∃ s' c', matches n r s s' ∧ k s' c' = Some res.

(** ** Notions for the remaining properties *)

(** a route [RemoveRoute str] tests and passes over *)
Definition passes_over (str : list ascii) (rt : route) : Prop :=
  ∃ re, pattern rt = Some re ∧ MatchString re str = false.

(** does the pattern begin with the literal text [l] *)
Fixpoint starts_with (r : regex) (l : list ascii) : bool :=
  match l, r with
  | [], _ => true
  | a :: l', Cat (Chr cs) r' =>
      negb (cs_neg cs) && bool_decide (cs_ranges cs = [(a, a)]) && starts_with r' l'
  | _ :: _, _ => false
  end.

(** the opener of both directives *)
Definition comment_open : list ascii := go:"<!--".

Module Pages.

(** a page that is one include tag *)
Definition including (fn : string) : list ascii :=
  go:"<!-- include " ++ dquote :: go:fn ++ dquote :: go:" -->".

End Pages.

(** A byte of a literal route path: an ASCII byte that is neither a pattern
    operator (the dot included) nor the placeholder sign. *)
Definition literal_byte (c : ascii) : Prop :=
  is_ascii c = true ∧ is_meta c = false ∧ c ≠ "@"%char.

(** the compiled pattern of a literal path: begin of text, the path, end of text *)
Definition literal_re (q : list ascii) : Regexp :=
  {| re_prog := Cat BeginText (mk_concat (lits q ++ [EndText])); re_ncap := 0 |}.

(** [str] without its trailing slash *)
Definition trimSlash (str : list ascii) : list ascii :=
  if HasSuffix str go:"/" then dropLast str else str.

(** a request-cache key of the path [q]: an uppercase method, a space, [q] *)
Definition key_of (q k : list ascii) : Prop :=
  ∃ mthd, mthd ≠ [] ∧ Forall is_upper mthd ∧ k = mthd ++ go:" " ++ q.

(** an action that only reaches the writer: no fallback route, no markup *)
Definition quiet (a : Action) : bool :=
  match a with
  | AStatus _ | AWrite _ | ARedirect _ _ => true
  | ANotFound | AError _ | AHTML _ => false
  end.

(** what quiet actions send, in order *)
Definition events_of (acts : list Action) : list Event :=
  omap (fun a => match a with
                 | AStatus code => Some (WriteHeader code)
                 | AWrite s => Some (Write s)
                 | ARedirect url code => Some (Redirect url code)
                 | _ => None
                 end) acts.

(** the status code recorded after the actions: the last one set *)
Definition final_status (acts : list Action) (code : nat) : nat :=
  fold_left (fun code a => match a with AStatus c => c | _ => code end) acts code.

(** the request line [callRoute] logs *)
Definition logged (level code : nat) (mthd url : list ascii) : list LogEntry :=
  if (LOG_INFO <=? level) || (code =? StatusInternalServerError)
  then [LogRequest mthd url code] else [].

(** the compiled pattern of [/user/@id] *)
Definition user_re : Regexp :=
  {| re_prog :=
       Cat BeginText
         (mk_concat (lits go:"/user/"
                     ++ [Cap 1 (Cat (Plus true (Chr cs_nonslash)) Empty); EndText]));
     re_ncap := 1 |}.

(** a path [/user/<one segment>] *)
Definition user_path (url seg : list ascii) : Prop :=
  url = go:"/user/" ++ seg ∧ seg ≠ [] ∧ Forall (fun a => a ≠ "/"%char) seg.

Module Disk.

Import StaticFs.

(** a base file system with a directory [/docs] that has an index and a
    directory [/img] that has none *)
Definition base : FileSystem := fun name =>
  if eqb name go:"/docs" then inr {| f_name := name; f_Stat := inr true |}
  else if eqb name go:"/docs/index.html" then inr {| f_name := name; f_Stat := inr false |}
  else if eqb name go:"/img" then inr {| f_name := name; f_Stat := inr true |}
  else inl (PathError go:"open" name ENOENT).

End Disk.

(** ** The request cache during a dispatch *)

(** [st] with the request cache replaced by [c] *)
Definition with_cache (c : gmap (list ascii) route) (st : State) : State :=
  with_router (set_routeCache c) st.

(** What a run from [st] to [st'] does to the request cache, whatever the
    cache holds at the start: [run c] is the run started on the cache [c].
    It reads no entry and stores the same entries [W], each of them the
    not-found route. *)
Definition adds404 (st st' : State) (run : gmap (list ascii) route → option State) : Prop :=
  route404 (router st') = route404 (router st) ∧
  ∃ W : gmap (list ascii) route,
    map_Forall (fun _ rt => rt = route404 (router st)) W ∧
    ∀ c, run c = Some (with_cache (W ∪ c) st').

Definition cache_blind (f : State → option State) : Prop :=
  ∀ st st', f st = Some st' → adds404 st st' (fun c => f (with_cache c st)).

(** The first dispatch stored the request's own key while it ran its route.
    [callRoute] reads no cache entry, and inside it only [d.NotFound()]
    stores one, under the method and the cleaned path the request has at
    that moment: so the route, run on the cache without the entry of the
    key, leaves an entry under the key exactly when [d.NotFound()] was called
    while the request had the method and the cleaned path of the key. *)
Definition recached (sys : Sys) (fuel : nat) (x : resolution) (st : State) : Prop :=
  ∃ st',
    callRoute sys fuel (resolved x) (normalized st)
      (with_cache (delete (cacheKey st) (routeCache (router (entered x st)))) (entered x st))
    = Some st' ∧
    is_Some (routeCache (router st') !! cacheKey st).

(** ** The claims about mounted directories, as stated *)

Module Sites.

(** a directory mounted at [/assets] *)
Definition assets (sys : Sys) : Router :=
  default (NewRouter sys) (GET (Dir go:"/assets") (StaticDir go:"./static") (NewRouter sys)).

(** a handler that answers 404 by itself *)
Definition gone (sys : Sys) : Router :=
  default (NewRouter sys)
    (GET go:"/gone" (Handler (fun _ _ => [AStatus StatusNotFound; AWrite go:"gone"]))
       (NewRouter sys)).

End Sites.



(** * Properties *)

(** the three pattern literals of the source compile to the trees used above *)
Lemma placeholder_compiles : Compile placeholder_src = inr placeholder_re.
Proof. vm_compute. reflexivity. Qed.

Lemma include_compiles : Compile include_src = inr include_re.
Proof. vm_compute. reflexivity. Qed.

Lemma conditional_compiles : Compile conditional_src = inr conditional_re.
Proof. vm_compute. reflexivity. Qed.

(** ** Route compilation on the examples of the specification *)

Lemma parsePattern_examples :
  parsePattern go:"/" = (go:"^/$", []) ∧
  parsePattern go:"/test/@foo/@bar/" = (go:"^/test/([^/]+)/([^/]+)$", [go:"foo"; go:"bar"]) ∧
  parsePattern go:"/files/@@path" = (go:"^/files/(.+)$", [go:"path"]) ∧
  parsePattern go:"/user/@id" = (go:"^/user/([^/]+)$", [go:"id"]).
Proof. vm_compute. auto. Qed.

Lemma route_match_examples :
  route_match go:"/files/@@path" go:"/files/a/b/c" = Some (Some [go:"a/b/c"]) ∧
  route_match go:"/user/@id" go:"/user/42" = Some (Some [go:"42"]) ∧
  route_match go:"/user/@id" go:"/user/42/extra" = Some None ∧
  route_match go:"/user/@id" go:"/prefix/user/42" = Some None.
Proof. vm_compute. auto. Qed.

(** C4 (the code departs from the claim).  A route whose first placeholder
    name is a prefix of a later one is compiled wrongly: replacing the text
    ["@@user"] hits the later placeholder [@@userpath], so the wildcard keeps
    a literal tail [path] and the route no longer accepts the urls it
    stands for. *)
Theorem C4_placeholder_name_prefix :
  parsePattern go:"/@user/@@userpath"
    = (go:"^/([^/]+)/(.+)path$", [go:"user"; go:"userpath"]) ∧
  route_match go:"/@user/@@userpath" go:"/ann/docs/a" = Some None ∧
  route_match go:"/@user/@@rest" go:"/ann/docs/a" = Some (Some [go:"ann"; go:"docs/a"]).
Proof. vm_compute. auto. Qed.

(** ** Cache invalidation *)

(** C1 (the code departs from the claim).  A page is served and cached, the
    file changes, the page is invalidated by its path: the document cache
    still holds the old text and the next request returns it.  The pattern
    [ClearCache] builds starts with the method part of a request-cache key,
    which no document-cache key has.  After [EmptyCache] the page is
    processed again. *)
Theorem C1_document_cache_not_invalidated :
  let old := Scenario.disk go:"<p>old</p>" in
  let new := Scenario.disk go:"<p>new</p>" in
  let req := Scenario.request_of "GET" "/page.html" in
  ∃ st1 r,
    ServeHTTP old 3 (req (Scenario.site old)) = Some st1 ∧
    htmlCache (router st1) !! go:"/page.html" = Some go:"<p>old</p>" ∧
    ClearCache go:"/page.html" (router st1) = Some r ∧
    routeCache r !! go:"GET /page.html" = None ∧
    htmlCache r !! go:"/page.html" = Some go:"<p>old</p>" ∧
    response <$> ServeHTTP new 3 (req r) = Some [Write go:"<p>old</p>"] ∧
    response <$> ServeHTTP new 3 (req (EmptyCache (router st1))) = Some [Write go:"<p>new</p>"].
Proof.
  eexists _, _.
  split; [vm_compute; reflexivity |].
  split; [vm_compute; reflexivity |].
  split; [vm_compute; reflexivity |].
  vm_compute. auto.
Qed.

(** ** Errors of the preprocessor *)

(** C2 (the code departs from the claim).  The include names a file that does
    not exist.  [os.ReadFile] reports it with an error that is
    [fs.ErrNotExist], but [parseHTML] formats it into a new message, the
    test in [serveHTML] fails, and the request ends in the server-error
    route. *)
Theorem C2_missing_include_is_server_error :
  let sys := Scenario.disk Scenario.page_missing_include in
  (∃ err, readHTMLFile sys go:"static/missing.html" = inl err ∧ Is err ErrNotExist = true) ∧
  (∃ err, parseHTML sys 2 Scenario.page_missing_include go:"./static" = Some (inl err) ∧
          Is err ErrNotExist = false) ∧
  response <$> ServeHTTP sys 3 (Scenario.request_of "GET" "/page.html" (Scenario.site sys))
    = Some [WriteHeader StatusInternalServerError; Write go:"500 internal server error"].
Proof.
  split; [eexists; split; vm_compute; reflexivity |].
  split; [eexists; split; vm_compute; reflexivity |].
  vm_compute. reflexivity.
Qed.

(** Every error [parseHTML] returns is a freshly formatted message, whatever
    the cause was: the not-found branch of [serveHTML] is never taken. *)
Lemma include_loop_error sys parse parentDir :
  (∀ body dir err, parse body dir = Some (inl err) → Is err ErrNotExist = false) →
  ∀ includes str err,
    include_loop sys parse parentDir includes str = Some (inl err) →
    Is err ErrNotExist = false.
Proof.
  intros Hparse. induction includes as [| mt rest IH]; intros str err; cbn [include_loop].
  - discriminate.
  - destruct (readHTMLFile sys _) as [e | body]; [intros [= <-]; reflexivity |].
    destruct (parse body _) as [[e | contents] |] eqn:Hp; [| | discriminate].
    + intros [= <-]. eapply Hparse, Hp.
    + apply IH.
Qed.

Lemma parseHTML_error sys fuel : ∀ str dir err,
  parseHTML sys fuel str dir = Some (inl err) → Is err ErrNotExist = false.
Proof.
  induction fuel as [| f IH]; intros str dir err; cbn [parseHTML]; [discriminate |].
  destruct (include_loop sys (parseHTML sys f) dir _ str) as [[e | str'] |] eqn:Hl;
    [| discriminate ..].
  intros [= <-]. eapply include_loop_error; [exact IH | exact Hl].
Qed.

Lemma parse_error_is_server_error sys call fuel static text dir st err :
  parseHTML sys fuel text dir = Some (inl err) →
  parseAndServe sys call fuel static text dir st = Error call err st.
Proof.
  intros H. unfold parseAndServe. rewrite H, (parseHTML_error _ _ _ _ _ H). reflexivity.
Qed.

(** ** Removing routes *)

(** C3 (the code departs from the claim).  With GET /x, POST /x, GET /y
    registered in this order, removing [/x] drops the first route, moves the
    others one slot to the left and goes on with the next slot: POST /x is
    never tested and stays.  With only the two routes on [/x], the second
    round finds the moved route in both slots and slices past the end. *)
Theorem C3_adjacent_match_survives :
  map addr (routes Scenario.three_routes) = [2; 3; 4] ∧
  (∃ r, RemoveRoute go:"/x" Scenario.three_routes = Some r ∧
        map (fun rt => (addr rt, method rt)) (routes r) = [(3, go:"POST"); (4, go:"GET")] ∧
        addr <$> default None (scan (routes r) go:"POST" go:"/x") = Some 3) ∧
  RemoveRoute go:"/x" Scenario.two_routes = None.
Proof.
  split; [vm_compute; reflexivity |].
  split; [| vm_compute; reflexivity].
  eexists. split; [vm_compute; reflexivity |].
  vm_compute. auto.
Qed.

(** The slip in general: whenever a route is removed, the route registered
    right after it is never tested and stays in the primary tier, whether it
    matches or not. *)
Lemma ClearCache_routes str r r' : ClearCache str r = Some r' → routes r' = routes r.
Proof.
  unfold ClearCache. destruct (parsePattern _) as [rx ps].
  destruct (MustCompile rx); [| discriminate]. intros [= <-]. reflexivity.
Qed.

Lemma RemoveRoute_loop_S str todo i arr r :
  RemoveRoute_loop str (S todo) i arr r =
  rt ← arr !! i;
  re ← pattern rt;
  if MatchString re str then
    let len := length (routes r) in
    if len <? i + 1 then None
    else
      let arr' := take i arr ++ drop (i + 1) (take len arr) ++ drop (len - 1) arr in
      router ← ClearCache str (set_routes (take (len - 1) arr') r);
      RemoveRoute_loop str todo (S i) arr' router
  else RemoveRoute_loop str todo (S i) arr r.
Proof. reflexivity. Qed.

Lemma RemoveRoute_loop_keeps str i b : ∀ todo j arr r r',
  i < j → arr !! i = Some b →
  i < length (routes r) → routes r = take (length (routes r)) arr →
  RemoveRoute_loop str todo j arr r = Some r' →
  routes r' !! i = Some b.
Proof.
  induction todo as [| todo IH]; intros j arr r r' Hij Hb Hlen Hview; cbn [RemoveRoute_loop].
  - intros [= <-]. rewrite Hview, lookup_take_lt by exact Hlen. exact Hb.
  - destruct (arr !! j) as [rt |]; [| discriminate]. cbn [mbind option_bind].
    destruct (pattern rt) as [re |]; [| discriminate]. cbn [mbind option_bind].
    destruct (MatchString re str); [| apply IH; (assumption || lia)].
    destruct (Nat.ltb_spec (length (routes r)) (j + 1)) as [? | Hj]; [discriminate |].
    set (len := length (routes r)) in *.
    set (arr' := take j arr ++ drop (j + 1) (take len arr) ++ drop (len - 1) arr).
    destruct (ClearCache str (set_routes (take (len - 1) arr') r)) as [r1 |] eqn:Hclear;
      [| discriminate].
    cbn [mbind option_bind].
    apply ClearCache_routes in Hclear. cbn [routes set_routes] in Hclear.
    assert (Harr : len ≤ length arr).
    { pose proof (f_equal length Hview) as Hl. rewrite length_take in Hl. fold len in Hl. lia. }
    assert (Hlen' : length arr' = length arr).
    { subst arr'. rewrite !length_app, !length_drop, !length_take. lia. }
    assert (Hr1 : length (routes r1) = len - 1).
    { rewrite Hclear, length_take. lia. }
    apply IH.
    + lia.
    + subst arr'. rewrite lookup_app_l by (rewrite length_take; lia).
      rewrite lookup_take_lt by lia. exact Hb.
    + lia.
    + rewrite Hr1. exact Hclear.
Qed.

Lemma RemoveRoute_loop_skip str rest r r' : ∀ pre front todo,
  Forall (fun rt => ∀ re, pattern rt = Some re → MatchString re str = false) pre →
  RemoveRoute_loop str (length pre + todo) (length front) (front ++ pre ++ rest) r = Some r' →
  RemoveRoute_loop str todo (length front + length pre) (front ++ pre ++ rest) r = Some r'.
Proof.
  induction pre as [| x pre IH]; intros front todo Hpre.
  - cbn. rewrite Nat.add_0_r. auto.
  - apply Forall_cons in Hpre as [Hx Hpre].
    cbn [length Nat.add app]. rewrite RemoveRoute_loop_S.
    rewrite (list_lookup_middle front (pre ++ rest) x (length front) eq_refl).
    cbn [mbind option_bind].
    destruct (pattern x) as [re |]; [| discriminate]. cbn [mbind option_bind].
    rewrite (Hx re eq_refl).
    replace (S (length front)) with (length (front ++ [x])) by (rewrite length_app; cbn; lia).
    change (front ++ x :: pre ++ rest) with (front ++ [x] ++ pre ++ rest).
    rewrite (app_assoc front [x]).
    intros H. apply IH in H; [| exact Hpre].
    rewrite length_app in H. cbn [length] in H.
    replace (length front + S (length pre)) with (length front + 1 + length pre) by lia.
    exact H.
Qed.

(** X11.  Whenever [RemoveRoute] removes the first route that matches, the
    route registered right after it is not tested: it is still in the primary
    tier, in the place of the removed one, when [RemoveRoute] returns,
    whether it matches the path or not. *)
Lemma RemoveRoute_skips_next str r r' pre a b post re :
  routes r = pre ++ a :: b :: post →
  Forall (fun rt => ∀ re', pattern rt = Some re' → MatchString re' str = false) pre →
  pattern a = Some re → MatchString re str = true →
  RemoveRoute str r = Some r' →
  routes r' !! length pre = Some b.
Proof.
  intros Hroutes Hpre Ha Hmatch. unfold RemoveRoute. rewrite Hroutes.
  replace (length (pre ++ a :: b :: post)) with (length pre + S (S (length post)))
    by (rewrite length_app; cbn; lia).
  intros H. apply (RemoveRoute_loop_skip str (a :: b :: post) r r' pre [] _ Hpre) in H.
  cbn [length Nat.add app] in H. rewrite RemoveRoute_loop_S in H.
  rewrite (list_lookup_middle pre (b :: post) a (length pre) eq_refl) in H.
  cbn [mbind option_bind] in H. rewrite Ha in H.
  cbn [mbind option_bind] in H. rewrite Hmatch, Hroutes in H.
  destruct (Nat.ltb_spec (length (pre ++ a :: b :: post)) (length pre + 1)) as [Hlt | _].
  { rewrite length_app in Hlt. cbn in Hlt. lia. }
  set (arr := pre ++ a :: b :: post) in *.
  set (arr' := take (length pre) arr ++ drop (length pre + 1) (take (length arr) arr)
               ++ drop (length arr - 1) arr) in *.
  destruct (ClearCache str (set_routes (take (length arr - 1) arr') r)) as [r1 |] eqn:Hclear;
    [| discriminate].
  cbn [mbind option_bind] in H.
  apply ClearCache_routes in Hclear. cbn [routes set_routes] in Hclear.
  assert (Hlen : length arr = length pre + S (S (length post))).
  { subst arr. rewrite length_app. reflexivity. }
  assert (Hlen' : length arr' = length arr).
  { subst arr'. rewrite !length_app, !length_drop, !length_take. lia. }
  assert (Hr1 : length (routes r1) = length arr - 1).
  { rewrite Hclear, length_take. lia. }
  apply (RemoveRoute_loop_keeps str (length pre) b (S (length post)) (S (length pre))
           arr' r1 r'); try exact H.
  - lia.
  - subst arr'. rewrite lookup_app_r by (rewrite length_take; lia).
    rewrite length_take, Nat.min_l, Nat.sub_diag by lia.
    rewrite take_ge by lia. subst arr.
    rewrite (drop_app_add pre (a :: b :: post) 1). reflexivity.
  - lia.
  - rewrite Hr1. exact Hclear.
Qed.

(** ** The conditional directive *)

(** C8 (the code departs from the claim).  The text kept by a conditional is
    the greedy capture [(.+)], which takes the blank before the closing brace
    with it: the kept text is "Y " and "X ", not "Y" and "X".  The removed
    cases are as claimed. *)
Theorem C8_conditional_keeps_trailing_blank :
  let unset := Scenario.env_empty in
  let empty := Scenario.env_with "DEV" EmptyString in
  let set := Scenario.env_with "DEV" "1" in
  parseHTML unset 1 go:"<!-- if $DEV { X } -->" go:"/" = Some (inr []) ∧
  parseHTML unset 1 go:"<!-- if !$DEV { Y } -->" go:"/" = Some (inr go:"Y ") ∧
  parseHTML empty 1 go:"<!-- if !$DEV { Y } -->" go:"/" = Some (inr go:"Y ") ∧
  parseHTML set 1 go:"<!-- if $DEV { X } -->" go:"/" = Some (inr go:"X ") ∧
  parseHTML set 1 go:"<!-- if !$DEV { Y } -->" go:"/" = Some (inr []).
Proof. vm_compute. auto 10. Qed.

(** ** Dispatch *)

Section Dispatch.

Variable sys : Sys.

Lemma NewRouter_compiled : compiled_tiers (NewRouter sys).
Proof. split; constructor. Qed.

Lemma createRoute_compiled str cb mthd late r r' :
  compiled_tiers r → createRoute str cb mthd late r = Some r' → compiled_tiers r'.
Proof.
  intros [Hp Hl]. unfold createRoute.
  destruct (parsePattern str) as [rx ps].
  destruct (MustCompile rx) as [re|] eqn:Hre; [| discriminate].
  destruct (LOG_DEBUG <=? logLevel r); destruct late; intros [= <-]; cbn;
    split; try assumption;
    apply Forall_app; (split; [assumption |]); repeat constructor; cbn; eauto.
Qed.

Lemma answers_dec mthd url rt :
  is_Some (pattern rt) →
  (if eqb (method rt) mthd
   then match pattern rt with
        | Some re => MatchString re url
        | None => false
        end
   else false) = true ↔ answers mthd url rt.
Proof.
  intros [re Hre]. unfold answers, eqb. rewrite Hre.
  case_bool_decide as Hm; split.
  - intros H. eauto.
  - intros (_ & re' & [= <-] & H). exact H.
  - discriminate.
  - intros [? _]. contradiction.
Qed.

(** the scan loop returns at the first route that answers *)
Lemma scan_first rs mthd url :
  Forall (fun rt => is_Some (pattern rt)) rs →
  (∃ rt, scan rs mthd url = Some (Some rt) ∧ first_answer rs mthd url rt)
  ∨ (scan rs mthd url = Some None ∧ no_answer rs mthd url).
Proof.
  induction 1 as [| rt rs Hrt Hrs IH]; simpl.
  - right. split; [reflexivity |]. intros rt Hin. inversion Hin.
  - pose proof (answers_dec mthd url rt Hrt) as Hdec.
    destruct Hrt as [re Hre]. rewrite Hre in *. simpl.
    destruct (eqb (method rt) mthd) eqn:Hm; [destruct (MatchString re url) eqn:Hms |].
    + left. exists rt. split; [reflexivity |].
      exists 0. split; [reflexivity |]. split; [apply Hdec; reflexivity |].
      intros j rt' Hj. lia.
    + destruct IH as [(rt' & Hs & i & Hi & Hok & Hbefore) | [Hs Hno]].
      * left. exists rt'. split; [exact Hs |].
        exists (S i). split; [exact Hi |]. split; [exact Hok |].
        intros [| j] r0 Hj Hr0; simpl in Hr0.
        -- injection Hr0 as <-. intros Ha. apply Hdec in Ha. discriminate.
        -- apply (Hbefore j); [lia | exact Hr0].
      * right. split; [exact Hs |].
        intros r0 Hin. apply elem_of_cons in Hin as [-> | Hin].
        -- intros Ha. apply Hdec in Ha. discriminate.
        -- apply Hno, Hin.
    + destruct IH as [(rt' & Hs & i & Hi & Hok & Hbefore) | [Hs Hno]].
      * left. exists rt'. split; [exact Hs |].
        exists (S i). split; [exact Hi |]. split; [exact Hok |].
        intros [| j] r0 Hj Hr0; simpl in Hr0.
        -- injection Hr0 as <-. intros Ha. apply Hdec in Ha. discriminate.
        -- apply (Hbefore j); [lia | exact Hr0].
      * right. split; [exact Hs |].
        intros r0 Hin. apply elem_of_cons in Hin as [-> | Hin].
        -- intros Ha. apply Hdec in Ha. discriminate.
        -- apply Hno, Hin.
Qed.

Lemma ServeHTTP_eq fuel st :
  ServeHTTP sys fuel st =
  match routeCache (router st) !! cacheKey st with
  | Some rt =>
      if negb (noCache (router st))
      then callRoute sys fuel rt (normalized st) (set_URLPath (normalized st) st)
      else ServeHTTP_scan sys fuel (cacheKey st) (normalized st) (set_URLPath (normalized st) st)
  | None => ServeHTTP_scan sys fuel (cacheKey st) (normalized st) (set_URLPath (normalized st) st)
  end.
Proof. reflexivity. Qed.

(** C5.  On a cache miss, or with caching disabled, [ServeHTTP] caches and
    calls the route the specification selects: the first route of the
    primary tier, in registration order, with the request's method and a
    pattern matching the normalized path; failing that the first such route
    of the late tier; failing that the not-found route. *)
Theorem C5_uncached_dispatch_selects (st : State) :
  compiled_tiers (router st) →
  routeCache (router st) !! cacheKey st = None ∨ noCache (router st) = true →
  ∃ rt, selected (router st) (Method (request st)) (normalized st) rt ∧
        ∀ fuel, ServeHTTP sys fuel st
                = callRoute sys fuel rt (normalized st)
                    (with_router (writeCache (cacheKey st) rt) (set_URLPath (normalized st) st)).
Proof.
  intros [Hp Hl] Hmiss.
  assert (Hscan : ∀ fuel, ServeHTTP sys fuel st
            = ServeHTTP_scan sys fuel (cacheKey st) (normalized st) (set_URLPath (normalized st) st)).
  { intros fuel. rewrite ServeHTTP_eq.
    destruct Hmiss as [-> | ->]; [reflexivity |].
    simpl. destruct (routeCache (router st) !! cacheKey st); reflexivity. }
  destruct (scan_first (routes (router st)) (Method (request st)) (normalized st) Hp)
    as [(rt & Hs & Hfirst) | [Hs Hno]].
  - exists rt. split; [left; exact Hfirst |].
    intros fuel. rewrite Hscan. unfold ServeHTTP_scan. simpl. rewrite Hs. reflexivity.
  - destruct (scan_first (lateRoutes (router st)) (Method (request st)) (normalized st) Hl)
      as [(rt & Hs' & Hfirst) | [Hs' Hno']].
    + exists rt. split; [right; left; split; assumption |].
      intros fuel. rewrite Hscan. unfold ServeHTTP_scan. simpl. rewrite Hs. simpl.
      rewrite Hs'. reflexivity.
    + exists (route404 (router st)). split; [right; right; auto |].
      intros fuel. rewrite Hscan. unfold ServeHTTP_scan. simpl. rewrite Hs. simpl.
      rewrite Hs'. reflexivity.
Qed.

End Dispatch.

(** ** What a dispatch leaves behind *)

Lemma ServeHTTP_resolve sys fuel st :
  ServeHTTP sys fuel st =
  x ← resolve st; callRoute sys fuel (resolved x) (normalized st) (entered x st).
Proof.
  rewrite ServeHTTP_eq. unfold resolve.
  assert (Hscan : ServeHTTP_scan sys fuel (cacheKey st) (normalized st)
                    (set_URLPath (normalized st) st)
                  = x ← resolve_scan st;
                    callRoute sys fuel (resolved x) (normalized st) (entered x st)).
  { unfold ServeHTTP_scan, resolve_scan. cbn.
    destruct (scan (routes (router st)) _ _) as [[rt|]|]; cbn; try reflexivity.
    destruct (scan (lateRoutes (router st)) _ _) as [[rt|]|]; reflexivity. }
  destruct (routeCache (router st) !! cacheKey st) as [rt|]; [| exact Hscan].
  destruct (noCache (router st)); [exact Hscan | reflexivity].
Qed.

Lemma step_refl st : step st st.
Proof.
  split; try reflexivity; [left; reflexivity |].
  exists []. rewrite app_nil_r. auto.
Qed.

Lemma step_trans a b c : step a b → step b c → step a c.
Proof.
  intros [Hr Hl H4 H5 Hn Hc (e1 & He1 & Hs1)] [Hr' Hl' H4' H5' Hn' Hc' (e2 & He2 & Hs2)].
  split; try congruence.
  - intros k. destruct (Hc' k) as [-> | ->]; [apply Hc | right; congruence].
  - exists (e1 ++ e2). split; [rewrite He2, He1, app_assoc; reflexivity |].
    destruct Hs1 as [Hs1 | Hs1]; [left; apply elem_of_app; auto |].
    destruct Hs2 as [Hs2 | Hs2]; [left; apply elem_of_app; auto |].
    right. congruence.
Qed.

Lemma sent404_step a b c : sent404 a b → step b c → sent404 a c.
Proof.
  intros (e1 & He1 & Hin) [_ _ _ _ _ _ (e2 & He2 & _)].
  exists (e1 ++ e2). split; [rewrite He2, He1, app_assoc; reflexivity |].
  apply elem_of_app; auto.
Qed.

Lemma step_emit e st : step st (emit e st).
Proof.
  split; try reflexivity; [left; reflexivity |].
  exists [e]. auto.
Qed.

Lemma step_set_URLPath p st : step st (set_URLPath p st).
Proof.
  split; try reflexivity; [left; reflexivity |].
  exists []. rewrite app_nil_r. auto.
Qed.

Lemma step_println e st : step st (with_router (println e) st).
Proof.
  split; try reflexivity; [left; reflexivity |].
  exists []. rewrite app_nil_r. auto.
Qed.

Lemma step_htmlCache f st :
  step st (with_router (fun r => set_htmlCache (f r) r) st).
Proof.
  split; try reflexivity; [left; reflexivity |].
  exists []. rewrite app_nil_r. auto.
Qed.

Section NestedSteps.

Variable sys : Sys.
Variable call : route → list ascii → State → option State.
Hypothesis Hcall : ∀ rt url st st',
  call rt url st = Some st' →
  step st st' ∧ (addr rt = addr (route404 (router st)) → sent404 st st').

Lemma NotFound_step st st' : NotFound call st = Some st' → step st st'.
Proof.
  unfold NotFound. intros H. apply Hcall in H as [Hstep Hsent].
  specialize (Hsent eq_refl).
  destruct Hstep as [Hr Hl H4 H5 Hn Hc _]. cbn in *.
  destruct Hsent as (evs & Hevs & Hin). cbn in Hevs.
  split; try assumption.
  - intros k. destruct (Hc k) as [-> | ->]; [| right; reflexivity].
    destruct (decide (Method (request st) ++ go:" " ++ Path.Clean (URLPath (request st)) = k))
      as [<- | Hne].
    + right. apply lookup_insert_eq.
    + left. apply lookup_insert_ne. exact Hne.
  - exists evs. auto.
Qed.

Lemma Error_step err st st' : Error call err st = Some st' → step st st'.
Proof.
  unfold Error. intros H. apply Hcall in H as [Hstep _].
  eapply step_trans; [apply (step_println (LogError err)) | exact Hstep].
Qed.

Lemma parseAndServe_step fuel static text dir st st' :
  parseAndServe sys call fuel static text dir st = Some st' → step st st'.
Proof.
  unfold parseAndServe.
  destruct (parseHTML sys fuel text dir) as [[err | str] |]; [| | discriminate].
  - destruct (Is err ErrNotExist); [apply NotFound_step | apply Error_step].
  - intros [= <-]. destruct static.
    + eapply step_trans; [apply step_emit |].
      apply (step_htmlCache (fun r => <[URLPath (request st) := str]> (htmlCache r))).
    + apply step_emit.
Qed.

Lemma serveHTML_step fuel static text dir st st' :
  serveHTML sys call fuel static text dir st = Some st' → step st st'.
Proof.
  unfold serveHTML.
  destruct (if static then _ else _) as [html |]; [| apply parseAndServe_step].
  destruct (negb _); [| apply parseAndServe_step].
  intros [= <-]. apply step_emit.
Qed.

Lemma serveHTMLStatic_step fuel dir fn st st' :
  serveHTMLStatic sys call fuel dir fn st = Some st' → step st st'.
Proof.
  unfold serveHTMLStatic. destruct (readHTMLFile _ _); [apply Error_step | apply serveHTML_step].
Qed.

Lemma StaticDir_serve_step fuel dir st st' :
  StaticDir_serve sys call fuel dir st = Some st' → step st st'.
Proof.
  unfold StaticDir_serve. cbv zeta.
  match goal with |- context [HasSuffix (URLPath (request ?x)) _] => set (st1 := x) end.
  assert (H1 : step st st1).
  { subst st1. destruct (_ && _); [| apply step_refl].
    destruct (Stat _ _); [apply step_refl | apply step_set_URLPath]. }
  clearbody st1. intros H. eapply step_trans; [exact H1 |].
  destruct (_ && _).
  - eapply serveHTMLStatic_step, H.
  - destruct (Stat _ _); [eapply NotFound_step, H |].
    injection H as <-. apply step_emit.
Qed.

Lemma StaticDir_body_step fuel dir d st st' :
  StaticDir_body sys call fuel dir d st = Some st' → step st st'.
Proof.
  unfold StaticDir_body. intros H. apply StaticDir_serve_step in H.
  eapply step_trans; [| exact H].
  destruct (d_Params d !! _); [apply step_set_URLPath | apply step_refl].
Qed.

Lemma StaticFile_body_step fuel fn st st' :
  StaticFile_body sys call fuel fn st = Some st' → step st st'.
Proof.
  unfold StaticFile_body. destruct (_ && _).
  - intros H. apply serveHTMLStatic_step in H.
    eapply step_trans; [apply step_set_URLPath | exact H].
  - destruct (Stat _ _); [apply Error_step |].
    intros [= <-]. apply step_emit.
Qed.

Lemma runActions_step acts : ∀ d st d' st',
  runActions call acts d st = Some (d', st') → step st st'.
Proof.
  induction acts as [| a acts IH]; intros d st d' st'; simpl.
  - intros [= _ <-]. apply step_refl.
  - destruct a; simpl.
    + intros H. apply IH in H. eapply step_trans; [apply step_emit | exact H].
    + intros H. apply IH in H. eapply step_trans; [apply step_emit | exact H].
    + intros H. apply IH in H. eapply step_trans; [apply step_emit | exact H].
    + destruct (NotFound call st) as [st1 |] eqn:H1; simpl; [| discriminate].
      intros H. apply IH in H. eapply step_trans; [eapply NotFound_step, H1 | exact H].
    + destruct (Error call err st) as [st1 |] eqn:H1; simpl; [| discriminate].
      intros H. apply IH in H. eapply step_trans; [eapply Error_step, H1 | exact H].
    + apply IH.
Qed.

Lemma runCallback_step fuel cb d st d' st' :
  runCallback sys call fuel cb d st = Some (d', st') → step st st'.
Proof.
  destruct cb; simpl.
  - apply runActions_step.
  - destruct (StaticDir_body _ _ _ _ _ _) eqn:H; simpl; [| discriminate].
    intros [= _ <-]. eapply StaticDir_body_step, H.
  - destruct (StaticFile_body _ _ _ _ _) eqn:H; simpl; [| discriminate].
    intros [= _ <-]. eapply StaticFile_body_step, H.
Qed.

End NestedSteps.

Lemma callRoute_step sys fuel : ∀ rt url st st',
  callRoute sys fuel rt url st = Some st' →
  step st st' ∧ (addr rt = addr (route404 (router st)) → sent404 st st').
Proof.
  induction fuel as [| f IH]; intros rt url st st'; [discriminate |].
  cbn [callRoute].
  destruct (routeParams rt url) as [p |]; simpl; [| discriminate].
  set (data := {| d_Params := p; status := StatusOK; HTML := [] |}).
  match goal with |- context [let '(_, _) := ?x in _] => set (start := x) end.
  assert (Hstart : step st start.2 ∧ (addr rt = addr (route404 (router st)) → sent404 st start.2)).
  { subst start. destruct (Nat.eqb_spec (addr rt) (addr (route404 (router st)))) as [He | Hne].
    - split; [apply step_emit |]. intros _. exists [WriteHeader StatusNotFound].
      split; [reflexivity | constructor].
    - split; [| contradiction].
      destruct (addr rt =? _); [apply step_emit | apply step_refl]. }
  clearbody start. destruct start as [d0 st0]. cbn in Hstart.
  destruct (runCallback sys (callRoute sys f) f (callback rt) d0 st0) as [[d1 st1] |] eqn:Hcb;
    simpl; [| discriminate].
  apply (runCallback_step sys (callRoute sys f) IH) in Hcb.
  match goal with |- context [if negb (eqb (HTML d1) []) then ?a else ?b] =>
    destruct (if negb (eqb (HTML d1) []) then a else b) as [st2 |] eqn:Hserved
  end; simpl; [| discriminate].
  assert (H12 : step st1 st2).
  { destruct (negb _).
    - eapply (serveHTML_step sys (callRoute sys f) IH), Hserved.
    - injection Hserved as <-. apply step_refl. }
  intros [= <-].
  assert (Hlast : step st2 (if (LOG_INFO <=? logLevel (router st2)) || (status d1 =? StatusInternalServerError)
                            then with_router (println (LogRequest (Method (request st2)) url (status d1))) st2
                            else st2)).
  { destruct (_ || _); [apply step_println | apply step_refl]. }
  destruct Hstart as [H0 H0'].
  pose proof (step_trans _ _ _ Hcb (step_trans _ _ _ H12 Hlast)) as Hrest.
  split; [eapply step_trans; eassumption |].
  intros He. eapply sent404_step; [apply H0', He | exact Hrest].
Qed.

(** ** The request cache is write-only while a route runs

    [callRoute] and everything below it never look an entry up; the one
    writer is [d.NotFound()].  Run on any request cache, a route does the
    same and stores the same entries. *)

Lemma with_cache_self (st : State) : with_cache (routeCache (router st)) st = st.
Proof. destruct st as [[] ? ?]. reflexivity. Qed.

Lemma adds404_cache (st st' : State) run :
  adds404 st st' run → run (routeCache (router st)) = Some st' →
  ∃ W, map_Forall (fun _ rt => rt = route404 (router st)) W ∧
       routeCache (router st') = W ∪ routeCache (router st) ∧
       ∀ c, run c = Some (with_cache (W ∪ c) st').
Proof.
  intros (_ & W & HW & Hrun) H. rewrite Hrun in H. injection H as H.
  exists W. split; [exact HW |]. split; [| exact Hrun].
  rewrite <- H at 1. reflexivity.
Qed.

(** a step that leaves the request cache alone *)
Lemma adds404_pure (st st' : State) (run : gmap (list ascii) route → option State) :
  route404 (router st') = route404 (router st) →
  (∀ c, run c = Some (with_cache c st')) →
  adds404 st st' run.
Proof.
  intros H4 Hrun. split; [exact H4 |]. exists ∅.
  split; [apply map_Forall_empty |]. intros c. rewrite (left_id_L ∅ (∪)). apply Hrun.
Qed.

(** two runs in a row *)
Lemma adds404_seq (a b c0 : State) run1 run2 run :
  adds404 a b run1 → adds404 b c0 run2 →
  (∀ c W, run1 c = Some (with_cache (W ∪ c) b) → run c = run2 (W ∪ c)) →
  adds404 a c0 run.
Proof.
  intros (H4 & W1 & HW1 & Hrun1) (H4' & W2 & HW2 & Hrun2) Hrun.
  split; [congruence |]. exists (W2 ∪ W1). split.
  - apply map_Forall_union_2; [| exact HW1].
    eapply map_Forall_impl; [exact HW2 |]. cbn. intros _ rt ->. exact H4.
  - intros c. rewrite (Hrun c W1 (Hrun1 c)), Hrun2, (assoc_L (∪)). reflexivity.
Qed.

Section NestedBlind.

Variable sys : Sys.
Variable call : route → list ascii → State → option State.
Hypothesis Hcall : ∀ rt url, cache_blind (call rt url).

Lemma NotFound_blind : cache_blind (NotFound call).
Proof.
  intros st st' H. unfold NotFound in H.
  apply Hcall in H as (H4 & W & HW & Hrun). cbn in H4, HW.
  split; [exact H4 |].
  set (key := Method (request st) ++ go:" " ++ Path.Clean (URLPath (request st))) in *.
  exists (W ∪ {[ key := route404 (router st) ]}). split.
  - apply map_Forall_union_2; [exact HW |]. apply map_Forall_singleton. reflexivity.
  - intros c. unfold NotFound. cbn [with_cache with_router router request Method URLPath
      set_routeCache route404 writeCache routeCache].
    specialize (Hrun (<[key := route404 (router st)]> c)).
    rewrite <- (assoc_L (∪)), <- insert_union_singleton_l. exact Hrun.
Qed.

Lemma Error_blind err : cache_blind (Error call err).
Proof.
  intros st st' H. unfold Error in H.
  apply Hcall in H as (H4 & W & HW & Hrun). cbn in H4, HW.
  split; [exact H4 |]. exists W. split; [exact HW |].
  intros c. exact (Hrun c).
Qed.

Lemma parseAndServe_blind fuel static text dir :
  cache_blind (parseAndServe sys call fuel static text dir).
Proof.
  intros st st' H. unfold parseAndServe in *.
  destruct (parseHTML sys fuel text dir) as [[err | str] |]; [| | discriminate].
  - destruct (Is err ErrNotExist); [exact (NotFound_blind st st' H) | exact (Error_blind err st st' H)].
  - injection H as <-. destruct static; apply adds404_pure; reflexivity.
Qed.

Lemma serveHTML_blind fuel static text dir :
  cache_blind (serveHTML sys call fuel static text dir).
Proof.
  intros st st' H. unfold serveHTML in *.
  cbn [with_cache with_router router request URLPath set_routeCache htmlCache noCache].
  destruct (if static then htmlCache (router st) !! URLPath (request st) else None) as [html |];
    [| exact (parseAndServe_blind fuel static text dir st st' H)].
  destruct (negb (noCache (router st)));
    [| exact (parseAndServe_blind fuel static text dir st st' H)].
  injection H as <-. apply adds404_pure; reflexivity.
Qed.

Lemma serveHTMLStatic_blind fuel dir fn : cache_blind (serveHTMLStatic sys call fuel dir fn).
Proof.
  intros st st' H. unfold serveHTMLStatic in *.
  destruct (readHTMLFile sys (Path.Join [dir; fn])) as [err | body];
    [exact (Error_blind _ st st' H) | exact (serveHTML_blind fuel true body dir st st' H)].
Qed.

Lemma StaticDir_serve_blind fuel dir : cache_blind (StaticDir_serve sys call fuel dir).
Proof.
  set (pre := fun st : State =>
         if negb (htmlDisabled (router st)) && eqb (Path.Ext (URLPath (request st))) []
         then match Stat sys (Path.Join [dir; URLPath (request st); go:"index.html"]) with
              | None => set_URLPath (Path.Join [URLPath (request st); go:"index.html"]) st
              | Some _ => st
              end
         else st).
  set (rest := fun (html : bool) (st1 : State) =>
         if html && HasSuffix (URLPath (request st1)) go:".html"
         then serveHTMLStatic sys call fuel dir (URLPath (request st1)) st1
         else match Stat sys (Path.Join [dir; URLPath (request st1)]) with
              | Some _ => NotFound call st1
              | None => Some (emit (FileServer dir (URLPath (request st1))) st1)
              end).
  assert (Heq : ∀ st, StaticDir_serve sys call fuel dir st
                      = rest (negb (htmlDisabled (router st))) (pre st)) by reflexivity.
  assert (Hpre : ∀ c st, pre (with_cache c st) = with_cache c (pre st)).
  { intros c st. subst pre. cbn beta.
    cbn [with_cache with_router router request URLPath set_routeCache htmlDisabled].
    destruct (_ && _); [| reflexivity]. destruct (Stat _ _); reflexivity. }
  assert (H4 : ∀ st, route404 (router (pre st)) = route404 (router st)).
  { intros st. subst pre. cbn beta. destruct (_ && _); [| reflexivity].
    destruct (Stat _ _); reflexivity. }
  assert (Hrest : ∀ html, cache_blind (rest html)).
  { intros html st1 st' H. subst rest. cbn beta in *.
    cbn [with_cache with_router router request URLPath set_routeCache htmlDisabled].
    destruct (html && HasSuffix (URLPath (request st1)) go:".html").
    - exact (serveHTMLStatic_blind fuel dir _ st1 st' H).
    - destruct (Stat sys (Path.Join [dir; URLPath (request st1)])).
      + exact (NotFound_blind st1 st' H).
      + injection H as <-. apply adds404_pure; reflexivity. }
  clearbody pre rest.
  intros st st' H. rewrite Heq in H.
  destruct (Hrest _ _ _ H) as (H4' & W & HW & Hrun).
  split; [rewrite H4', H4; reflexivity |].
  exists W. split; [rewrite <- H4; exact HW |].
  intros c. rewrite Heq, Hpre. apply Hrun.
Qed.

Lemma StaticDir_body_blind fuel dir d : cache_blind (StaticDir_body sys call fuel dir d).
Proof.
  intros st st' H. unfold StaticDir_body in *.
  destruct (d_Params d !! go:"path");
    exact (StaticDir_serve_blind fuel dir _ st' H).
Qed.

Lemma StaticFile_body_blind fuel fn : cache_blind (StaticFile_body sys call fuel fn).
Proof.
  intros st st' H. unfold StaticFile_body in *.
  cbn [with_cache with_router router request URLPath set_routeCache htmlDisabled] in *.
  destruct (negb (htmlDisabled (router st)) && HasSuffix fn go:".html").
  - exact (serveHTMLStatic_blind fuel _ _ _ st' H).
  - destruct (Stat sys fn); [exact (Error_blind _ st st' H) |].
    injection H as <-. apply adds404_pure; reflexivity.
Qed.

Lemma runActions_blind acts : ∀ d st d' st',
  runActions call acts d st = Some (d', st') →
  adds404 st st' (fun c => snd <$> runActions call acts d (with_cache c st)) ∧
  ∀ c, fst <$> runActions call acts d (with_cache c st) = Some d'.
Proof.
  induction acts as [| a acts IH]; intros d st d' st' H; cbn [runActions] in *.
  - injection H as <- <-. split; [apply adds404_pure; reflexivity | reflexivity].
  - destruct a; cbn [Status] in *.
    + exact (IH _ (emit _ st) d' st' H).
    + exact (IH _ (emit _ st) d' st' H).
    + exact (IH _ (emit _ st) d' st' H).
    + destruct (NotFound call st) as [st1 |] eqn:H1; [| discriminate]. cbn in H.
      destruct (IH d st1 d' st' H) as [Hrest Hd].
      pose proof (NotFound_blind st st1 H1) as Hfirst.
      split.
      * eapply adds404_seq; [exact Hfirst | exact Hrest |].
        intros c W Hc. cbn beta in Hc. rewrite Hc. reflexivity.
      * intros c. destruct Hfirst as (_ & W & _ & Hc). rewrite Hc. apply Hd.
    + destruct (Error call err st) as [st1 |] eqn:H1; [| discriminate]. cbn in H.
      destruct (IH d st1 d' st' H) as [Hrest Hd].
      pose proof (Error_blind err st st1 H1) as Hfirst.
      split.
      * eapply adds404_seq; [exact Hfirst | exact Hrest |].
        intros c W Hc. cbn beta in Hc. rewrite Hc. reflexivity.
      * intros c. destruct Hfirst as (_ & W & _ & Hc). rewrite Hc. apply Hd.
    + exact (IH _ st d' st' H).
Qed.

Lemma runCallback_blind fuel cb : ∀ d st d' st',
  runCallback sys call fuel cb d st = Some (d', st') →
  adds404 st st' (fun c => snd <$> runCallback sys call fuel cb d (with_cache c st)) ∧
  ∀ c, fst <$> runCallback sys call fuel cb d (with_cache c st) = Some d'.
Proof.
  intros d st d' st' H. destruct cb as [h | dir | fn]; cbn [runCallback] in *.
  - exact (runActions_blind _ d st d' st' H).
  - destruct (StaticDir_body sys call fuel dir d st) as [st1 |] eqn:H1; [| discriminate].
    injection H as <- <-.
    destruct (StaticDir_body_blind fuel dir d st st1 H1) as (H4 & W & HW & Hrun).
    split; [split; [exact H4 |]; exists W; split; [exact HW |] |];
      intros c; rewrite Hrun; reflexivity.
  - destruct (StaticFile_body sys call fuel fn st) as [st1 |] eqn:H1; [| discriminate].
    injection H as <- <-.
    destruct (StaticFile_body_blind fuel fn st st1 H1) as (H4 & W & HW & Hrun).
    split; [split; [exact H4 |]; exists W; split; [exact HW |] |];
      intros c; rewrite Hrun; reflexivity.
Qed.

End NestedBlind.

(** [callRoute] reads no entry of the request cache, and the entries it
    stores are the same on every cache and are all the not-found route *)
Lemma callRoute_blind sys fuel : ∀ rt url, cache_blind (callRoute sys fuel rt url).
Proof.
  induction fuel as [| f IH]; intros rt url st st' H; [discriminate |].
  cbn [callRoute] in H.
  destruct (routeParams rt url) as [p |] eqn:Hp; [| discriminate]. cbn [mbind option_bind] in H.
  set (data := {| d_Params := p; status := StatusOK; HTML := [] |}) in *.
  set (start := if addr rt =? addr (route404 (router st)) then Status StatusNotFound data st
                else if addr rt =? addr (route500 (router st))
                     then Status StatusInternalServerError data st else (data, st)) in *.
  assert (Hstart : ∀ c,
            (if addr rt =? addr (route404 (router st))
             then Status StatusNotFound data (with_cache c st)
             else if addr rt =? addr (route500 (router st))
                  then Status StatusInternalServerError data (with_cache c st)
                  else (data, with_cache c st)) = (start.1, with_cache c start.2)).
  { intros c. subst start. destruct (addr rt =? _); [reflexivity |].
    destruct (addr rt =? _); reflexivity. }
  assert (H4 : route404 (router start.2) = route404 (router st)).
  { subst start. destruct (addr rt =? _); [reflexivity |]. destruct (addr rt =? _); reflexivity. }
  destruct start as [d0 st0]. cbn [fst snd] in *.
  destruct (runCallback sys (callRoute sys f) f (callback rt) d0 st0) as [[d1 st1] |] eqn:Hcb;
    [| discriminate].
  cbn [mbind option_bind] in H.
  destruct (runCallback_blind sys (callRoute sys f) IH f (callback rt) d0 st0 d1 st1 Hcb)
    as [(H4a & W1 & HW1 & Hrun1) Hd1].
  set (served := fun st1 : State =>
         if negb (eqb (HTML d1) [])
         then serveHTML sys (callRoute sys f) f false (HTML d1) go:"/" st1 else Some st1).
  change (served st1 ≫= (fun st2 =>
            Some (if (LOG_INFO <=? logLevel (router st2))
                     || (status d1 =? StatusInternalServerError)
                  then with_router (println (LogRequest (Method (request st2)) url (status d1))) st2
                  else st2)) = Some st') in H.
  destruct (served st1) as [st2 |] eqn:Hserved; [| discriminate].
  cbn [mbind option_bind] in H. injection H as <-.
  assert (Hs : adds404 st1 st2 (fun c => served (with_cache c st1))).
  { subst served. cbn beta in *. destruct (negb (eqb (HTML d1) [])).
    - exact (serveHTML_blind sys (callRoute sys f) IH f false _ _ st1 st2 Hserved).
    - injection Hserved as <-. apply adds404_pure; reflexivity. }
  destruct Hs as (H4b & W2 & HW2 & Hrun2).
  split.
  { destruct (_ || _); cbn; congruence. }
  exists (W2 ∪ W1). split.
  { apply map_Forall_union_2.
    - eapply map_Forall_impl; [exact HW2 |]. cbn. intros _ r0 ->. congruence.
    - eapply map_Forall_impl; [exact HW1 |]. cbn. intros _ r0 ->. congruence. }
  intros c. cbn [callRoute]. rewrite Hp. cbn [mbind option_bind].
  cbn [with_cache with_router router route404 route500 set_routeCache].
  fold data. rewrite (Hstart c).
  specialize (Hrun1 c). specialize (Hd1 c).
  destruct (runCallback sys (callRoute sys f) f (callback rt) d0 (with_cache c st0))
    as [[d1' st1'] |]; [| discriminate].
  cbn in Hrun1, Hd1. injection Hrun1 as ->. injection Hd1 as ->.
  cbn [mbind option_bind].
  match goal with |- ?a ≫= ?k = ?r =>
    change (served (with_cache (W1 ∪ c) st1) ≫= k = r) end.
  rewrite Hrun2. cbn [mbind option_bind]. rewrite (assoc_L (∪)).
  cbn [with_cache with_router router request logLevel set_routeCache Method].
  destruct (_ || _); reflexivity.
Qed.

(** C6 (counterexample).  A file that is not on disk is requested from a
    directory mounted at the root.  The first dispatch resolves to the
    [StaticDir] route (address 2), whose callback signals not-found and
    thereby caches the not-found route (address 0) under the same key: the
    second dispatch resolves to that one. *)
Lemma C6_counterexample :
  ¬ same_route_twice (Scenario.disk []) 3
      (Scenario.request_of "GET" "/nothere.txt" (Scenario.site (Scenario.disk []))).
Proof.
  intros H.
  specialize (H eq_refl).
  destruct (resolve (Scenario.request_of "GET" "/nothere.txt" (Scenario.site (Scenario.disk []))))
    as [x |] eqn:Hx; [| vm_compute in Hx; discriminate].
  destruct (ServeHTTP (Scenario.disk []) 3
              (Scenario.request_of "GET" "/nothere.txt" (Scenario.site (Scenario.disk []))))
    as [st1 |] eqn:H1; [| vm_compute in H1; discriminate].
  specialize (H x st1 eq_refl eq_refl).
  assert (Hx' : addr (resolved x) = 2).
  { vm_compute in Hx. injection Hx as <-. reflexivity. }
  rewrite Hx' in H.
  vm_compute in H1. injection H1 as <-.
  vm_compute in H. discriminate.
Qed.

(** C6 (amended).  With caching enabled, a dispatch enters its route with
    that route stored under the request's key.  While the route runs no cache
    entry is read, and an entry is stored only by [d.NotFound()], under the
    method and the cleaned path the request has at that moment, and holds the
    not-found route.  A second dispatch of the same method and normalized
    path on the router left by the first is therefore a cache hit, handed to
    [callRoute] without scanning a tier, and it is a hit on the route the
    first dispatch resolved to unless [d.NotFound()] stored the request's own
    key during the first dispatch ([recached]); then, and only then, it is a
    hit on the not-found route.  A 404 header alone does not change the
    route: a handler that sets the status itself, or [d.NotFound()] called
    under another path (the mount-relative path of a directory mounted at
    [/assets]), leaves it.  For an unregistered path both dispatches resolve
    to the not-found route. *)
Theorem C6_second_dispatch_is_cache_hit (sys : Sys) (fuel : nat) (st st1 st2 : State)
    (x : resolution) :
  noCache (router st) = false →
  resolve st = Some x →
  ServeHTTP sys fuel st = Some st1 →
  router st2 = router st1 →
  Method (request st2) = Method (request st) →
  normalized st2 = normalized st →
  ∃ rt2,
    routeCache (router st1) !! cacheKey st = Some rt2 ∧
    resolve st2 = Some (Cached rt2) ∧
    (∀ fuel', ServeHTTP sys fuel' st2
              = callRoute sys fuel' rt2 (normalized st2) (set_URLPath (normalized st2) st2)) ∧
    (rt2 = resolved x ∨ rt2 = route404 (router st)) ∧
    (recached sys fuel x st → rt2 = route404 (router st)) ∧
    (¬ recached sys fuel x st → rt2 = resolved x) ∧
    ((∀ evs, response st1 = response st ++ evs → WriteHeader StatusNotFound ∉ evs) →
     rt2 = resolved x) ∧
    (resolved x = route404 (router st) → rt2 = resolved x) ∧
    routeCache (router (entered x st)) !! cacheKey st = Some (resolved x).
Proof.
  intros Hnc Hx H1 Hr Hm Hn.
  rewrite ServeHTTP_resolve, Hx in H1. simpl in H1.
  pose proof (callRoute_blind sys fuel _ _ _ _ H1) as Hblind.
  apply adds404_cache in Hblind; [| rewrite with_cache_self; exact H1].
  destruct Hblind as (W & HW & HcacheW & Hrun).
  apply callRoute_step in H1 as [Hstep _].
  assert (Hentered : routeCache (router (entered x st)) !! cacheKey st = Some (resolved x)
                     ∧ route404 (router (entered x st)) = route404 (router st)
                     ∧ noCache (router (entered x st)) = noCache (router st)
                     ∧ response (entered x st) = response st).
  { destruct x as [rt | rt]; cbn.
    - split; [| auto]. unfold resolve in Hx. rewrite Hnc in Hx. cbn in Hx.
      destruct (routeCache (router st) !! cacheKey st) as [rt' |] eqn:Hk.
      + injection Hx as ->. reflexivity.
      + unfold resolve_scan in Hx.
        destruct (scan (routes (router st)) _ _) as [[r0 |] |]; cbn in Hx; try discriminate.
        destruct (scan (lateRoutes (router st)) _ _) as [r0 |]; cbn in Hx; discriminate.
    - split; [apply lookup_insert_eq | auto]. }
  destruct Hentered as (Hk & H404 & Hnc' & Hresp).
  destruct Hstep as [_ _ H4 _ Hn1 Hc (evs & Hevs & Hsent)].
  assert (Hkey2 : cacheKey st2 = cacheKey st).
  { unfold cacheKey. rewrite Hm, Hn. reflexivity. }
  assert (Hcases : routeCache (router st1) !! cacheKey st = Some (resolved x)
                   ∨ routeCache (router st1) !! cacheKey st = Some (route404 (router st))).
  { destruct (Hc (cacheKey st)) as [-> | ->]; [left; exact Hk | right; congruence]. }
  assert (∃ rt2, routeCache (router st1) !! cacheKey st = Some rt2) as [rt2 Hrt2].
  { destruct Hcases as [-> | ->]; eauto. }
  assert (Hres2 : resolve st2 = Some (Cached rt2)).
  { unfold resolve. rewrite Hr, Hkey2, Hrt2, Hn1, Hnc', Hnc. reflexivity. }
  assert (Hre : recached sys fuel x st ↔ is_Some (W !! cacheKey st)).
  { unfold recached. rewrite Hrun. split.
    - intros (st' & [= <-] & Hs). cbn in Hs.
      destruct (W !! cacheKey st) as [v |] eqn:HWk; [eauto |].
      rewrite lookup_union_r, lookup_delete_eq in Hs by exact HWk.
      destruct Hs as [? Hs]. discriminate.
    - intros [v Hv]. eexists. split; [reflexivity |]. cbn.
      exists v. apply lookup_union_Some_l, Hv. }
  exists rt2. split; [exact Hrt2 |]. split; [exact Hres2 |].
  split; [| split; [| split; [| split; [| split; [| split; [| exact Hk]]]]]].
  - intros fuel'. rewrite ServeHTTP_resolve, Hres2. reflexivity.
  - rewrite Hrt2 in Hcases. destruct Hcases as [[= ->] | [= ->]]; auto.
  - intros [v Hv]%Hre. rewrite HcacheW in Hrt2.
    rewrite (lookup_union_Some_l _ _ _ _ Hv) in Hrt2. injection Hrt2 as <-.
    rewrite (HW _ _ Hv). exact H404.
  - intros Hno. destruct (W !! cacheKey st) as [v |] eqn:HWk.
    + exfalso. apply Hno, Hre. eauto.
    + rewrite HcacheW, lookup_union_r, Hk in Hrt2 by exact HWk. congruence.
  - intros Hno. destruct Hsent as [Hin | Heq].
    + exfalso. apply (Hno evs); [rewrite <- Hresp; exact Hevs | exact Hin].
    + rewrite Heq, Hk in Hrt2. injection Hrt2 as <-. reflexivity.
  - intros H0. rewrite Hrt2 in Hcases. destruct Hcases as [[= ->] | [= ->]]; auto.
Qed.

(** an unregistered path: the first dispatch stores the not-found route *)
Lemma unregistered_resolves_to_404 st :
  routeCache (router st) !! cacheKey st = None →
  scan (routes (router st)) (Method (request st)) (normalized st) = Some None →
  scan (lateRoutes (router st)) (Method (request st)) (normalized st) = Some None →
  resolve st = Some (Scanned (route404 (router st))) ∧
  routeCache (router (entered (Scanned (route404 (router st))) st)) !! cacheKey st
    = Some (route404 (router st)).
Proof.
  intros Hk Hp Hl. unfold resolve, resolve_scan. rewrite Hk, Hp. cbn. rewrite Hl. cbn.
  split; [reflexivity | apply lookup_insert_eq].
Qed.

Lemma C6_witness :
  let sys := Scenario.disk [] in
  (let st := Scenario.request_of "GET" "/assets/logo.png" (Sites.assets sys) in
   ∃ st1 rt2,
     ServeHTTP sys 3 st = Some st1 ∧
     WriteHeader StatusNotFound ∈ response st1 ∧
     routeCache (router st1) !! cacheKey st = Some rt2 ∧
     addr <$> (resolved <$> resolve st) = Some (addr rt2) ∧
     resolve (Scenario.request_of "GET" "/assets/logo.png/" (router st1)) = Some (Cached rt2)) ∧
  (let st := Scenario.request_of "GET" "/gone" (Sites.gone sys) in
   ∃ st1 rt2,
     ServeHTTP sys 3 st = Some st1 ∧
     WriteHeader StatusNotFound ∈ response st1 ∧
     routeCache (router st1) !! cacheKey st = Some rt2 ∧
     addr <$> (resolved <$> resolve st) = Some (addr rt2) ∧
     resolve (Scenario.request_of "GET" "/gone/" (router st1)) = Some (Cached rt2)).
Proof.
  intros sys. split; intros st.
  - destruct (ServeHTTP sys 3 st) as [st1 |] eqn:H1; [| vm_compute in H1; discriminate].
    destruct (resolve st) as [x |] eqn:Hx; [| vm_compute in Hx; discriminate].
    destruct (C6_second_dispatch_is_cache_hit sys 3 st st1
                (Scenario.request_of "GET" "/assets/logo.png/" (router st1)) x)
      as (rt2 & Hk & Hres & _ & _ & _ & Hsame & _); try reflexivity; try assumption.
    exists st1, rt2. split; [reflexivity |].
    split; [vm_compute in H1; injection H1 as <-; vm_compute; repeat constructor |].
    split; [exact Hk |]. split; [| exact Hres].
    rewrite Hsame; [reflexivity |].
    pose proof Hx as Hx'. vm_compute in Hx'. injection Hx' as <-.
    intros (st' & H & Hs). vm_compute in H. injection H as <-.
    vm_compute in Hs. destruct Hs as [? Hs]. discriminate.
  - destruct (ServeHTTP sys 3 st) as [st1 |] eqn:H1; [| vm_compute in H1; discriminate].
    destruct (resolve st) as [x |] eqn:Hx; [| vm_compute in Hx; discriminate].
    destruct (C6_second_dispatch_is_cache_hit sys 3 st st1
                (Scenario.request_of "GET" "/gone/" (router st1)) x)
      as (rt2 & Hk & Hres & _ & _ & _ & Hsame & _); try reflexivity; try assumption.
    exists st1, rt2. split; [reflexivity |].
    split; [vm_compute in H1; injection H1 as <-; vm_compute; repeat constructor |].
    split; [exact Hk |]. split; [| exact Hres].
    rewrite Hsame; [reflexivity |].
    pose proof Hx as Hx'. vm_compute in Hx'. injection Hx' as <-.
    intros (st' & H & Hs). vm_compute in H. injection H as <-.
    vm_compute in Hs. destruct Hs as [? Hs]. discriminate.
Defined.

Lemma C5_witness :
  let sys := Scenario.disk [] in
  let st := Scenario.request_of "GET" "/y" Scenario.three_routes in
  ∃ rt, selected (router st) (Method (request st)) (normalized st) rt ∧
        ∀ fuel, ServeHTTP sys fuel st
                = callRoute sys fuel rt (normalized st)
                    (with_router (writeCache (cacheKey st) rt) (set_URLPath (normalized st) st)).
Proof.
  intros sys st.
  apply (C5_uncached_dispatch_selects sys st).
  - split; vm_compute; repeat (constructor; [eexists; reflexivity |]); constructor.
  - left. vm_compute. reflexivity.
Defined.

(** ** Reasoning about the regular expressions *)

Module RegexpFacts.

Lemma nat_of_ascii_inj a b : nat_of_ascii a = nat_of_ascii b → a = b.
Proof.
  intros H. rewrite <- (ascii_nat_embedding a), <- (ascii_nat_embedding b), H. reflexivity.
Qed.

Lemma cs_lit_mem c d : cs_mem (cs_lit c) d = bool_decide (c = d).
Proof.
  unfold cs_mem, cs_lit, in_range. cbn.
  case_bool_decide as H.
  - subst. rewrite Nat.leb_refl. reflexivity.
  - destruct (Nat.leb_spec (nat_of_ascii c) (nat_of_ascii d)) as [H1 | H1]; [| reflexivity].
    destruct (Nat.leb_spec (nat_of_ascii d) (nat_of_ascii c)) as [H2 | H2]; [| reflexivity].
    exfalso. apply H, nat_of_ascii_inj. lia.
Qed.

Lemma cs_dot_mem a : cs_mem cs_dot a = negb (bool_decide ("010"%char = a)).
Proof.
  change (cs_mem cs_dot a) with (negb (cs_mem (cs_lit "010") a)).
  rewrite cs_lit_mem. reflexivity.
Qed.

(** *** Literal text in a pattern *)

Lemma lit_cs_self a : cs_mem (lit_cs a) a = true.
Proof.
  unfold lit_cs. case_bool_decide as H.
  - subst. reflexivity.
  - rewrite cs_lit_mem. apply bool_decide_eq_true_2. reflexivity.
Qed.

Lemma lit_cs_plain a : a ≠ "."%char → lit_cs a = cs_lit a.
Proof. intros H. unfold lit_cs. rewrite bool_decide_eq_false_2 by exact H. reflexivity. Qed.

Lemma parse_plain c t st :
  p_cls st = None → plain c →
  parse_loop (c :: t) st = parse_loop t (push (Chr (lit_cs c)) st).
Proof.
  intros Hcls [Hascii [Hmeta | ->]]; simpl; rewrite Hcls; [| reflexivity].
  unfold is_meta in Hmeta. apply bool_decide_eq_false in Hmeta.
  rewrite lit_cs_plain by (intros ->; apply Hmeta; set_solver).
  repeat match goal with
  | |- context [bool_decide (c = ?x)] =>
      rewrite (bool_decide_eq_false_2 (c = x))
        by (intros ->; apply Hmeta; set_solver)
  end.
  simpl. rewrite Hascii. reflexivity.
Qed.

Lemma parse_lits l : ∀ t st,
  p_cls st = None → p_lastRepeat st = false → Forall plain l →
  parse_loop (l ++ t) st = parse_loop t (after_lits l st).
Proof.
  induction l as [| c l IH]; intros t st Hcls Hrep Hl.
  - destruct st as [[? ? ?] ? ? ? ?]. cbn in *. subst. reflexivity.
  - apply Forall_cons in Hl as [Hc Hl]. simpl app.
    rewrite parse_plain by assumption.
    rewrite IH by (assumption || reflexivity).
    f_equal. unfold after_lits, push. cbn. rewrite <- app_assoc. reflexivity.
Qed.

(** *** Running the matcher *)

Lemma m_lits n l : ∀ items k s c,
  m n (mk_concat (lits l ++ items)) k (l ++ s) c = m n (mk_concat items) k s c.
Proof.
  induction l as [| a l IH]; intros items k s c; [reflexivity |].
  cbn [app lits map mk_concat foldr m].
  rewrite lit_cs_self. apply IH.
Qed.

(** a greedy repetition of a class runs to the end of the bytes of the class
    and stays there if the rest of the pattern matches from there *)
Lemma star_greedy_all n cs k rest c res l : ∀ fuel,
  Forall (fun a => cs_mem cs a = true) l →
  (∀ a t, rest = a :: t → cs_mem cs a = false) →
  k rest c = Some res →
  length l ≤ fuel →
  star_loop (m n (Chr cs)) true k fuel (l ++ rest) c = Some res.
Proof.
  induction l as [| a l IH]; intros fuel Hl Hrest Hk Hfuel.
  - destruct fuel as [| f]; cbn; [exact Hk |].
    destruct rest as [| b t]; cbn; [exact Hk |].
    rewrite (Hrest b t eq_refl). exact Hk.
  - apply Forall_cons in Hl as [Ha Hl].
    destruct fuel as [| f]; [cbn in Hfuel; lia |].
    cbn. rewrite Ha.
    rewrite IH; [| assumption .. | cbn in Hfuel; lia].
    rewrite Nat.leb_refl. reflexivity.
Qed.

Lemma plus_greedy_all n cs k rest c res l :
  Forall (fun a => cs_mem cs a = true) l → l ≠ [] →
  (∀ a t, rest = a :: t → cs_mem cs a = false) →
  k rest c = Some res →
  m n (Plus true (Chr cs)) k (l ++ rest) c = Some res.
Proof.
  intros Hl Hne Hrest Hk. destruct l as [| a l]; [contradiction |].
  apply Forall_cons in Hl as [Ha Hl].
  change (m n (Plus true (Chr cs)) k ((a :: l) ++ rest) c)
    with (if cs_mem cs a
          then star_loop (m n (Chr cs)) true k (length (l ++ rest)) (l ++ rest) c
          else None).
  rewrite Ha.
  apply star_greedy_all; try assumption. rewrite length_app. lia.
Qed.

Lemma m_begin n r k s c :
  m n (Cat BeginText r) k s c = if length s =? n then m n r k s c else None.
Proof. reflexivity. Qed.

Lemma exec_here n r s s' c :
  m n r accept s [] = Some (s', c) → exec n r s = Some (s, s', c).
Proof. intros H. destruct s; cbn; rewrite H; reflexivity. Qed.

Lemma MatchString_here re s s' c :
  m (length s) (re_prog re) accept s [] = Some (s', c) → MatchString re s = true.
Proof.
  intros H. unfold MatchString. rewrite (exec_here _ _ _ _ _ H).
  apply bool_decide_eq_true_2. eauto.
Qed.

(** the first of all matches is the match at the start of the text, if there
    is one *)
Lemma FindAll_here re text s' c :
  m (length text) (re_prog re) accept text [] = Some (s', c) →
  FindAllStringSubmatch re text !! 0 = Some (submatches re text s' c).
Proof.
  intros H. unfold FindAllStringSubmatch. cbn [allMatches].
  destruct (Nat.ltb_spec (length text) 0) as [? | _]; [lia |].
  rewrite drop_0, (exec_here _ _ _ _ _ H).
  rewrite (bool_decide_eq_false_2 (Some _ = None)) by discriminate.
  rewrite andb_false_r. reflexivity.
Qed.

Lemma consumed_all s : consumed s [] = s.
Proof. unfold consumed. cbn. rewrite Nat.sub_0_r. apply firstn_all. Qed.

Lemma consumed_app l s : consumed (l ++ s) s = l.
Proof.
  unfold consumed. rewrite length_app.
  replace (length l + length s - length s) with (length l) by lia.
  apply take_app_length.
Qed.

(** *** The pattern of a mounted directory *)



(** the bare prefix: the optional group stays out, the capture is unset *)
Lemma dir_re_bare prefix :
  m (length prefix) (re_prog (dir_re prefix)) accept prefix [] = Some ([], []).
Proof.
  unfold dir_re. cbn [re_prog]. rewrite m_begin, Nat.eqb_refl.
  pose proof (m_lits (length prefix) prefix dir_tail accept [] []) as H.
  rewrite app_nil_r in H. rewrite H. reflexivity.
Qed.


(** text right after the prefix, without a slash in between, is accepted as
    well; this is how a directory mounted at ["/"] gets its paths *)
Lemma dir_re_direct prefix a d :
  a ≠ "/"%char → Forall (fun a => a ≠ "010"%char) (a :: d) →
  m (length (prefix ++ a :: d)) (re_prog (dir_re prefix)) accept
    (prefix ++ a :: d) [] = Some ([], [(1, a :: d)]).
Proof.
  intros Ha Hd. unfold dir_re. cbn [re_prog]. rewrite m_begin, Nat.eqb_refl.
  rewrite m_lits.
  change (m ?n (mk_concat dir_tail) accept (a :: d) [])
    with (orelse
            (orelse
               (if cs_mem (cs_lit "/") a
                then m n (Cat (Cap 1 (Cat (Plus true (Chr cs_dot)) Empty)) Empty)
                       (m n (Cat EndText Empty) accept) d []
                else None)
               (m n (Plus true (Chr cs_dot))
                  (fun s' c' => m n (Cat EndText Empty) accept s' ((1, consumed (a :: d) s') :: c'))
                  (a :: d) []))
            (m n (Cat EndText Empty) accept (a :: d) [])).
  rewrite cs_lit_mem, bool_decide_eq_false_2 by congruence.
  rewrite <- (app_nil_r (a :: d)) at 2.
  rewrite (plus_greedy_all _ cs_dot _ [] _ ([], [(1, a :: d)])).
  - reflexivity.
  - eapply Forall_impl; [exact Hd |]. intros b Hb. cbn beta.
    rewrite cs_dot_mem, bool_decide_eq_false_2; [reflexivity | congruence].
  - discriminate.
  - discriminate.
  - cbn beta. rewrite consumed_all. reflexivity.
Qed.

(** *** Compiling the route of a mounted directory *)











End RegexpFacts.

(** ** Mounted directories *)

Section Mounted.

Import RegexpFacts.

Lemma stripSlash_Forall (P : ascii → Prop) s : Forall P s → Forall P (stripSlash s).
Proof.
  intros H. unfold stripSlash, dropLast. destruct (_ && _); [| exact H].
  apply Forall_take, H.
Qed.


Lemma dir_route_params s cb mthd a url rest c :
  m (length url) (re_prog (dir_re (stripSlash s))) accept url [] = Some (rest, c) →
  routeParams (dir_route s cb mthd a) url = Some {[ go:"path" := cap_get 1 c ]}.
Proof.
  intros H. unfold routeParams, dir_route. cbn [params pattern length Nat.ltb Nat.leb].
  cbn [mbind option_bind]. rewrite (FindAll_here _ _ _ _ H). cbn [mbind option_bind].
  unfold submatches. cbn [re_ncap dir_re seq map drop bindParams lookup list_lookup].
  cbn [mbind option_bind bindParams]. rewrite insert_empty. reflexivity.
Qed.



(** a directory mounted at the root: [/x/y] gives [path = x/y] *)
Lemma dir_route_root cb mthd n a d :
  a ≠ "/"%char → Forall (fun a => a ≠ "010"%char) (a :: d) →
  ∃ re, pattern (dir_route go:"/" cb mthd n) = Some re ∧
        MatchString re (go:"/" ++ a :: d) = true ∧
        routeParams (dir_route go:"/" cb mthd n) (go:"/" ++ a :: d)
          = Some {[ go:"path" := a :: d ]}.
Proof.
  intros Ha Hd. eexists. split; [reflexivity |].
  split; [eapply MatchString_here, (dir_re_direct go:"/" a d Ha Hd) |].
  apply (dir_route_params go:"/" cb mthd n _ _ _ (dir_re_direct go:"/" a d Ha Hd)).
Qed.




(** the same inside [callRoute]: a request for the bare prefix is served as
    a request for ["/"] of the directory *)
Lemma callRoute_dir_bare sys f s dir mthd a st :
  a ≠ addr (route404 (router st)) → a ≠ addr (route500 (router st)) →
  callRoute sys (S f) (dir_route s (StaticDir dir) mthd a) (stripSlash s) st =
  st1 ← StaticDir_serve sys (callRoute sys f) f dir (set_URLPath go:"/" st);
  Some (if LOG_INFO <=? logLevel (router st1)
        then with_router (println (LogRequest (Method (request st1)) (stripSlash s) StatusOK)) st1
        else st1).
Proof.
  intros H404 H500. cbn [callRoute].
  rewrite (dir_route_params s _ mthd a _ _ _ (dir_re_bare (stripSlash s))).
  cbn [mbind option_bind dir_route addr callback cap_get].
  destruct (Nat.eqb_spec a (addr (route404 (router st)))) as [? | _]; [contradiction |].
  destruct (Nat.eqb_spec a (addr (route500 (router st)))) as [? | _]; [contradiction |].
  cbn [runCallback]. unfold StaticDir_body, P. cbn [d_Params].
  rewrite lookup_singleton_eq. cbn [default app].
  destruct (StaticDir_serve sys (callRoute sys f) f dir _) as [st1 |]; [| reflexivity].
  cbn [mbind option_bind HTML status].
  change (eqb [] []) with true. cbn [negb mbind option_bind].
  change (StatusOK =? StatusInternalServerError) with false.
  rewrite orb_false_r. reflexivity.
Qed.


End Mounted.

(** ** What the matcher accepts *)

Module Language.

Import RegexpFacts.

Lemma orelse_Some a b x : orelse a b = Some x → a = Some x ∨ b = Some x.
Proof. destruct a; cbn; auto. Qed.

Section Soundness.

Variable n : nat.

Lemma star_loop_sound g r mb :
  sound n r mb →
  ∀ k fuel s c res, star_loop mb g k fuel s c = Some res →
    ∃ s' c', matches n (Star g r) s s' ∧ k s' c' = Some res.
Proof.
  intros Hb k fuel. induction fuel as [| f IH]; intros s c res; cbn.
  - intros Hk. exists s, c. split; [constructor | exact Hk].
  - intros Hrun.
    assert (Hcases : mb (fun s' c' => if length s' <? length s
                                      then star_loop mb g k f s' c' else None) s c = Some res
                     ∨ k s c = Some res).
    { destruct g; apply orelse_Some in Hrun; tauto. }
    destruct Hcases as [Hagain | Hk].
    + apply Hb in Hagain as (s' & c' & Hm & Hrest).
      destruct (length s' <? length s); [| discriminate].
      apply IH in Hrest as (s'' & c'' & Hm' & Hk).
      exists s'', c''. split; [econstructor; eassumption | exact Hk].
    + exists s, c. split; [constructor | exact Hk].
Qed.

Lemma m_sound r : sound n r (m n r).
Proof.
  induction r as [| cs | r1 IH1 r2 IH2 | r1 IH1 r2 IH2 | g r IH | g r IH | g r IH
                  | i r IH | |]; intros k s c res; cbn [m].
  - intros Hk. exists s, c. split; [constructor | exact Hk].
  - destruct s as [| a s]; [discriminate |].
    destruct (cs_mem cs a) eqn:Ha; [| discriminate].
    intros Hk. exists s, c. split; [constructor; exact Ha | exact Hk].
  - intros H. apply IH1 in H as (s' & c' & Hm1 & H).
    apply IH2 in H as (s'' & c'' & Hm2 & H).
    exists s'', c''. split; [econstructor; eassumption | exact H].
  - intros H. apply orelse_Some in H as [H | H].
    + apply IH1 in H as (s' & c' & Hm & H). exists s', c'. split; [apply M_AltL, Hm | exact H].
    + apply IH2 in H as (s' & c' & Hm & H). exists s', c'. split; [apply M_AltR, Hm | exact H].
  - apply (star_loop_sound g r (m n r) IH k).
  - intros H. apply IH in H as (s' & c' & Hm & H).
    apply (star_loop_sound g r (m n r) IH k) in H as (s'' & c'' & Hm' & H).
    exists s'', c''. split; [econstructor; eassumption | exact H].
  - intros H.
    assert (Hcases : m n r k s c = Some res ∨ k s c = Some res).
    { destruct g; apply orelse_Some in H; tauto. }
    destruct Hcases as [H' | H'].
    + apply IH in H' as (s' & c' & Hm & H'). exists s', c'.
      split; [apply M_Quest1, Hm | exact H'].
    + exists s, c. split; [constructor | exact H'].
  - intros H. apply IH in H as (s' & c' & Hm & H).
    eexists s', _. split; [constructor; exact Hm | exact H].
  - destruct (Nat.eqb_spec (length s) n) as [Hn | Hn]; [| discriminate].
    intros Hk. exists s, c. split; [constructor; exact Hn | exact Hk].
  - destruct s; [| discriminate].
    intros Hk. exists [], c. split; [constructor | exact Hk].
Qed.

Lemma exec_sound r : ∀ s s0 s' c,
  exec n r s = Some (s0, s', c) → ∃ pre, s = pre ++ s0 ∧ matches n r s0 s'.
Proof.
  induction s as [| a s IH]; intros s0 s' c; cbn [exec].
  - destruct (m n r accept [] []) as [[s1 c1] |] eqn:Hm; [| discriminate].
    intros [= <- <- <-]. exists []. split; [reflexivity |].
    apply m_sound in Hm as (s2 & c2 & Hm & [= <- <-]). exact Hm.
  - destruct (m n r accept (a :: s) []) as [[s1 c1] |] eqn:Hm.
    + intros [= <- <- <-]. exists []. split; [reflexivity |].
      apply m_sound in Hm as (s2 & c2 & Hm & [= <- <-]). exact Hm.
    + intros H. apply IH in H as (pre & -> & H). exists (a :: pre). auto.
Qed.

(** *** Reading off what a derivation says *)

Lemma matches_star_chr g cs s s' :
  matches n (Star g (Chr cs)) s s' →
  ∃ l, s = l ++ s' ∧ Forall (fun a => cs_mem cs a = true) l.
Proof.
  intros H. remember (Star g (Chr cs)) as r eqn:Hr.
  induction H as [| | | | | g' r' s | g' r' s s1 s2 H1 _ H2 IH | | | | | |];
    try discriminate; injection Hr as -> ->.
  - exists []. split; [reflexivity | constructor].
  - destruct (IH eq_refl) as (l & -> & Hl).
    inversion H1; subst. exists (a :: l). split; [reflexivity |].
    constructor; assumption.
Qed.

Lemma matches_plus_chr g cs s s' :
  matches n (Plus g (Chr cs)) s s' →
  ∃ l, s = l ++ s' ∧ l ≠ [] ∧ Forall (fun a => cs_mem cs a = true) l.
Proof.
  intros H. inversion H as [| | | | | | | g' r' s0 s1 s2 H1 H2 | | | | |]; subst.
  apply matches_star_chr in H2 as (l & -> & Hl).
  inversion H1; subst. exists (a :: l).
  split; [reflexivity |]. split; [discriminate |]. constructor; assumption.
Qed.

Lemma matches_lits l : ∀ items s s',
  Forall (fun a => a ≠ "."%char) l →
  matches n (mk_concat (lits l ++ items)) s s' →
  ∃ t, s = l ++ t ∧ matches n (mk_concat items) t s'.
Proof.
  induction l as [| a l IH]; intros items s s' Hl H.
  - exists s. auto.
  - apply Forall_cons in Hl as [Ha Hl].
    cbn [app lits map mk_concat foldr] in H. rewrite (lit_cs_plain a Ha) in H.
    inversion H as [| | r1 r2 s0 s1 s2 H1 H2 | | | | | | | | | |]; subst.
    inversion H1 as [| cs b s3 Hb | | | | | | | | | | |]; subst.
    rewrite cs_lit_mem in Hb. apply bool_decide_eq_true in Hb as <-.
    apply (IH _ _ _ Hl) in H2 as (t & -> & H2). exists t. auto.
Qed.

End Soundness.

End Language.

(** ** Invalidation by pattern *)

Section Invalidation.

Import RegexpFacts Language.

(** [deleteMatching] removes exactly the keys the pattern matches *)
Lemma deleteMatching_lookup {V : Type} (re : Regexp) (cache : gmap (list ascii) V)
    (k : list ascii) :
  deleteMatching re cache !! k = if MatchString re k then None else cache !! k.
Proof.
  unfold deleteMatching.
  assert (H : ∀ (l : list (list ascii * V)) (acc : gmap (list ascii) V),
            foldr (fun (kv : list ascii * V) acc =>
                     if MatchString re kv.1 then delete kv.1 acc else acc) acc l !! k
            = if MatchString re k && bool_decide (k ∈ l.*1) then None else acc !! k).
  { induction l as [| [k' v] l IH]; intros acc; cbn [foldr fmap list_fmap fst].
    - rewrite (bool_decide_eq_false_2 (k ∈ [])) by (intros Hin; inversion Hin).
      rewrite andb_false_r. reflexivity.
    - destruct (MatchString re k') eqn:Hk'.
      + rewrite lookup_delete. destruct (decide (k' = k)) as [<- | Hne].
        * rewrite Hk', bool_decide_eq_true_2 by left. reflexivity.
        * rewrite IH. destruct (MatchString re k); [| reflexivity]. cbn [andb].
          rewrite (bool_decide_ext (k ∈ k' :: l.*1) (k ∈ l.*1)); [reflexivity |].
          rewrite elem_of_cons. split; [| auto]. intros [-> | ?]; [congruence | assumption].
      + rewrite IH. destruct (MatchString re k) eqn:Hk; [| reflexivity]. cbn [andb].
        rewrite (bool_decide_ext (k ∈ k' :: l.*1) (k ∈ l.*1)); [reflexivity |].
        rewrite elem_of_cons. split; [| auto]. intros [-> | ?]; [congruence | assumption]. }
  rewrite H. destruct (MatchString re k); [| reflexivity]. cbn [andb].
  case_bool_decide as Hin; [reflexivity |].
  destruct (cache !! k) as [v |] eqn:Hv; [| reflexivity].
  exfalso. apply Hin. apply list_elem_of_fmap. exists (k, v).
  split; [reflexivity | apply elem_of_map_to_list, Hv].
Qed.

(** *** The keys [ClearCache("/users/@name")] is about *)

Lemma users_pattern :
  parsePattern (go:"[A-Z]+ " ++ go:"/users/@name")
    = (go:"^[A-Z]+ /users/([^/]+)$", [go:"name"]) ∧
  MustCompile go:"^[A-Z]+ /users/([^/]+)$" = Some users_re.
Proof. split; vm_compute; reflexivity. Qed.

Lemma cs_upper_mem a : cs_mem cs_upper a = true ↔ is_upper a.
Proof.
  unfold cs_mem, cs_upper, in_range, is_upper. cbn [cs_neg cs_ranges existsb fst snd xorb].
  rewrite orb_false_r, andb_true_iff, !Nat.leb_le. reflexivity.
Qed.

Lemma cs_nonslash_mem a : cs_mem cs_nonslash a = true ↔ a ≠ "/"%char.
Proof.
  change (cs_mem cs_nonslash a) with (negb (cs_mem (cs_lit "/") a)).
  rewrite cs_lit_mem, negb_true_iff, bool_decide_eq_false. split; congruence.
Qed.

Lemma users_re_sound k : MatchString users_re k = true → users_key k.
Proof.
  unfold MatchString. intros H. apply bool_decide_eq_true in H as [[[s0 s'] c] H].
  apply exec_sound in H as (pre & Hk & H).
  cbn [users_re re_prog] in H.
  inv H.
  match goal with Hb : matches _ BeginText _ _ |- _ => inv Hb end.
  assert (pre = []) as ->.
  { match goal with Hlen : length _ = length _ |- _ =>
      rewrite length_app in Hlen; destruct pre; [reflexivity | cbn in Hlen; lia] end. }
  cbn [app] in *.
  match goal with Hrest : matches _ (Cat _ _) _ _ |- _ => inv Hrest end.
  match goal with Hm : matches _ (Plus _ _) _ _ |- _ =>
    apply matches_plus_chr in Hm as (mthd & -> & Hne & Hup) end.
  match goal with Htail : matches _ ?r _ _ |- _ =>
    change r with (mk_concat (lits go:" /users/"
                     ++ [Cap 1 (Cat (Plus true (Chr cs_nonslash)) Empty); EndText])) in Htail;
    apply matches_lits in Htail as (t & -> & Htail);
      [| repeat (constructor; [discriminate |]); constructor];
    cbn [mk_concat foldr] in Htail; inv Htail end.
  match goal with Hcap : matches _ (Cap _ _) _ _ |- _ => inv Hcap end.
  match goal with Hseg : matches _ (Cat (Plus _ _) _) _ _ |- _ => inv Hseg end.
  match goal with He : matches _ Empty _ _ |- _ => inv He end.
  match goal with Hplus : matches _ (Plus _ _) _ _ |- _ =>
    apply matches_plus_chr in Hplus as (seg & -> & Hsne & Hseg') end.
  match goal with Hend : matches _ (Cat EndText _) _ _ |- _ => inv Hend end.
  match goal with He : matches _ EndText _ _ |- _ => inv He end.
  match goal with He : matches _ Empty _ _ |- _ => inv He end.
  exists mthd, seg. rewrite app_nil_r.
  split; [reflexivity |]. split; [exact Hne |].
  split; [eapply Forall_impl; [exact Hup | intros a; apply cs_upper_mem] |].
  split; [exact Hsne |].
  eapply Forall_impl; [exact Hseg' | intros a; apply cs_nonslash_mem].
Qed.

Lemma users_re_complete k : users_key k → MatchString users_re k = true.
Proof.
  intros (mthd & seg & -> & Hne & Hup & Hsne & Hseg).
  eapply (MatchString_here _ _ [] [(1, seg)]).
  cbn [users_re re_prog]. rewrite m_begin, Nat.eqb_refl.
  change (m ?n (Cat (Plus true (Chr cs_upper)) ?r) accept ?s [])
    with (m n (Plus true (Chr cs_upper)) (m n r accept) s []).
  apply plus_greedy_all.
  - eapply Forall_impl; [exact Hup | intros a; apply cs_upper_mem].
  - exact Hne.
  - intros a t [= <- _]. reflexivity.
  - rewrite m_lits.
    change (m ?n (mk_concat [Cap 1 (Cat (Plus true (Chr cs_nonslash)) Empty); EndText])
              accept seg [])
      with (m n (Plus true (Chr cs_nonslash))
              (fun s' c' => m n (Cat EndText Empty) accept s' ((1, consumed seg s') :: c'))
              seg []).
    rewrite <- (app_nil_r seg) at 2.
    apply plus_greedy_all.
    + eapply Forall_impl; [exact Hseg | intros a; apply cs_nonslash_mem].
    + exact Hsne.
    + discriminate.
    + cbn beta. rewrite consumed_all. reflexivity.
Qed.

Lemma upper_not_space a : is_upper a → a ≠ " "%char.
Proof. intros [H _] ->. vm_compute in H. lia. Qed.

(** a key has one method part: the bytes before its first space *)
Lemma method_part_unique l1 : ∀ l2 x y,
  Forall is_upper l1 → Forall is_upper l2 →
  l1 ++ " "%char :: x = l2 ++ " "%char :: y → l1 = l2 ∧ x = y.
Proof.
  induction l1 as [| a l1 IH]; intros [| b l2] x y H1 H2 Heq; cbn in Heq.
  - injection Heq as ->. auto.
  - injection Heq as <- _. apply Forall_cons in H2 as [Hb _].
    exfalso. apply (upper_not_space _ Hb). reflexivity.
  - injection Heq as -> _. apply Forall_cons in H1 as [Ha _].
    exfalso. apply (upper_not_space _ Ha). reflexivity.
  - injection Heq as -> Heq.
    apply Forall_cons in H1 as [_ H1]. apply Forall_cons in H2 as [_ H2].
    destruct (IH l2 x y H1 H2 Heq) as [-> ->]. auto.
Qed.

Lemma users_key_doug mthd :
  mthd ≠ [] → Forall is_upper mthd → users_key (mthd ++ go:" /users/doug").
Proof.
  intros Hne Hup. exists mthd, go:"doug".
  split; [reflexivity |]. split; [exact Hne |]. split; [exact Hup |].
  split; [discriminate |]. repeat (constructor; [discriminate |]). constructor.
Qed.

Lemma users_key_extra mthd :
  Forall is_upper mthd → ¬ users_key (mthd ++ go:" /users/doug/extra").
Proof.
  intros Hup (m' & seg & Heq & _ & Hup' & _ & Hseg).
  apply (method_part_unique mthd m' go:"/users/doug/extra" (go:"/users/" ++ seg) Hup Hup')
    in Heq as [_ Heq].
  injection Heq as <-.
  apply (Forall_lookup_1 _ _ 4 "/"%char) in Hseg; [congruence | reflexivity].
Qed.

(** C7.  [ClearCache("/users/@name")] compiles [^[A-Z]+ /users/([^/]+)$] and
    deletes from the request cache exactly the keys made of an uppercase
    method, a space and a path [/users/<one segment>]: the entry of
    [/users/doug] goes, under any such method, the entry of
    [/users/doug/extra] stays. *)
Theorem C7_ClearCache_users (r : Router) :
  ∃ r', ClearCache go:"/users/@name" r = Some r' ∧
    (∀ k, users_key k → routeCache r' !! k = None) ∧
    (∀ k, ¬ users_key k → routeCache r' !! k = routeCache r !! k) ∧
    (∀ mthd, mthd ≠ [] → Forall is_upper mthd →
       routeCache r' !! (mthd ++ go:" /users/doug") = None) ∧
    (∀ mthd, Forall is_upper mthd →
       routeCache r' !! (mthd ++ go:" /users/doug/extra")
       = routeCache r !! (mthd ++ go:" /users/doug/extra")).
Proof.
  unfold ClearCache. rewrite (proj1 users_pattern), (proj2 users_pattern).
  cbn [mbind option_bind]. eexists. split; [reflexivity |].
  cbn [routeCache set_htmlCache set_routeCache].
  assert (Hdel : ∀ k, users_key k → deleteMatching users_re (routeCache r) !! k = None).
  { intros k Hk. rewrite deleteMatching_lookup, users_re_complete by exact Hk. reflexivity. }
  assert (Hkeep : ∀ k, ¬ users_key k →
            deleteMatching users_re (routeCache r) !! k = routeCache r !! k).
  { intros k Hk. rewrite deleteMatching_lookup.
    destruct (MatchString users_re k) eqn:Hm; [| reflexivity].
    exfalso. apply Hk, users_re_sound, Hm. }
  split; [exact Hdel |]. split; [exact Hkeep |]. split.
  - intros mthd Hne Hup. apply Hdel, users_key_doug; assumption.
  - intros mthd Hup. apply Hkeep, users_key_extra, Hup.
Qed.

Lemma C7_witness :
  let rt := route404 (NewRouter Scenario.env_empty) in
  let r := writeCache go:"GET /users/doug" rt
             (writeCache go:"GET /users/doug/extra" rt (NewRouter Scenario.env_empty)) in
  ∃ r', ClearCache go:"/users/@name" r = Some r' ∧
        routeCache r' !! go:"GET /users/doug" = None ∧
        routeCache r' !! go:"GET /users/doug/extra" = Some rt.
Proof.
  intros rt r.
  destruct (C7_ClearCache_users r) as (r' & Hr' & _ & _ & Hdoug & Hextra).
  exists r'. split; [exact Hr' |]. split.
  - apply (Hdoug go:"GET"); [discriminate |].
    repeat (constructor; [cbv; lia |]). constructor.
  - etransitivity; [apply (Hextra go:"GET") | vm_compute; reflexivity].
    repeat (constructor; [cbv; lia |]). constructor.
Defined.

(** *** Document-cache keys are out of reach of [ClearCache] *)

Lemma Contains_absent s c : Forall (fun a => a ≠ c) s → Contains s [c] = false.
Proof.
  induction 1 as [| a s Ha Hs IH]; [reflexivity |].
  cbn. rewrite IH, bool_decide_eq_false_2 by congruence. reflexivity.
Qed.

Lemma stripSlash_method_path p :
  ∃ q, stripSlash (go:"[A-Z]+ " ++ p) = go:"[A-Z]+ " ++ q ∧ (q = p ∨ ∃ x, p = q ++ [x]).
Proof.
  induction p as [| x p _] using rev_ind; [exists []; auto |].
  unfold stripSlash. destruct (_ && _); [| eauto].
  exists p. split; [| eauto].
  unfold dropLast. rewrite app_assoc, length_app. cbn [length].
  apply take_app_length'. lia.
Qed.

Lemma Compile_method_path q :
  Forall plain q →
  Compile (go:"^" ++ (go:"[A-Z]+ " ++ q) ++ go:"$") = inr (method_path_re q).
Proof.
  intros Hq. unfold Compile.
  change (parse_loop (go:"^" ++ (go:"[A-Z]+ " ++ q) ++ go:"$") pinit)
    with (parse_loop (q ++ go:"$")
            {| p_top := {| f_cap := None; f_alts := [];
                           f_cur := [Chr (cs_lit " "); Plus true (Chr cs_upper); BeginText] |};
               p_stack := []; p_ncap := 0; p_lastRepeat := false; p_cls := None |}).
  rewrite parse_lits by (reflexivity || assumption).
  unfold after_lits. cbn [p_top p_stack p_ncap f_cap f_alts f_cur].
  change (parse_loop go:"$" ?st) with (parse_loop [] (push EndText st)).
  cbn [parse_loop push p_cls p_stack p_top p_ncap f_cap f_alts f_cur frame_regex rev mk_alt].
  unfold method_path_re. f_equal. f_equal.
  rewrite rev_app_distr, rev_involutive. reflexivity.
Qed.

Lemma method_path_needs_upper q k :
  MatchString (method_path_re q) k = true → ∃ a t, k = a :: t ∧ is_upper a.
Proof.
  unfold MatchString. intros H. apply bool_decide_eq_true in H as [[[s0 s'] c] H].
  apply exec_sound in H as (pre & Hk & H).
  cbn [method_path_re re_prog] in H.
  inv H.
  match goal with Hb : matches _ BeginText _ _ |- _ => inv Hb end.
  assert (pre = []) as ->.
  { match goal with Hlen : length _ = length _ |- _ =>
      rewrite length_app in Hlen; destruct pre; [reflexivity | cbn in Hlen; lia] end. }
  cbn [app] in *.
  match goal with Hrest : matches _ (Cat _ _) _ _ |- _ => inv Hrest end.
  match goal with Hm : matches _ (Plus _ _) _ _ |- _ =>
    apply matches_plus_chr in Hm as (mthd & -> & Hne & Hup) end.
  destruct mthd as [| a mthd]; [contradiction |].
  apply Forall_cons in Hup as [Ha _].
  eexists a, _. split; [reflexivity | apply cs_upper_mem, Ha].
Qed.

(** X25.  For literal path text [p], [ClearCache p] succeeds and leaves in the
    document cache every key that does not begin with an uppercase letter.
    The keys of the document cache are request paths. *)
Lemma ClearCache_keeps_documents p r :
  Forall path_byte p →
  ∃ r', ClearCache p r = Some r' ∧
        ∀ k, (∀ a t, k = a :: t → ¬ is_upper a) → htmlCache r' !! k = htmlCache r !! k.
Proof.
  intros Hp. unfold ClearCache, parsePattern.
  destruct (stripSlash_method_path p) as (q & -> & Hq).
  assert (Hq' : Forall path_byte q).
  { destruct Hq as [-> | [x ->]]; [exact Hp |]. apply Forall_app in Hp as [Hp _]. exact Hp. }
  change go:"@" with ["@"%char]. rewrite Contains_absent.
  2:{ apply Forall_app. split; [repeat (constructor; [discriminate |]); constructor |].
      eapply Forall_impl; [exact Hq' | intros a [_ Ha]; exact Ha]. }
  unfold MustCompile.
  rewrite Compile_method_path by (eapply Forall_impl; [exact Hq' | intros a [Ha _]; exact Ha]).
  cbn [mbind option_bind]. eexists. split; [reflexivity |].
  intros k Hk. cbn [htmlCache set_htmlCache set_routeCache].
  rewrite deleteMatching_lookup.
  destruct (MatchString (method_path_re q) k) eqn:Hm; [| reflexivity].
  apply method_path_needs_upper in Hm as (a & t & -> & Ha).
  exfalso. exact (Hk a t eq_refl Ha).
Qed.

End Invalidation.

(** * Further properties *)

(** ** Requests no route answers *)

Section Fallback.

Variable sys : Sys.

Lemma scan_no_answer rs mthd url :
  Forall (fun rt => is_Some (pattern rt)) rs →
  no_answer rs mthd url → scan rs mthd url = Some None.
Proof.
  intros Hc Hno. destruct (scan_first rs mthd url Hc) as [(rt & _ & i & Hi & Ha & _) | [H _]].
  - exfalso. apply (Hno rt); [eapply list_elem_of_lookup_2, Hi | exact Ha].
  - exact H.
Qed.

(** X1.  A request that no route of either tier answers, dispatched without a
    usable cache entry, goes to the not-found route: if the dispatch returns,
    a 404 header has been sent, the request's key is cached on the not-found
    route, and both tiers are as they were. *)
Theorem unanswered_request_gets_404 (fuel : nat) (st st' : State) :
  compiled_tiers (router st) →
  no_answer (routes (router st)) (Method (request st)) (normalized st) →
  no_answer (lateRoutes (router st)) (Method (request st)) (normalized st) →
  routeCache (router st) !! cacheKey st = None ∨ noCache (router st) = true →
  ServeHTTP sys fuel st = Some st' →
  sent404 st st' ∧
  routeCache (router st') !! cacheKey st = Some (route404 (router st)) ∧
  routes (router st') = routes (router st) ∧
  lateRoutes (router st') = lateRoutes (router st).
Proof.
  intros [Hp Hl] Hno1 Hno2 Hmiss H.
  assert (Hres : resolve st = Some (Scanned (route404 (router st)))).
  { unfold resolve, resolve_scan.
    rewrite (scan_no_answer _ _ _ Hp Hno1), (scan_no_answer _ _ _ Hl Hno2). cbn.
    destruct Hmiss as [-> | ->]; [reflexivity |].
    destruct (routeCache _ !! _); reflexivity. }
  rewrite ServeHTTP_resolve, Hres in H. cbn in H.
  apply callRoute_step in H as [Hstep Hsent]. specialize (Hsent eq_refl).
  destruct Hstep as [Hr Hl' H4 _ _ Hc _]. cbn in *.
  split; [exact Hsent |]. split; [| auto].
  destruct (Hc (cacheKey st)) as [-> | ->]; [apply lookup_insert_eq | reflexivity].
Qed.

End Fallback.

Lemma unanswered_request_witness :
  let sys := Scenario.env_empty in
  let st := Scenario.request_of "GET" "/nowhere" (NewRouter sys) in
  ∃ st', ServeHTTP sys 2 st = Some st' ∧
         response st' = [WriteHeader StatusNotFound; Write go:"404 file not found"] ∧
         routeCache (router st') !! go:"GET /nowhere" = Some (route404 (NewRouter sys)).
Proof.
  intros sys st.
  destruct (ServeHTTP sys 2 st) as [st' |] eqn:H; [| vm_compute in H; discriminate].
  exists st'. split; [reflexivity |].
  split; [vm_compute in H; injection H as <-; reflexivity |].
  refine (proj1 (proj2 (unanswered_request_gets_404 sys 2 st st' _ _ _ _ H))).
  - split; constructor.
  - intros rt Hin. inversion Hin.
  - intros rt Hin. inversion Hin.
  - left. reflexivity.
Defined.

(** ** Stale entries of the request cache *)

(** X2.  [Set404] leaves the request cache alone.  On a fresh router with
    caching enabled, a path that was answered not-found stays cached on the
    old not-found route; after [Set404] the next dispatch of it runs that old
    route as an ordinary one: the stock text is written, no 404 header is
    sent, and the new callback is not run. *)
Theorem Set404_keeps_cached_fallback (sys : Sys) (cb : Callback) (mthd path : list ascii)
    (f1 f2 : nat) :
  noCache (NewRouter sys) = false →
  let st := {| router := NewRouter sys;
               request := {| Method := mthd; URLPath := path |}; response := [] |} in
  ∃ st1, ServeHTTP sys (S f1) st = Some st1 ∧
    response st1 = [WriteHeader StatusNotFound; Write go:"404 file not found"] ∧
    ServeHTTP sys (S f2)
      {| router := Set404 cb (router st1); request := request st; response := [] |}
    = Some {| router := Set404 cb (router st1);
              request := {| Method := mthd; URLPath := Path.Clean path |};
              response := [Write go:"404 file not found"] |}.
Proof.
  intros Hnc st. eexists. split; [reflexivity |]. split; [reflexivity |].
  rewrite ServeHTTP_eq. unfold cacheKey, normalized. cbn -[Path.Clean Getenv].
  rewrite lookup_insert_eq. cbn in Hnc. rewrite Hnc. reflexivity.
Qed.

Lemma Set404_keeps_cached_fallback_witness :
  let sys := Scenario.env_empty in
  let st := Scenario.request_of "GET" "/gone" (NewRouter sys) in
  ∃ st1, ServeHTTP sys 2 st = Some st1 ∧
    response <$> ServeHTTP sys 2
      (Scenario.request_of "GET" "/gone"
         (Set404 (Handler (fun _ _ => [AWrite go:"custom"])) (router st1)))
    = Some [Write go:"404 file not found"].
Proof.
  intros sys st.
  destruct (Set404_keeps_cached_fallback sys (Handler (fun _ _ => [AWrite go:"custom"]))
              go:"GET" go:"/gone" 1 1 eq_refl) as (st1 & H1 & _ & H2).
  exists st1. split; [exact H1 |].
  exact (f_equal (fmap response) H2).
Defined.

(** X3.  Registering a route changes neither cache.  With caching enabled, a
    key that was cached before the registration (a not-found answer
    included) still resolves to the cached route afterwards, whatever the new
    route matches. *)
Theorem createRoute_keeps_cached_resolution (str : list ascii) (cb : Callback)
    (mthd : list ascii) (late : bool) (r r' : Router) (req : Request) (rt : route) :
  createRoute str cb mthd late r = Some r' →
  noCache r = false →
  routeCache r !! cacheKey {| router := r; request := req; response := [] |} = Some rt →
  routeCache r' = routeCache r ∧ htmlCache r' = htmlCache r ∧
  ∀ resp,
    let st' := {| router := r'; request := req; response := resp |} in
    resolve st' = Some (Cached rt) ∧
    ∀ sys fuel, ServeHTTP sys fuel st'
                = callRoute sys fuel rt (normalized st') (set_URLPath (normalized st') st').
Proof.
  intros H Hnc Hk. unfold createRoute in H.
  destruct (parsePattern str) as [rx ps].
  destruct (MustCompile rx) as [re |]; [| discriminate]. cbn in H.
  assert (Hsame : routeCache r' = routeCache r ∧ htmlCache r' = htmlCache r
                  ∧ noCache r' = noCache r).
  { injection H as <-. destruct late, (logLevel r) as [| [| l]]; cbn; auto. }
  destruct Hsame as (Hc & Hh & Hn).
  split; [exact Hc |]. split; [exact Hh |].
  intros resp st'.
  assert (Hres : resolve st' = Some (Cached rt)).
  { unfold resolve. subst st'. cbn [router]. rewrite Hc.
    change (cacheKey {| router := r'; request := req; response := resp |})
      with (cacheKey {| router := r; request := req; response := [] |}).
    rewrite Hk, Hn, Hnc. reflexivity. }
  split; [exact Hres |]. intros sys fuel. rewrite ServeHTTP_resolve, Hres. reflexivity.
Qed.

Lemma createRoute_keeps_cached_resolution_witness :
  let sys := Scenario.env_empty in
  let r := writeCache go:"GET /new" (route404 (NewRouter sys)) (NewRouter sys) in
  ∃ r', GET go:"/new" (Handler (fun _ _ => [AWrite go:"new"])) r = Some r' ∧
        resolve (Scenario.request_of "GET" "/new" r') = Some (Cached (route404 (NewRouter sys))).
Proof.
  intros sys r.
  destruct (GET go:"/new" (Handler (fun _ _ => [AWrite go:"new"])) r) as [r' |] eqn:H;
    [| vm_compute in H; discriminate].
  exists r'. split; [reflexivity |].
  refine (proj1 (proj2 (proj2 (createRoute_keeps_cached_resolution _ _ _ _ r r'
            {| Method := go:"GET"; URLPath := go:"/new" |} (route404 (NewRouter sys))
            H eq_refl _)) [])).
  reflexivity.
Defined.

(** X4.  After [EmptyCache] every dispatch is resolved by scanning the tiers,
    which are unchanged, and a static document is parsed again instead of
    being read from the document cache. *)
Theorem EmptyCache_forgets (r : Router) (req : Request) (resp : list Event) :
  let st := {| router := EmptyCache r; request := req; response := resp |} in
  resolve st = resolve_scan st ∧
  (∀ x, resolve st = Some x → ∃ rt, x = Scanned rt) ∧
  routes (EmptyCache r) = routes r ∧ lateRoutes (EmptyCache r) = lateRoutes r ∧
  ∀ sys call fuel text dir,
    serveHTML sys call fuel true text dir st = parseAndServe sys call fuel true text dir st.
Proof.
  intros st.
  assert (H : resolve st = resolve_scan st).
  { unfold resolve. subst st. cbn. rewrite lookup_empty. reflexivity. }
  split; [exact H |]. split; [| split; [reflexivity | split; [reflexivity |]]].
  - intros x. rewrite H. unfold resolve_scan.
    destruct (scan (routes _) _ _) as [[rt |] |]; cbn; [intros [= <-]; eauto | | discriminate].
    destruct (scan (lateRoutes _) _ _) as [rt |]; cbn; [intros [= <-]; eauto | discriminate].
  - intros. unfold serveHTML. subst st. cbn. rewrite lookup_empty. reflexivity.
Qed.

(** ** What a dispatch never touches *)

(** X5.  A dispatch that returns leaves both tiers, both fallback routes and
    the cache switch unchanged and only appends to the response; a cache
    entry other than the request's own stays or is re-pointed at the
    not-found route. *)
Theorem ServeHTTP_keeps_tables (sys : Sys) (fuel : nat) (st st' : State) :
  ServeHTTP sys fuel st = Some st' →
  routes (router st') = routes (router st) ∧
  lateRoutes (router st') = lateRoutes (router st) ∧
  route404 (router st') = route404 (router st) ∧
  route500 (router st') = route500 (router st) ∧
  noCache (router st') = noCache (router st) ∧
  (∃ evs, response st' = response st ++ evs) ∧
  (∀ k, k ≠ cacheKey st →
     routeCache (router st') !! k = routeCache (router st) !! k
     ∨ routeCache (router st') !! k = Some (route404 (router st))).
Proof.
  rewrite ServeHTTP_resolve. destruct (resolve st) as [x |]; [| discriminate]. cbn.
  intros H. apply callRoute_step in H as [[Hr Hl H4 H5 Hn Hc (evs & Hevs & _)] _].
  destruct x as [rt | rt]; cbn in *; (repeat split; try assumption; [eauto |]);
    intros k Hk; destruct (Hc k) as [-> | ->]; auto.
  left. apply lookup_insert_ne. congruence.
Qed.

Lemma ServeHTTP_keeps_tables_witness :
  let sys := Scenario.disk [] in
  let st := Scenario.request_of "GET" "/y" Scenario.three_routes in
  ∃ st', ServeHTTP sys 3 st = Some st' ∧ routes (router st') = routes Scenario.three_routes.
Proof.
  intros sys st.
  destruct (ServeHTTP sys 3 st) as [st' |] eqn:H; [| vm_compute in H; discriminate].
  exists st'. split; [reflexivity |].
  exact (proj1 (ServeHTTP_keeps_tables sys 3 st st' H)).
Defined.

(** ** Signalling not-found from a callback *)

Lemma NotFound_cached sys f st st' :
  NotFound (callRoute sys f) st = Some st' →
  step st st' ∧ sent404 st st' ∧
  routeCache (router st')
    !! (Method (request st) ++ go:" " ++ Path.Clean (URLPath (request st)))
  = Some (route404 (router st)).
Proof.
  intros H. split; [eapply (NotFound_step (callRoute sys f) (callRoute_step sys f)), H |].
  unfold NotFound in H. apply callRoute_step in H as [Hstep Hsent].
  specialize (Hsent eq_refl). cbn in Hsent. split; [exact Hsent |].
  destruct Hstep as [_ _ _ _ _ Hc _]. cbn in Hc.
  match goal with |- ?m !! ?k = _ => destruct (Hc k) as [-> | ->] end;
    [apply lookup_insert_eq | reflexivity].
Qed.

(** X6.  When [d.NotFound()] returns, a 404 header has been sent; with caching
    enabled, every later request of the same method whose path cleans to the
    same string is a cache hit on the not-found route. *)
Theorem NotFound_repoints_request (sys : Sys) (f : nat) (st st' : State) :
  NotFound (callRoute sys f) st = Some st' →
  noCache (router st) = false →
  sent404 st st' ∧
  ∀ req resp,
    Method req = Method (request st) →
    Path.Clean (URLPath req) = Path.Clean (URLPath (request st)) →
    resolve {| router := router st'; request := req; response := resp |}
    = Some (Cached (route404 (router st))).
Proof.
  intros H Hnc. apply NotFound_cached in H as (Hstep & Hsent & Hk).
  split; [exact Hsent |]. intros req resp Hm Hp.
  unfold resolve, cacheKey, normalized. cbn [router request]. rewrite Hm, Hp, Hk.
  rewrite (step_noCache _ _ Hstep), Hnc. reflexivity.
Qed.

Lemma NotFound_repoints_request_witness :
  let sys := Scenario.disk [] in
  let st := Scenario.request_of "GET" "/y" Scenario.three_routes in
  ∃ st', NotFound (callRoute sys 1) st = Some st' ∧
         addr <$> (resolved <$> resolve (Scenario.request_of "GET" "/y/" (router st')))
         = Some 0.
Proof.
  intros sys st.
  destruct (NotFound (callRoute sys 1) st) as [st' |] eqn:H; [| vm_compute in H; discriminate].
  exists st'. split; [reflexivity |].
  unfold Scenario.request_of.
  rewrite (proj2 (NotFound_repoints_request sys 1 st st' H eq_refl)
             {| Method := go:"GET"; URLPath := go:"/y/" |} [] eq_refl eq_refl).
  reflexivity.
Defined.

(** ** Capture groups without a name *)

Lemma allMatches_length re text : ∀ fuel pos prev mt,
  mt ∈ allMatches fuel re text pos prev → length mt = S (re_ncap re).
Proof.
  induction fuel as [| f IH]; intros pos prev mt; cbn [allMatches].
  - intros H. inversion H.
  - destruct (length text <? pos); [intros H; inversion H |].
    destruct (exec _ _ _) as [[[s s'] c] |]; [| intros H; inversion H].
    cbv zeta. destruct (negb _).
    + intros [-> | H]%elem_of_cons; [| eapply IH, H].
      unfold submatches. cbn [length]. rewrite length_map, length_seq. reflexivity.
    + apply IH.
Qed.

Lemma FindAll_first re url :
  MatchString re url = true → is_Some (FindAllStringSubmatch re url !! 0).
Proof.
  unfold MatchString, FindAllStringSubmatch. intros H%bool_decide_eq_true.
  destruct H as [[[s s'] c] H]. cbn [allMatches].
  change (length url <? 0) with false. change (drop 0 url) with url. rewrite H. cbv zeta.
  replace (bool_decide (Some (length url - length s) = None)) with false
    by (symmetry; apply bool_decide_eq_false; discriminate).
  rewrite andb_false_r. cbn [negb]. eauto.
Qed.

Lemma bindParams_short names : ∀ vals num p,
  vals ≠ [] → length names < num + length vals → bindParams names num vals p = None.
Proof.
  induction vals as [| v vals IH]; intros num p Hne Hlen; [contradiction |].
  cbn [bindParams]. destruct (names !! num) as [name |] eqn:Hn; [| reflexivity].
  cbn [mbind option_bind]. apply lookup_lt_Some in Hn.
  apply IH; [| cbn in Hlen; lia].
  intros ->. cbn in Hlen. lia.
Qed.

(** X7.  A route with at least one parameter name whose pattern has more
    capture groups than names (a parenthesis in the registered pattern)
    cannot be run on a url it matches: binding the captures indexes past the
    names, and [callRoute] never returns. *)
Theorem routeParams_unnamed_group (rt : route) (re : Regexp) (url : list ascii) :
  pattern rt = Some re →
  params rt ≠ [] →
  length (params rt) < re_ncap re →
  MatchString re url = true →
  routeParams rt url = None ∧ ∀ sys fuel st, callRoute sys fuel rt url st = None.
Proof.
  intros Hp Hne Hlen Hm.
  assert (H : routeParams rt url = None).
  { unfold routeParams. destruct (params rt) as [| n ns] eqn:Hps; [contradiction |].
    cbn [length Nat.ltb Nat.leb]. rewrite Hp. cbn [mbind option_bind].
    destruct (FindAll_first re url Hm) as [mt Hmt]. rewrite Hmt. cbn [mbind option_bind].
    assert (Hl : length mt = S (re_ncap re)).
    { eapply allMatches_length, list_elem_of_lookup_2, Hmt. }
    apply bindParams_short.
    - intros Hd. apply (f_equal length) in Hd. rewrite length_drop in Hd. cbn in Hd. lia.
    - rewrite length_drop. cbn [length] in *. lia. }
  split; [exact H |]. intros sys [| f] st; [reflexivity |].
  cbn [callRoute]. rewrite H. reflexivity.
Qed.

Lemma routeParams_unnamed_group_witness :
  ∃ r rt, GET go:"/(a|b)/@id" (Handler (fun _ _ => [])) (NewRouter Scenario.env_empty) = Some r ∧
          routes r = [rt] ∧ params rt = [go:"id"] ∧
          scan (routes r) go:"GET" go:"/a/7" = Some (Some rt) ∧
          routeParams rt go:"/a/7" = None.
Proof.
  do 2 eexists. split; [vm_compute; reflexivity |].
  split; [reflexivity |]. split; [reflexivity |]. split; [vm_compute; reflexivity |].
  eapply proj1, routeParams_unnamed_group.
  - reflexivity.
  - discriminate.
  - cbn. lia.
  - vm_compute. reflexivity.
Defined.

(** ** Removing routes: what is kept *)

Section Removal.

Variable str : list ascii.

Lemma RemoveRoute_loop_pass r rest : ∀ seg front todo,
  Forall (passes_over str) seg →
  RemoveRoute_loop str (length seg + todo) (length front) (front ++ seg ++ rest) r
  = RemoveRoute_loop str todo (length front + length seg) (front ++ seg ++ rest) r.
Proof.
  induction seg as [| x seg IH]; intros front todo Hseg.
  - cbn. rewrite Nat.add_0_r. reflexivity.
  - apply Forall_cons in Hseg as [(re & Hx & Hno) Hseg].
    cbn [length Nat.add app]. rewrite RemoveRoute_loop_S.
    rewrite (list_lookup_middle front (seg ++ rest) x (length front) eq_refl).
    cbn [mbind option_bind]. rewrite Hx. cbn [mbind option_bind]. rewrite Hno.
    replace (S (length front)) with (length (front ++ [x])) by (rewrite length_app; cbn; lia).
    change (front ++ x :: seg ++ rest) with (front ++ [x] ++ seg ++ rest).
    rewrite (app_assoc front [x]), IH by exact Hseg.
    rewrite length_app. cbn [length].
    replace (length front + S (length seg)) with (length front + 1 + length seg) by lia.
    reflexivity.
Qed.

(** X8.  [RemoveRoute] with a path that no primary route matches changes
    nothing: no route is removed and no cache entry is cleared. *)
Theorem RemoveRoute_no_match (r : Router) :
  Forall (passes_over str) (routes r) → RemoveRoute str r = Some r.
Proof.
  intros H. unfold RemoveRoute.
  pose proof (RemoveRoute_loop_pass r [] (routes r) [] 0 H) as Hp.
  rewrite Nat.add_0_r, app_nil_r in Hp. cbn [app length] in Hp. rewrite Hp. reflexivity.
Qed.

(** X9.  If exactly one primary route matches the path, [RemoveRoute] removes
    it, keeps the others in order and clears the cache once: its result is
    that of [ClearCache] on the router without that route. *)
Theorem RemoveRoute_single_match (r : Router) (pre post : list route) (a : route)
    (re : Regexp) :
  routes r = pre ++ a :: post →
  Forall (passes_over str) pre → Forall (passes_over str) post →
  pattern a = Some re → MatchString re str = true →
  RemoveRoute str r = ClearCache str (set_routes (pre ++ post) r).
Proof.
  intros Hroutes Hpre Hpost Ha Hmatch. unfold RemoveRoute. rewrite Hroutes.
  replace (length (pre ++ a :: post)) with (length pre + S (length post))
    by (rewrite length_app; cbn; lia).
  rewrite (RemoveRoute_loop_pass r (a :: post) pre [] _ Hpre).
  cbn [length Nat.add app]. rewrite RemoveRoute_loop_S.
  rewrite (list_lookup_middle pre post a (length pre) eq_refl).
  cbn [mbind option_bind]. rewrite Ha. cbn [mbind option_bind]. rewrite Hmatch, Hroutes.
  assert (Hlen : length (pre ++ a :: post) = length pre + S (length post)).
  { rewrite length_app. reflexivity. }
  destruct (Nat.ltb_spec (length (pre ++ a :: post)) (length pre + 1)) as [Hlt | _]; [lia |].
  cbv zeta.
  rewrite take_app_length.
  rewrite (take_ge (pre ++ a :: post)) by lia.
  rewrite (drop_app_add pre (a :: post) 1). cbn [drop].
  rewrite Hlen. replace (length pre + S (length post) - 1) with (length (pre ++ post))
    by (rewrite length_app; lia).
  rewrite (app_assoc pre post), take_app_length.
  destruct (ClearCache str (set_routes (pre ++ post) r)) as [r1 |]; [| reflexivity].
  cbn [mbind option_bind].
  destruct post as [| p0 q]; [reflexivity |].
  assert (Hl : ∃ l, drop (length (pre ++ p0 :: q)) (pre ++ a :: p0 :: q) = [l]
                    ∧ passes_over str l) .
  { rewrite length_app. rewrite (drop_app_add pre (a :: p0 :: q)). cbn [length drop].
    clear -Hpost. revert p0 Hpost. induction q as [| x q IH]; intros p0 Hpost.
    - exists p0. split; [reflexivity |]. apply Forall_cons in Hpost as [H _]. exact H.
    - apply Forall_cons in Hpost as [_ Hpost]. apply (IH x Hpost). }
  destruct Hl as (l & -> & Hl).
  apply Forall_cons in Hpost as [_ Hq].
  replace (S (length pre)) with (length (pre ++ [p0])) by (rewrite length_app; cbn; lia).
  replace ((pre ++ p0 :: q) ++ [l]) with ((pre ++ [p0]) ++ (q ++ [l]) ++ [])
    by (rewrite app_nil_r, <- !app_assoc; reflexivity).
  pose proof (RemoveRoute_loop_pass r1 [] (q ++ [l]) (pre ++ [p0]) 0) as Hp.
  rewrite Nat.add_0_r, length_app in Hp. cbn [length] in Hp.
  replace (length q + 1) with (S (length q)) in Hp by lia.
  cbn [length]. rewrite Hp; [reflexivity |].
  apply Forall_app. split; [exact Hq | constructor; [exact Hl | constructor]].
Qed.

Lemma ClearCache_frame r r' :
  ClearCache str r = Some r' →
  routes r' = routes r ∧ lateRoutes r' = lateRoutes r ∧
  route404 r' = route404 r ∧ route500 r' = route500 r ∧ noCache r' = noCache r.
Proof.
  unfold ClearCache. destruct (parsePattern _) as [rx ps].
  destruct (MustCompile rx); [| discriminate]. intros [= <-]. auto.
Qed.

Lemma RemoveRoute_loop_sublist : ∀ todo i arr r r',
  routes r = take (length (routes r)) arr →
  RemoveRoute_loop str todo i arr r = Some r' →
  routes r' `sublist_of` routes r ∧ lateRoutes r' = lateRoutes r ∧
  route404 r' = route404 r ∧ route500 r' = route500 r ∧ noCache r' = noCache r.
Proof.
  induction todo as [| todo IH]; intros i arr r r' Hview; cbn [RemoveRoute_loop].
  - intros [= <-]. auto.
  - destruct (arr !! i) as [rt |]; [| discriminate]. cbn [mbind option_bind].
    destruct (pattern rt) as [re |]; [| discriminate]. cbn [mbind option_bind].
    destruct (MatchString re str); [| apply IH; assumption].
    destruct (Nat.ltb_spec (length (routes r)) (i + 1)) as [? | Hi]; [discriminate |].
    set (len := length (routes r)) in *.
    set (arr' := take i arr ++ drop (i + 1) (take len arr) ++ drop (len - 1) arr).
    destruct (ClearCache str (set_routes (take (len - 1) arr') r)) as [r1 |] eqn:Hclear;
      [| discriminate].
    cbn [mbind option_bind].
    apply ClearCache_frame in Hclear as (Hr & Hl & H4 & H5 & Hn).
    cbn [routes lateRoutes route404 route500 noCache set_routes] in Hr, Hl, H4, H5, Hn.
    assert (Harr : len ≤ length arr).
    { pose proof (f_equal length Hview) as Hlen. rewrite length_take in Hlen.
      fold len in Hlen. lia. }
    assert (Hvis : take (len - 1) arr' = take i (routes r) ++ drop (i + 1) (routes r)).
    { subst arr'. rewrite Hview. fold len. rewrite take_take, Nat.min_l by lia.
      rewrite app_assoc. apply take_app_length'.
      rewrite length_app, length_drop, !length_take. lia. }
    intros H. apply IH in H.
    + destruct H as (Hs & -> & -> & -> & ->). repeat split; try assumption.
      etransitivity; [exact Hs |]. rewrite Hr, Hvis.
      rewrite <- (take_drop i (routes r)) at 3.
      apply sublist_app; [reflexivity |].
      rewrite <- drop_drop. apply sublist_drop.
    + rewrite Hr, length_take, Nat.min_l; [reflexivity |].
      subst arr'. rewrite !length_app, !length_drop, !length_take. lia.
Qed.

(** X10.  When [RemoveRoute] returns, the primary tier is a sublist of what it
    was, and the late tier, both fallback routes and the cache switch are
    unchanged. *)
Theorem RemoveRoute_only_removes (r r' : Router) :
  RemoveRoute str r = Some r' →
  routes r' `sublist_of` routes r ∧ lateRoutes r' = lateRoutes r ∧
  route404 r' = route404 r ∧ route500 r' = route500 r ∧ noCache r' = noCache r.
Proof.
  apply RemoveRoute_loop_sublist. rewrite firstn_all. reflexivity.
Qed.

End Removal.

Lemma RemoveRoute_no_match_witness :
  RemoveRoute go:"/z" Scenario.three_routes = Some Scenario.three_routes.
Proof.
  apply RemoveRoute_no_match.
  remember (routes Scenario.three_routes) as rs eqn:E. vm_compute in E. subst rs.
  repeat (constructor; [eexists; split; [reflexivity | vm_compute; reflexivity] |]).
  constructor.
Defined.

Lemma RemoveRoute_single_match_witness :
  ∃ r', RemoveRoute go:"/y" Scenario.three_routes = Some r' ∧ map addr (routes r') = [2; 3].
Proof.
  assert (E : ∃ r1 r2 r3 re,
             routes Scenario.three_routes = [r1; r2] ++ r3 :: [] ∧
             passes_over go:"/y" r1 ∧ passes_over go:"/y" r2 ∧
             pattern r3 = Some re ∧ MatchString re go:"/y" = true ∧
             map addr [r1; r2] = [2; 3]).
  { do 4 eexists. split; [vm_compute; reflexivity |].
    split; [eexists; split; [reflexivity | vm_compute; reflexivity] |].
    split; [eexists; split; [reflexivity | vm_compute; reflexivity] |].
    split; [reflexivity |]. split; [vm_compute; reflexivity | reflexivity]. }
  destruct E as (r1 & r2 & r3 & re & E & H1 & H2 & H3 & H4 & H5).
  pose proof (RemoveRoute_single_match go:"/y" Scenario.three_routes [r1; r2] [] r3 re E
                (Forall_cons_2 _ _ _ H1 (Forall_cons_2 _ _ _ H2 (Forall_nil_2 _)))
                (Forall_nil_2 _) H3 H4) as H.
  destruct (ClearCache go:"/y" (set_routes ([r1; r2] ++ []) Scenario.three_routes))
    as [r' |] eqn:Hc; [| vm_compute in Hc; discriminate].
  exists r'. split; [exact H |].
  apply ClearCache_routes in Hc. rewrite Hc. exact H5.
Defined.

Lemma RemoveRoute_only_removes_witness :
  ∃ r', RemoveRoute go:"/x" Scenario.three_routes = Some r' ∧
        lateRoutes r' = lateRoutes Scenario.three_routes.
Proof.
  destruct (RemoveRoute go:"/x" Scenario.three_routes) as [r' |] eqn:H;
    [| vm_compute in H; discriminate].
  exists r'. split; [reflexivity |].
  exact (proj1 (proj2 (RemoveRoute_only_removes go:"/x" _ r' H))).
Defined.

Lemma RemoveRoute_skips_next_witness :
  ∃ r', RemoveRoute go:"/x" Scenario.three_routes = Some r' ∧
        addr <$> routes r' !! 0 = Some 3.
Proof.
  destruct (RemoveRoute go:"/x" Scenario.three_routes) as [r' |] eqn:H;
    [| vm_compute in H; discriminate].
  exists r'. split; [reflexivity |].
  assert (E : ∃ a b c re,
             routes Scenario.three_routes = [] ++ a :: b :: [c] ∧
             pattern a = Some re ∧ MatchString re go:"/x" = true ∧ addr b = 3).
  { do 4 eexists. split; [vm_compute; reflexivity |].
    split; [reflexivity |]. split; [vm_compute; reflexivity | reflexivity]. }
  destruct E as (a & b & c & re & E & Ha & Hm & Hb).
  pose proof (RemoveRoute_skips_next go:"/x" Scenario.three_routes r' [] a b [c] re
                E (Forall_nil_2 _) Ha Hm H) as Hk.
  cbn [length] in Hk. rewrite Hk. cbn. rewrite Hb. reflexivity.
Defined.

(** ** Markup without directives *)

Section Plain.

Import RegexpFacts.

Lemma starts_with_fail n : ∀ l r k s c,
  starts_with r l = true → HasPrefix s l = false → m n r k s c = None.
Proof.
  induction l as [| a l IH]; intros r k s c Hr Hs; [destruct s; discriminate |].
  destruct r as [| | [| cs | | | | | | | |] r' | | | | | | |]; try discriminate.
  cbn [starts_with] in Hr.
  apply andb_true_iff in Hr as [[Hneg Hrs]%andb_true_iff Hr'].
  apply bool_decide_eq_true in Hrs. apply negb_true_iff in Hneg.
  assert (cs = cs_lit a) as -> by (destruct cs; cbn in *; subst; reflexivity).
  destruct s as [| d s]; [reflexivity |].
  change (m n (Cat (Chr (cs_lit a)) r') k (d :: s) c)
    with (if cs_mem (cs_lit a) d then m n r' k s c else None).
  rewrite cs_lit_mem. cbn [HasPrefix] in Hs.
  destruct (bool_decide (a = d)); [| reflexivity].
  apply IH; assumption.
Qed.

Lemma exec_absent n r l : ∀ s,
  starts_with r l = true → l ≠ [] → Contains s l = false → exec n r s = None.
Proof.
  intros s Hr Hl. induction s as [| a s IH]; intros Hs.
  - cbn [exec]. rewrite (starts_with_fail n l r); [reflexivity | exact Hr |].
    destruct l; [contradiction | reflexivity].
  - cbn [Contains] in Hs. apply orb_false_iff in Hs as [Hp Hs].
    cbn [exec]. rewrite (starts_with_fail n l r) by assumption. apply IH, Hs.
Qed.

Lemma FindAll_absent re l text :
  starts_with (re_prog re) l = true → l ≠ [] → Contains text l = false →
  FindAllStringSubmatch re text = [].
Proof.
  intros Hr Hl Hs. unfold FindAllStringSubmatch. cbn [allMatches].
  change (length text <? 0) with false. change (drop 0 text) with text.
  rewrite (exec_absent _ _ l) by assumption. reflexivity.
Qed.

Lemma parseHTML_S sys f str dir :
  parseHTML sys (S f) str dir =
  match include_loop sys (parseHTML sys f) dir (FindAllStringSubmatch include_re str) str with
  | None => None
  | Some (inl err) => Some (inl err)
  | Some (inr str) =>
      Some (inr (fold_left (conditional_step sys) (FindAllStringSubmatch conditional_re str) str))
  end.
Proof. reflexivity. Qed.

Lemma parseHTML_plain sys f str dir :
  Contains str comment_open = false → parseHTML sys (S f) str dir = Some (inr str).
Proof.
  intros H. rewrite parseHTML_S.
  rewrite (FindAll_absent include_re comment_open str); [| reflexivity | discriminate | exact H].
  cbn [include_loop].
  rewrite (FindAll_absent conditional_re comment_open str);
    [| reflexivity | discriminate | exact H].
  reflexivity.
Qed.

(** X12.  Markup that nowhere contains the comment opener passes the
    preprocessor unchanged, whatever the disk and the environment hold, and
    is written as it is when served as dynamic markup. *)
Theorem markup_without_directives_is_unchanged (sys : Sys)
    (call : route → list ascii → State → option State) (f : nat) (str dir : list ascii)
    (st : State) :
  Contains str comment_open = false →
  parseHTML sys (S f) str dir = Some (inr str) ∧
  serveHTML sys call (S f) false str dir st = Some (emit (Write str) st).
Proof.
  intros H. split; [apply parseHTML_plain, H |].
  unfold serveHTML, parseAndServe. rewrite parseHTML_plain by exact H. reflexivity.
Qed.

End Plain.

Lemma markup_without_directives_witness :
  parseHTML Scenario.env_empty 1 go:"<p>hi -- there</p>" go:"/" = Some (inr go:"<p>hi -- there</p>").
Proof.
  exact (proj1 (markup_without_directives_is_unchanged Scenario.env_empty (fun _ _ _ => None) 0
                  go:"<p>hi -- there</p>" go:"/"
                  {| router := NewRouter Scenario.env_empty;
                     request := {| Method := []; URLPath := [] |}; response := [] |}
                  eq_refl)).
Defined.

(** ** Nested includes *)

Section Includes.

Variable sys : Sys.

Lemma FindAll_including_a :
  FindAllStringSubmatch include_re (Pages.including "sub/a.html")
  = [[Pages.including "sub/a.html"; go:"sub/a.html"]].
Proof. vm_compute. reflexivity. Qed.

Lemma FindAll_including_b :
  FindAllStringSubmatch include_re (Pages.including "b.html")
  = [[Pages.including "b.html"; go:"b.html"]].
Proof. vm_compute. reflexivity. Qed.

Lemma Replace1_whole s new : s ≠ [] → Replace1 s s new = new.
Proof.
  intros Hs. destruct s as [| a s]; [contradiction |].
  assert (H : ∀ l : list ascii, HasPrefix l l = true).
  { induction l as [| x l IH]; cbn; [reflexivity |].
    rewrite bool_decide_eq_true_2 by reflexivity. exact IH. }
  cbn [Replace1]. rewrite H, drop_all. apply app_nil_r.
Qed.

(** X13.  An include inside an included file is resolved against the directory
    of the including file: [site/sub/a.html] including [b.html] reads
    [site/sub/b.html].  If that file is missing, the page fails with an
    unreadable-include error that names this path. *)
Theorem include_is_relative_to_including_file :
  files sys !! go:"site/sub/a.html" = Some (File (Pages.including "b.html")) →
  (∀ body f,
     files sys !! go:"site/sub/b.html" = Some (File body) →
     Contains body comment_open = false →
     parseHTML sys (S (S (S f))) (Pages.including "sub/a.html") go:"site" = Some (inr body)) ∧
  (∀ f,
     files sys !! go:"site/sub/b.html" = None →
     parseHTML sys (S (S f)) (Pages.including "sub/a.html") go:"site"
     = Some (inl (errorString
                    go:"unreadable include open site/sub/b.html: no such file or directory"))).
Proof.
  intros Ha.
  assert (Hread_a : readHTMLFile sys (Path.Join [go:"site"; go:"sub/a.html"])
                    = inr (Pages.including "b.html")).
  { unfold readHTMLFile, ReadFile.
    change (TrimPrefix (Path.Join [go:"site"; go:"sub/a.html"]) go:"/")
      with go:"site/sub/a.html".
    rewrite Ha. reflexivity. }
  assert (Hdir : Path.Join [go:"site"; Path.Dir go:"sub/a.html"] = go:"site/sub")
    by (vm_compute; reflexivity).
  assert (Hfn_b : TrimPrefix (Path.Join [go:"site/sub"; go:"b.html"]) go:"/"
                  = go:"site/sub/b.html") by (vm_compute; reflexivity).
  assert (Hdir_b : Path.Join [go:"site/sub"; Path.Dir go:"b.html"] = go:"site/sub")
    by (vm_compute; reflexivity).
  split.
  - intros body f Hb Hplain.
    assert (Hinner : parseHTML sys (S (S f)) (Pages.including "b.html") go:"site/sub"
                     = Some (inr body)).
    { rewrite parseHTML_S, FindAll_including_b. cbn [include_loop].
      change (sub [Pages.including "b.html"; go:"b.html"] 1) with go:"b.html".
      change (sub [Pages.including "b.html"; go:"b.html"] 0) with (Pages.including "b.html").
      unfold readHTMLFile, ReadFile. rewrite Hfn_b, Hb, Hdir_b.
      rewrite parseHTML_plain by exact Hplain.
      rewrite Replace1_whole by discriminate.
      rewrite (FindAll_absent conditional_re comment_open body);
        [reflexivity | reflexivity | discriminate | exact Hplain]. }
    rewrite parseHTML_S, FindAll_including_a. cbn [include_loop].
    change (sub [Pages.including "sub/a.html"; go:"sub/a.html"] 1) with go:"sub/a.html".
    change (sub [Pages.including "sub/a.html"; go:"sub/a.html"] 0)
      with (Pages.including "sub/a.html").
    rewrite Hread_a, Hdir, Hinner.
    rewrite Replace1_whole by discriminate.
    rewrite (FindAll_absent conditional_re comment_open body);
      [reflexivity | reflexivity | discriminate | exact Hplain].
  - intros f Hb.
    rewrite parseHTML_S, FindAll_including_a. cbn [include_loop].
    change (sub [Pages.including "sub/a.html"; go:"sub/a.html"] 1) with go:"sub/a.html".
    rewrite Hread_a, Hdir.
    rewrite parseHTML_S, FindAll_including_b. cbn [include_loop].
    change (sub [Pages.including "b.html"; go:"b.html"] 1) with go:"b.html".
    unfold readHTMLFile at 1, ReadFile. rewrite Hfn_b, Hb. reflexivity.
Qed.

End Includes.

Lemma include_is_relative_witness :
  let sys := {| files := {[ go:"site/sub/a.html" := File (Pages.including "b.html");
                            go:"site/sub/b.html" := File go:"<p>b</p>";
                            go:"site/b.html" := File go:"<p>wrong</p>" ]};
                environ := ∅ |} in
  parseHTML sys 3 (Pages.including "sub/a.html") go:"site" = Some (inr go:"<p>b</p>").
Proof.
  intros sys.
  exact (proj1 (include_is_relative_to_including_file sys eq_refl) go:"<p>b</p>" 0
           eq_refl eq_refl).
Defined.

Lemma FindAll_including_loop :
  FindAllStringSubmatch include_re (Pages.including "loop.html")
  = [[Pages.including "loop.html"; go:"loop.html"]].
Proof. vm_compute. reflexivity. Qed.

(** X14.  A page is never resolved when its first include tag names a file
    that holds the page's own text and the directory of that file is the
    page's directory again, as for a file that includes itself by its name:
    the recursion does not end, whatever depth is allowed. *)
Theorem self_include_never_returns (sys : Sys) (text dir : list ascii)
    (mt : list (list ascii)) (rest : list (list (list ascii))) :
  FindAllStringSubmatch include_re text = mt :: rest →
  readHTMLFile sys (Path.Join [dir; sub mt 1]) = inr text →
  Path.Join [dir; Path.Dir (sub mt 1)] = dir →
  ∀ fuel, parseHTML sys fuel text dir = None.
Proof.
  intros Hfind Hread Hdir fuel. induction fuel as [| f IH]; [reflexivity |].
  rewrite parseHTML_S, Hfind. cbn [include_loop]. rewrite Hread, Hdir, IH. reflexivity.
Qed.

Lemma self_include_witness :
  let sys := {| files := {[ go:"site/loop.html" := File (Pages.including "loop.html") ]};
                environ := ∅ |} in
  parseHTML sys 5 (Pages.including "loop.html") go:"site" = None.
Proof.
  intros sys.
  apply (self_include_never_returns sys (Pages.including "loop.html") go:"site"
           [Pages.including "loop.html"; go:"loop.html"] []).
  - exact FindAll_including_loop.
  - reflexivity.
  - reflexivity.
Defined.

(** ** The document cache *)



(** X17.  [StaticFile] caches its document under the base name of the file.
    With caching enabled, once one html file has been served, the callback of
    another html file with the same base name writes the text of the first,
    whatever its own file holds. *)
Theorem StaticFile_cache_key_is_base_name (sys : Sys)
    (call : route → list ascii → State → option State) (fuel : nat)
    (fn1 fn2 body1 body2 str1 : list ascii) (st : State) :
  htmlDisabled (router st) = false →
  noCache (router st) = false →
  HasSuffix fn1 go:".html" = true →
  HasSuffix fn2 go:".html" = true →
  Path.Base fn2 = Path.Base fn1 →
  htmlCache (router st) !! Path.Base fn1 = None →
  readHTMLFile sys (Path.Join [Path.Dir fn1; Path.Base fn1]) = inr body1 →
  parseHTML sys fuel body1 (Path.Dir fn1) = Some (inr str1) →
  readHTMLFile sys (Path.Join [Path.Dir fn2; Path.Base fn2]) = inr body2 →
  ∃ st1,
    StaticFile_body sys call fuel fn1 st = Some st1 ∧
    response st1 = response st ++ [Write str1] ∧
    ∀ req resp,
      StaticFile_body sys call fuel fn2
        {| router := router st1; request := req; response := resp |}
      = Some {| router := router st1;
                request := {| Method := Method req; URLPath := Path.Base fn2 |};
                response := resp ++ [Write str1] |}.
Proof.
  intros Hhtml Hnc Hs1 Hs2 Hbase Hmiss Hr1 Hp1 Hr2. eexists. split.
  { unfold StaticFile_body. rewrite Hhtml, Hs1. cbn [negb andb].
    unfold serveHTMLStatic. cbn [URLPath request set_URLPath]. rewrite Hr1.
    unfold serveHTML, parseAndServe. cbn [URLPath request set_URLPath router].
    rewrite Hmiss, Hp1. reflexivity. }
  cbn. split; [reflexivity |]. intros req resp.
  unfold StaticFile_body.
  cbn [router request response URLPath Method set_URLPath with_router emit set_htmlCache
       htmlDisabled noCache htmlCache].
  rewrite Hhtml, Hs2. cbn [negb andb].
  unfold serveHTMLStatic. rewrite Hr2. unfold serveHTML.
  cbn [router request response URLPath Method set_URLPath with_router emit set_htmlCache
       htmlDisabled noCache htmlCache].
  rewrite Hbase, lookup_insert_eq, Hnc. reflexivity.
Qed.

Lemma StaticFile_cache_key_witness :
  let sys := {| files := {[ go:"en/index.html" := File go:"hello";
                            go:"fr/index.html" := File go:"salut" ]};
                environ := ∅ |} in
  let call := callRoute sys 1 in
  ∃ st1,
    StaticFile_body sys call 1 go:"en/index.html"
      (Scenario.request_of "GET" "/en" (NewRouter sys)) = Some st1 ∧
    response <$> StaticFile_body sys call 1 go:"fr/index.html"
                   (Scenario.request_of "GET" "/fr" (router st1))
    = Some [Write go:"hello"].
Proof.
  intros sys call.
  destruct (StaticFile_cache_key_is_base_name sys call 1 go:"en/index.html" go:"fr/index.html"
              go:"hello" go:"salut" go:"hello"
              (Scenario.request_of "GET" "/en" (NewRouter sys))
              eq_refl eq_refl eq_refl eq_refl eq_refl eq_refl eq_refl eq_refl eq_refl)
    as (st1 & H1 & _ & H2).
  exists st1. split; [exact H1 |].
  unfold Scenario.request_of. rewrite H2. reflexivity.
Defined.

(** ** Files that are not there *)

(** X18.  A file missing under [StaticDir]: with the preprocessor enabled and a
    path ending in [.html] the closure signals a server error (unreadable
    static include); otherwise it signals not-found, which sends a 404 header
    and caches the not-found route under the method and the path relative
    to the mount, not the requested path. *)
Theorem StaticDir_missing_file (sys : Sys) (f fuel : nat) (dir p : list ascii) (d : Data)
    (st : State) :
  d_Params d !! go:"path" = Some p →
  files sys !! Path.Join [dir; go:"/" ++ p; go:"index.html"] = None →
  files sys !! Path.Join [dir; go:"/" ++ p] = None →
  files sys !! TrimPrefix (Path.Join [dir; go:"/" ++ p]) go:"/" = None →
  let st1 := set_URLPath (go:"/" ++ p) st in
  if negb (htmlDisabled (router st)) && HasSuffix (go:"/" ++ p) go:".html"
  then StaticDir_body sys (callRoute sys f) fuel dir d st
       = Error (callRoute sys f)
           (Errorf_s go:"unreadable static include "
              (PathError go:"open" (TrimPrefix (Path.Join [dir; go:"/" ++ p]) go:"/") ENOENT))
           st1
  else StaticDir_body sys (callRoute sys f) fuel dir d st = NotFound (callRoute sys f) st1 ∧
       ∀ st', StaticDir_body sys (callRoute sys f) fuel dir d st = Some st' →
              sent404 st st' ∧
              routeCache (router st') !! (Method (request st) ++ go:" " ++ Path.Clean (go:"/" ++ p))
              = Some (route404 (router st)).
Proof.
  intros Hp Hindex Hfile Hread st1.
  assert (Hbody : StaticDir_body sys (callRoute sys f) fuel dir d st
                  = if negb (htmlDisabled (router st)) && HasSuffix (go:"/" ++ p) go:".html"
                    then serveHTMLStatic sys (callRoute sys f) fuel dir (go:"/" ++ p) st1
                    else NotFound (callRoute sys f) st1).
  { unfold StaticDir_body, StaticDir_serve, P. rewrite Hp. cbv zeta.
    change (default [] (Some p)) with p. fold st1.
    change (URLPath (request st1)) with (go:"/" ++ p).
    unfold Stat. rewrite Hindex.
    match goal with |- context [if ?b then st1 else st1] =>
      replace (if b then st1 else st1) with st1 by (destruct b; reflexivity)
    end.
    change (URLPath (request st1)) with (go:"/" ++ p).
    rewrite Hfile. reflexivity. }
  rewrite Hbody. destruct (negb _ && _).
  - unfold serveHTMLStatic, readHTMLFile, ReadFile. rewrite Hread. reflexivity.
  - split; [reflexivity |]. intros st' H.
    apply NotFound_cached in H as (_ & Hsent & Hk). split; [exact Hsent | exact Hk].
Qed.

Lemma StaticDir_missing_file_witness :
  let sys := Scenario.env_empty in
  let st := Scenario.request_of "GET" "/assets/logo.png" (NewRouter sys) in
  let d := {| d_Params := {[ go:"path" := go:"logo.png" ]}; status := StatusOK; HTML := [] |} in
  ∃ st', StaticDir_body sys (callRoute sys 1) 1 go:"./static" d st = Some st' ∧
         routeCache (router st') !! go:"GET /logo.png" = Some (route404 (NewRouter sys)).
Proof.
  intros sys st d.
  destruct (StaticDir_body sys (callRoute sys 1) 1 go:"./static" d st) as [st' |] eqn:H;
    [| vm_compute in H; discriminate].
  exists st'. split; [reflexivity |].
  pose proof (StaticDir_missing_file sys 1 1 go:"./static" go:"logo.png" d st
                eq_refl eq_refl eq_refl eq_refl) as Hm.
  cbv zeta in Hm.
  change (negb (htmlDisabled (router st)) && HasSuffix (go:"/" ++ go:"logo.png") go:".html")
    with false in Hm.
  cbv iota in Hm. exact (proj2 (proj2 Hm st' H)).
Defined.

(** ** Literal paths *)

Section Literal.

Import RegexpFacts Language.

Lemma literal_byte_plain c : literal_byte c → plain c.
Proof. intros (Ha & Hm & _). split; auto. Qed.

Lemma literal_byte_no_dot c : literal_byte c → c ≠ "."%char.
Proof. intros (_ & Hm & _) ->. discriminate. Qed.

Lemma literal_byte_path c : literal_byte c → path_byte c.
Proof. intros H. split; [apply literal_byte_plain, H | apply H]. Qed.

Lemma Compile_literal q :
  Forall plain q → Compile (go:"^" ++ q ++ go:"$") = inr (literal_re q).
Proof.
  intros Hq. unfold Compile.
  change (parse_loop (go:"^" ++ q ++ go:"$") pinit)
    with (parse_loop (q ++ go:"$")
            {| p_top := {| f_cap := None; f_alts := []; f_cur := [BeginText] |};
               p_stack := []; p_ncap := 0; p_lastRepeat := false; p_cls := None |}).
  rewrite parse_lits by (reflexivity || assumption).
  unfold after_lits. cbn [p_top p_stack p_ncap f_cap f_alts f_cur].
  change (parse_loop go:"$" ?st) with (parse_loop [] (push EndText st)).
  cbn [parse_loop push p_cls p_stack p_top p_ncap f_cap f_alts f_cur frame_regex rev mk_alt].
  unfold literal_re. f_equal. f_equal.
  rewrite rev_app_distr, rev_involutive. reflexivity.
Qed.

Lemma literal_re_matches q url :
  Forall (fun a => a ≠ "."%char) q →
  MatchString (literal_re q) url = true ↔ url = q.
Proof.
  intros Hq. split.
  - unfold MatchString. intros H. apply bool_decide_eq_true in H as [[[s0 s'] c] H].
    apply exec_sound in H as (pre & Hk & H).
    cbn [literal_re re_prog] in H.
    inv H.
    match goal with Hb : matches _ BeginText _ _ |- _ => inv Hb end.
    assert (pre = []) as ->.
    { match goal with Hlen : length _ = length _ |- _ =>
        rewrite length_app in Hlen; destruct pre; [reflexivity | cbn in Hlen; lia] end. }
    cbn [app] in *.
    match goal with Htail : matches _ ?r _ _ |- _ =>
      change r with (mk_concat (lits q ++ [EndText])) in Htail;
      apply matches_lits in Htail as (t & -> & Htail); [| exact Hq];
      cbn [mk_concat foldr] in Htail; inv Htail end.
    match goal with He : matches _ EndText _ _ |- _ => inv He end.
    apply app_nil_r.
  - intros ->. eapply (MatchString_here _ _ [] []).
    cbn [literal_re re_prog]. rewrite m_begin, Nat.eqb_refl.
    pose proof (m_lits (length q) q [EndText] accept [] []) as H.
    rewrite app_nil_r in H. rewrite H. reflexivity.
Qed.

Lemma parsePattern_literal p :
  Forall (fun a => a ≠ "@"%char) p →
  parsePattern p = (go:"^" ++ stripSlash p ++ go:"$", []).
Proof.
  intros Hp. unfold parsePattern.
  change go:"@" with ["@"%char].
  rewrite Contains_absent by (apply stripSlash_Forall, Hp). reflexivity.
Qed.

Lemma createRoute_literal p cb mthd late r :
  Forall literal_byte p →
  createRoute p cb mthd late r
  = let rt := {| addr := nextAddr r; pattern := Some (literal_re (stripSlash p)); callback := cb;
                 params := []; method := mthd |} in
    let r0 := set_nextAddr (S (nextAddr r))
                (if LOG_DEBUG <=? logLevel r then println (LogCreate mthd p) r else r) in
    Some (if late then set_lateRoutes (lateRoutes r ++ [rt]) r0
          else set_routes (routes r ++ [rt]) r0).
Proof.
  intros Hp. unfold createRoute.
  rewrite parsePattern_literal by (eapply Forall_impl; [exact Hp | intros a Ha; apply Ha]).
  unfold MustCompile. rewrite Compile_literal.
  2:{ apply stripSlash_Forall. eapply Forall_impl; [exact Hp | apply literal_byte_plain]. }
  cbn [mbind option_bind]. destruct (LOG_DEBUG <=? logLevel r); reflexivity.
Qed.

(** X19.  A route registered for a literal path (ASCII bytes, no pattern
    operator, no placeholder sign) is appended to its tier, has no
    parameters, and answers exactly one url: the path without its trailing
    slash. *)
Theorem literal_route_matches_its_path (p : list ascii) (cb : Callback) (mthd : list ascii)
    (late : bool) (r : Router) :
  Forall literal_byte p →
  ∃ r' rt re,
    createRoute p cb mthd late r = Some r' ∧
    (if late then lateRoutes r' else routes r')
      = (if late then lateRoutes r else routes r) ++ [rt] ∧
    (if late then routes r' else lateRoutes r')
      = (if late then routes r else lateRoutes r) ∧
    callback rt = cb ∧ method rt = mthd ∧ params rt = [] ∧
    pattern rt = Some re ∧
    (∀ url, MatchString re url = true ↔ url = stripSlash p) ∧
    (∀ url, answers mthd url rt ↔ url = stripSlash p) ∧
    (∀ url, routeParams rt url = Some ∅).
Proof.
  intros Hp. rewrite createRoute_literal by exact Hp. cbv zeta.
  assert (Hm : ∀ url, MatchString (literal_re (stripSlash p)) url = true ↔ url = stripSlash p).
  { intros url. apply literal_re_matches, stripSlash_Forall.
    eapply Forall_impl; [exact Hp | apply literal_byte_no_dot]. }
  do 3 eexists. split; [reflexivity |].
  split; [destruct late; reflexivity |].
  split; [destruct late, (LOG_DEBUG <=? logLevel r); reflexivity |].
  do 4 (split; [reflexivity |]). split; [exact Hm |]. split; [| reflexivity].
  intros url. unfold answers. cbn [method pattern]. split.
  - intros (_ & re & [= <-] & H). apply Hm, H.
  - intros ->. split; [reflexivity |]. eexists. split; [reflexivity |]. apply Hm. reflexivity.
Qed.

(** X20.  Registration followed by dispatch: on a fresh router with one literal
    route whose callback writes [w], a request of the route's method whose
    path cleans to the registered path (a trailing slash apart) is answered
    by [w] alone, and the route is cached under the request's key. *)
Theorem literal_route_is_served (sys : Sys) (p mthd path w : list ascii) (f : nat) :
  Forall literal_byte p →
  Path.Clean path = stripSlash p →
  ∃ r rt,
    Route mthd p (Handler (fun _ _ => [AWrite w])) (NewRouter sys) = Some r ∧
    routes r = [rt] ∧
    ServeHTTP sys (S f)
      {| router := r; request := {| Method := mthd; URLPath := path |}; response := [] |}
    = Some {| router := writeCache (mthd ++ go:" " ++ stripSlash p) rt r;
              request := {| Method := mthd; URLPath := stripSlash p |};
              response := [Write w] |}.
Proof.
  intros Hp Hclean. unfold Route. rewrite createRoute_literal by exact Hp.
  do 2 eexists. split; [reflexivity |]. split; [reflexivity |].
  rewrite ServeHTTP_eq. unfold cacheKey, normalized.
  cbn [router request Method URLPath]. rewrite Hclean.
  change (routeCache _ !! (mthd ++ go:" " ++ stripSlash p))
    with ((∅ : gmap (list ascii) route) !! (mthd ++ go:" " ++ stripSlash p)).
  rewrite lookup_empty. unfold ServeHTTP_scan.
  cbn [router request Method URLPath set_URLPath routes set_routes set_nextAddr println
       NewRouter app scan method pattern].
  assert (Hm : MatchString (literal_re (stripSlash p)) (stripSlash p) = true).
  { apply literal_re_matches; [| reflexivity]. apply stripSlash_Forall.
    eapply Forall_impl; [exact Hp | apply literal_byte_no_dot]. }
  unfold eqb. rewrite bool_decide_eq_true_2 by reflexivity.
  cbn [mbind option_bind]. rewrite Hm. cbn [mbind option_bind]. reflexivity.
Qed.

Lemma literal_route_matches_witness :
  ∃ r' rt re,
    createRoute go:"/about/" (Handler (fun _ _ => [])) go:"GET" false
      (NewRouter Scenario.env_empty) = Some r' ∧
    routes r' = [rt] ∧ pattern rt = Some re ∧
    MatchString re go:"/about" = true ∧ MatchString re go:"/about/us" = false.
Proof.
  destruct (literal_route_matches_its_path go:"/about/" (Handler (fun _ _ => [])) go:"GET" false
              (NewRouter Scenario.env_empty))
    as (r' & rt & re & H1 & H2 & _ & _ & _ & _ & H3 & H4 & _).
  { repeat (constructor; [repeat split; (reflexivity || discriminate) |]). constructor. }
  exists r', rt, re. repeat split; try assumption.
  - apply H4. reflexivity.
  - destruct (MatchString re go:"/about/us") eqn:E; [| reflexivity].
    apply H4 in E. discriminate.
Defined.

Lemma literal_route_is_served_witness :
  let sys := Scenario.env_empty in
  ∃ r, GET go:"/about/" (Handler (fun _ _ => [AWrite go:"us"])) (NewRouter sys) = Some r ∧
       response <$> ServeHTTP sys 1 (Scenario.request_of "GET" "/about/" r)
       = Some [Write go:"us"].
Proof.
  intros sys.
  destruct (literal_route_is_served sys go:"/about/" go:"GET" go:"/about/" go:"us" 0)
    as (r & rt & H1 & _ & H2).
  { repeat (constructor; [repeat split; (reflexivity || discriminate) |]). constructor. }
  { reflexivity. }
  exists r. split; [exact H1 |]. unfold Scenario.request_of.
  exact (f_equal (fmap response) H2).
Defined.

(** ** Invalidating a literal path *)

Lemma trimSlash_method_path p :
  stripSlash (go:"[A-Z]+ " ++ p) = go:"[A-Z]+ " ++ trimSlash p.
Proof.
  unfold stripSlash, trimSlash.
  assert (Hne : eqb (go:"[A-Z]+ " ++ p) go:"/" = false) by reflexivity.
  rewrite Hne. cbn [negb andb].
  assert (Hs : HasSuffix (go:"[A-Z]+ " ++ p) go:"/" = HasSuffix p go:"/").
  { unfold HasSuffix. rewrite rev_app_distr.
    change (rev go:"/") with ["/"%char].
    destruct (rev p) as [| x t]; [reflexivity |]. cbn [app HasPrefix].
    assert (Hnil : ∀ l : list ascii, HasPrefix l [] = true) by (intros []; reflexivity).
    rewrite !Hnil. reflexivity. }
  rewrite Hs. destruct (HasSuffix p go:"/") eqn:E; [| reflexivity].
  unfold dropLast. rewrite length_app.
  destruct p as [| a p]; [discriminate |].
  rewrite take_app_ge by (cbn; lia). reflexivity.
Qed.

Lemma trimSlash_Forall (P : ascii → Prop) p : Forall P p → Forall P (trimSlash p).
Proof.
  intros H. unfold trimSlash, dropLast. destruct (HasSuffix _ _); [| exact H].
  apply Forall_take, H.
Qed.

Lemma method_path_re_keys q k :
  Forall (fun a => a ≠ "."%char) q →
  MatchString (method_path_re q) k = true ↔ key_of q k.
Proof.
  intros Hq. split.
  - unfold MatchString. intros H. apply bool_decide_eq_true in H as [[[s0 s'] c] H].
    apply exec_sound in H as (pre & Hk & H).
    cbn [method_path_re re_prog] in H.
    inv H.
    match goal with Hb : matches _ BeginText _ _ |- _ => inv Hb end.
    assert (pre = []) as ->.
    { match goal with Hlen : length _ = length _ |- _ =>
        rewrite length_app in Hlen; destruct pre; [reflexivity | cbn in Hlen; lia] end. }
    cbn [app] in *.
    match goal with Hrest : matches _ (Cat _ _) _ _ |- _ => inv Hrest end.
    match goal with Hm : matches _ (Plus _ _) _ _ |- _ =>
      apply matches_plus_chr in Hm as (mthd & -> & Hne & Hup) end.
    match goal with Htail : matches _ ?r _ _ |- _ =>
      change r with (mk_concat (lits (" "%char :: q) ++ [EndText])) in Htail;
      apply matches_lits in Htail as (t & -> & Htail);
        [| constructor; [discriminate | exact Hq]];
      cbn [mk_concat foldr] in Htail; inv Htail end.
    match goal with He : matches _ EndText _ _ |- _ => inv He end.
    exists mthd. split; [exact Hne |].
    split; [eapply Forall_impl; [exact Hup | intros a; apply cs_upper_mem] |].
    rewrite app_nil_r. reflexivity.
  - intros (mthd & Hne & Hup & ->).
    eapply (MatchString_here _ _ [] []).
    cbn [method_path_re re_prog]. rewrite m_begin, Nat.eqb_refl.
    change (m ?n (Cat (Plus true (Chr cs_upper)) ?r) accept ?s [])
      with (m n (Plus true (Chr cs_upper)) (m n r accept) s []).
    apply plus_greedy_all.
    + eapply Forall_impl; [exact Hup | intros a; apply cs_upper_mem].
    + exact Hne.
    + intros a t [= <- _]. reflexivity.
    + pose proof (m_lits (length (mthd ++ go:" " ++ q)) (" "%char :: q) [EndText] accept [] [])
        as H.
      rewrite app_nil_r in H. etransitivity; [exact H | reflexivity].
Qed.

Lemma ClearCache_literal p r :
  Forall literal_byte p →
  ClearCache p r
  = Some (set_htmlCache (deleteMatching (method_path_re (trimSlash p)) (htmlCache r))
            (set_routeCache (deleteMatching (method_path_re (trimSlash p)) (routeCache r)) r)).
Proof.
  intros Hp. unfold ClearCache, parsePattern. rewrite trimSlash_method_path.
  change go:"@" with ["@"%char]. rewrite Contains_absent.
  2:{ apply Forall_app. split; [repeat (constructor; [discriminate |]); constructor |].
      apply trimSlash_Forall. eapply Forall_impl; [exact Hp | intros a Ha; apply Ha]. }
  unfold MustCompile. rewrite Compile_method_path.
  2:{ apply trimSlash_Forall. eapply Forall_impl; [exact Hp | apply literal_byte_plain]. }
  reflexivity.
Qed.

(** X23.  [ClearCache] of a literal path deletes from the request cache exactly
    the keys made of an uppercase method, a space and that path without its
    trailing slash, and leaves the tiers alone. *)
Theorem ClearCache_literal_path (p : list ascii) (r : Router) :
  Forall literal_byte p →
  ∃ r', ClearCache p r = Some r' ∧
    (∀ k, key_of (trimSlash p) k → routeCache r' !! k = None) ∧
    (∀ k, ¬ key_of (trimSlash p) k → routeCache r' !! k = routeCache r !! k) ∧
    routes r' = routes r ∧ lateRoutes r' = lateRoutes r.
Proof.
  intros Hp. rewrite ClearCache_literal by exact Hp. eexists. split; [reflexivity |].
  cbn [routeCache set_htmlCache set_routeCache routes lateRoutes].
  assert (Hq : Forall (fun a => a ≠ "."%char) (trimSlash p)).
  { apply trimSlash_Forall. eapply Forall_impl; [exact Hp | apply literal_byte_no_dot]. }
  split; [| split; [| auto]].
  - intros k Hk. rewrite deleteMatching_lookup.
    rewrite (proj2 (method_path_re_keys _ k Hq) Hk). reflexivity.
  - intros k Hk. rewrite deleteMatching_lookup.
    destruct (MatchString _ k) eqn:Hm; [| reflexivity].
    exfalso. apply Hk, (method_path_re_keys _ k Hq), Hm.
Qed.

Lemma ClearCache_literal_path_witness :
  let rt := route404 (NewRouter Scenario.env_empty) in
  let r := writeCache go:"GET /about" rt
             (writeCache go:"GET /about/us" rt (NewRouter Scenario.env_empty)) in
  ∃ r', ClearCache go:"/about/" r = Some r' ∧
        routeCache r' !! go:"GET /about" = None ∧
        routeCache r' !! go:"GET /about/us" = Some rt.
Proof.
  intros rt r.
  destruct (ClearCache_literal_path go:"/about/" r) as (r' & H & Hdel & Hkeep & _).
  { repeat (constructor; [repeat split; (reflexivity || discriminate) |]). constructor. }
  exists r'. split; [exact H |]. split.
  - apply Hdel. exists go:"GET". split; [discriminate |]. split; [| reflexivity].
    repeat (constructor; [cbv; lia |]). constructor.
  - etransitivity; [apply Hkeep | reflexivity].
    intros (mthd & _ & Hup & Hk).
    apply (method_part_unique go:"GET" mthd go:"/about/us" go:"/about") in Hk as [_ Hk];
      [discriminate | | exact Hup].
    repeat (constructor; [cbv; lia |]). constructor.
Defined.

Lemma clean_step_nonempty rooted st e :
  Forall (fun x => x ≠ []) st.1 → Forall (fun x => x ≠ []) (Path.clean_step rooted st e).1.
Proof.
  destruct st as [out dotdot]. unfold Path.clean_step. cbn [fst]. intros H.
  destruct (eqb e [] || eqb e go:".") eqn:He; [exact H |].
  apply orb_false_iff in He as [He _]. apply bool_decide_eq_false in He.
  destruct (eqb e go:"..").
  - destruct (dotdot <? length out); cbn [fst].
    + destruct out; [constructor | apply Forall_cons in H as [_ H]; exact H].
    + destruct rooted; cbn [fst]; [exact H | constructor; assumption].
  - cbn [fst]. constructor; assumption.
Qed.

Lemma Clean_nonempty p : Path.Clean p ≠ [].
Proof.
  unfold Path.Clean. destruct p as [| c t]; [discriminate |].
  destruct (bool_decide (c = "/"%char)); [discriminate |].
  set (es := Path.split (c :: t)). clearbody es.
  assert (H : ∀ es st, Forall (fun x : list ascii => x ≠ []) st.1 →
                Forall (fun x : list ascii => x ≠ [])
                  (fold_left (Path.clean_step false) es st).1).
  { clear. induction es as [| e es IH]; intros st Hst; [exact Hst |].
    cbn [fold_left]. apply IH, clean_step_nonempty, Hst. }
  specialize (H es ([], 0) (Forall_nil_2 _)).
  apply Forall_rev in H.
  destruct (rev _) as [| x out]; [discriminate |].
  apply Forall_cons in H as [Hx _].
  destruct x as [| a x]; [contradiction |].
  destruct out; discriminate.
Qed.

Lemma key_of_empty_path mthd path : path ≠ [] → ¬ key_of [] (mthd ++ go:" " ++ path).
Proof.
  intros Hne (m' & _ & Hup & Heq).
  change (mthd ++ " "%char :: path = m' ++ [" "%char]) in Heq.
  assert (Hlen : length mthd < length m').
  { apply (f_equal length) in Heq. rewrite !length_app in Heq. cbn [length] in Heq.
    destruct path; [contradiction | cbn [length] in Heq; lia]. }
  apply (f_equal (fun l => l !! length mthd)) in Heq. cbn beta in Heq.
  rewrite (list_lookup_middle mthd path " "%char (length mthd) eq_refl) in Heq.
  rewrite lookup_app_l in Heq by exact Hlen. symmetry in Heq.
  apply (Forall_lookup_1 _ _ _ _ Hup) in Heq. exact (upper_not_space _ Heq eq_refl).
Qed.

(** X24.  [ClearCache("/")] strips the slash as a trailing one and compiles
    [^[A-Z]+ $]: it deletes only keys that end with the space after the
    method.  Every key with a non-empty path stays, the root page's
    [METHOD /] and every key a dispatch writes included. *)
Theorem ClearCache_root_keeps_root_entry (r : Router) :
  ∃ r', ClearCache go:"/" r = Some r' ∧
    (∀ k, key_of [] k → routeCache r' !! k = None) ∧
    (∀ mthd path, path ≠ [] →
       routeCache r' !! (mthd ++ go:" " ++ path) = routeCache r !! (mthd ++ go:" " ++ path)) ∧
    (∀ mthd, routeCache r' !! (mthd ++ go:" /") = routeCache r !! (mthd ++ go:" /")) ∧
    (∀ st, routeCache r' !! cacheKey st = routeCache r !! cacheKey st).
Proof.
  rewrite ClearCache_literal.
  2:{ constructor; [repeat split; (reflexivity || discriminate) | constructor]. }
  eexists. split; [reflexivity |].
  cbn [routeCache set_htmlCache set_routeCache].
  change (trimSlash go:"/") with (@nil ascii).
  assert (Hkeep : ∀ mthd path, path ≠ [] →
            deleteMatching (method_path_re []) (routeCache r) !! (mthd ++ go:" " ++ path)
            = routeCache r !! (mthd ++ go:" " ++ path)).
  { intros mthd path Hne. rewrite deleteMatching_lookup.
    destruct (MatchString _ _) eqn:Hm; [| reflexivity].
    exfalso. apply (key_of_empty_path mthd path Hne).
    apply (method_path_re_keys [] _ (Forall_nil_2 _)), Hm. }
  split; [| split; [exact Hkeep | split]].
  - intros k Hk. rewrite deleteMatching_lookup.
    rewrite (proj2 (method_path_re_keys [] k (Forall_nil_2 _)) Hk). reflexivity.
  - intros mthd. apply (Hkeep mthd go:"/"). discriminate.
  - intros st. apply Hkeep, Clean_nonempty.
Qed.

End Literal.

(** ** Callbacks that only write *)

Section Quiet.

Variable sys : Sys.

Lemma runActions_quiet call : ∀ acts d st,
  forallb quiet acts = true →
  runActions call acts d st
  = Some ({| d_Params := d_Params d; status := final_status acts (status d); HTML := HTML d |},
          {| router := router st; request := request st;
             response := response st ++ events_of acts |}).
Proof.
  induction acts as [| a acts IH]; intros d st Hq.
  - cbn. rewrite app_nil_r. destruct d, st. reflexivity.
  - cbn [forallb] in Hq. apply andb_true_iff in Hq as [Ha Hq].
    destruct a; try discriminate; cbn [runActions Status]; rewrite IH by exact Hq;
      cbn [d_Params status HTML router request response emit events_of omap final_status
           fold_left]; rewrite <- app_assoc; reflexivity.
Qed.

Lemma println_logged level code mthd url r :
  level = logLevel r →
  (if (LOG_INFO <=? level) || (code =? StatusInternalServerError)
   then println (LogRequest mthd url code) r else r)
  = {| routes := routes r; lateRoutes := lateRoutes r; route404 := route404 r;
       route500 := route500 r; routeCache := routeCache r; htmlCache := htmlCache r;
       noCache := noCache r; htmlDisabled := htmlDisabled r;
       logger := logger r ++ logged level code mthd url; logLevel := logLevel r;
       nextAddr := nextAddr r |}.
Proof.
  intros ->. unfold logged. destruct (_ || _); [reflexivity |].
  rewrite app_nil_r. destruct r; reflexivity.
Qed.

Lemma callRoute_quiet f rt url st h p :
  callback rt = Handler h →
  routeParams rt url = Some p →
  forallb quiet (h p (request st)) = true →
  let acts := h p (request st) in
  let start := if addr rt =? addr (route404 (router st)) then Some StatusNotFound
               else if addr rt =? addr (route500 (router st))
                    then Some StatusInternalServerError else None in
  let code := final_status acts (default StatusOK start) in
  callRoute sys (S f) rt url st
  = Some {| router :=
              if (LOG_INFO <=? logLevel (router st)) || (code =? StatusInternalServerError)
              then println (LogRequest (Method (request st)) url code) (router st)
              else router st;
            request := request st;
            response := response st ++ option_list (WriteHeader <$> start) ++ events_of acts |}.
Proof.
  intros Hcb Hp Hq acts start code. cbn [callRoute]. rewrite Hp, Hcb.
  cbn [mbind option_bind].
  set (d0 := {| d_Params := p; status := StatusOK; HTML := [] |}).
  assert (Hstart :
            (if addr rt =? addr (route404 (router st)) then Status StatusNotFound d0 st
             else if addr rt =? addr (route500 (router st))
                  then Status StatusInternalServerError d0 st else (d0, st))
            = ({| d_Params := p; status := default StatusOK start; HTML := [] |},
               {| router := router st; request := request st;
                  response := response st ++ option_list (WriteHeader <$> start) |})).
  { subst start d0. destruct (addr rt =? addr (route404 (router st)));
      [| destruct (addr rt =? addr (route500 (router st)))];
      cbn; rewrite ?app_nil_r; destruct st; reflexivity. }
  rewrite Hstart. cbn [runCallback d_Params request].
  rewrite runActions_quiet by exact Hq.
  cbn [mbind option_bind HTML status d_Params router request response].
  change (negb (eqb [] [])) with false. cbn [mbind option_bind router request response].
  fold acts. fold code. rewrite <- app_assoc.
  destruct (_ || _); reflexivity.
Qed.

(** X26.  A callback of an ordinary route that only sets the status, writes and
    redirects: its events are appended to the response in order, the request
    and both caches and tiers are untouched, and one request line with the
    last status set (200 if none) is logged exactly when the log level is at
    least [LOG_INFO] or that status is 500. *)
Theorem handler_writes_reach_the_response (f : nat) (rt : route) (url : list ascii)
    (st : State) (h : Params → Request → list Action) (p : Params) :
  callback rt = Handler h →
  routeParams rt url = Some p →
  forallb quiet (h p (request st)) = true →
  addr rt ≠ addr (route404 (router st)) →
  addr rt ≠ addr (route500 (router st)) →
  let acts := h p (request st) in
  let code := final_status acts StatusOK in
  ∃ st', callRoute sys (S f) rt url st = Some st' ∧
    response st' = response st ++ events_of acts ∧
    request st' = request st ∧
    logger (router st')
      = logger (router st) ++ logged (logLevel (router st)) code (Method (request st)) url ∧
    routes (router st') = routes (router st) ∧
    lateRoutes (router st') = lateRoutes (router st) ∧
    routeCache (router st') = routeCache (router st) ∧
    htmlCache (router st') = htmlCache (router st).
Proof.
  intros Hcb Hp Hq H4 H5 acts code.
  rewrite (callRoute_quiet f rt url st h p Hcb Hp Hq). cbv zeta.
  apply Nat.eqb_neq in H4, H5. rewrite H4, H5. cbn [default fmap option_fmap option_map
    option_list app].
  fold acts. fold code. eexists. split; [reflexivity |].
  cbn [response request router]. split; [reflexivity |]. split; [reflexivity |].
  rewrite (println_logged _ _ _ _ _ eq_refl). cbn. auto 10.
Qed.

(** X27.  [d.Error(err)] with a server-error route that only writes: the error
    is logged at any log level, a 500 header is sent before the route's own
    events, the request line is logged as well unless the route changed the
    status and the level is [LOG_ERRORS], and both caches are untouched. *)
Theorem Error_runs_the_fallback (f : nat) (err : error) (st : State)
    (h : Params → Request → list Action) :
  callback (route500 (router st)) = Handler h →
  params (route500 (router st)) = [] →
  forallb quiet (h ∅ (request st)) = true →
  addr (route500 (router st)) ≠ addr (route404 (router st)) →
  let acts := h ∅ (request st) in
  let code := final_status acts StatusInternalServerError in
  ∃ st', Error (callRoute sys (S f)) err st = Some st' ∧
    response st' = response st ++ WriteHeader StatusInternalServerError :: events_of acts ∧
    logger (router st')
      = logger (router st) ++ LogError err
          :: logged (logLevel (router st)) code (Method (request st))
               (Path.Clean (URLPath (request st))) ∧
    routeCache (router st') = routeCache (router st) ∧
    htmlCache (router st') = htmlCache (router st).
Proof.
  intros Hcb Hps Hq Hne acts code. unfold Error.
  set (st1 := with_router (println (LogError err)) st).
  assert (Hp : routeParams (route500 (router st1)) (Path.Clean (URLPath (request st1))) = Some ∅).
  { unfold routeParams. cbn [st1 with_router router println route500]. rewrite Hps. reflexivity. }
  rewrite (callRoute_quiet f (route500 (router st1)) _ st1 h ∅ Hcb Hp Hq). cbv zeta.
  cbn [st1 with_router router println route500 route404 request response logLevel].
  apply Nat.eqb_neq in Hne. rewrite Hne, Nat.eqb_refl.
  cbn [default fmap option_fmap option_map option_list app].
  fold acts. fold code. eexists. split; [reflexivity |].
  cbn [response router]. split; [reflexivity |].
  match goal with |- context [if ?b then println ?e ?r else ?r] =>
    change (if b then println e r else r)
      with (if (LOG_INFO <=? logLevel (router st)) || (code =? StatusInternalServerError)
            then println e r else r);
    rewrite (println_logged (logLevel (router st)) code _ _ r eq_refl)
  end.
  cbn. rewrite <- app_assoc. auto.
Qed.

End Quiet.

Lemma handler_writes_witness :
  let sys := Scenario.disk [] in
  let st := Scenario.request_of "GET" "/y" Scenario.three_routes in
  ∃ rt st', routes Scenario.three_routes !! 2 = Some rt ∧
            callRoute sys 1 rt go:"/y" st = Some st' ∧
            response st' = [Write go:"get y"] ∧
            logger (router st') = logger Scenario.three_routes.
Proof.
  intros sys st.
  assert (E : ∃ rt, routes Scenario.three_routes !! 2 = Some rt ∧
                    callback rt = Handler (fun _ _ => [AWrite go:"get y"]) ∧
                    routeParams rt go:"/y" = Some ∅ ∧ addr rt = 4).
  { eexists. split; [vm_compute; reflexivity |]. split; [reflexivity |].
    split; reflexivity. }
  destruct E as (rt & Hrt & Hcb & Hp & Ha).
  destruct (handler_writes_reach_the_response sys 0 rt go:"/y" st _ ∅ Hcb Hp eq_refl)
    as (st' & H & Hresp & _ & Hlog & _).
  { rewrite Ha. discriminate. }
  { rewrite Ha. discriminate. }
  exists rt, st'. split; [exact Hrt |]. split; [exact H |]. split; [exact Hresp |].
  rewrite Hlog. apply app_nil_r.
Defined.

Lemma Error_runs_the_fallback_witness :
  let sys := Scenario.env_empty in
  let st := Scenario.request_of "GET" "/boom" (NewRouter sys) in
  ∃ st', Error (callRoute sys 1) (errorString go:"boom") st = Some st' ∧
         response st' = [WriteHeader StatusInternalServerError;
                         Write go:"500 internal server error"] ∧
         logger (router st') = [LogText go:"router initialized";
                                LogError (errorString go:"boom");
                                LogRequest go:"GET" go:"/boom" StatusInternalServerError].
Proof.
  intros sys st.
  destruct (Error_runs_the_fallback sys 0 (errorString go:"boom") st _ eq_refl eq_refl eq_refl)
    as (st' & H & Hresp & Hlog & _).
  { discriminate. }
  exists st'. split; [exact H |]. split; [exact Hresp | exact Hlog].
Defined.

(** ** The file system of the file server *)

Section FileSystem.

Import StaticFs.

(** X29.  What [staticFs.Open] returns.  A file it hands out lists no entries
    and is either a non-directory opened under the name, or the
    [index.html] of the directory of that name, or the root directory
    itself, which must have an index.  An error is the base file system's
    own for the name or its [Stat], or [os.ErrNotExist] for a directory
    whose index cannot be opened, whatever the reason. *)
Theorem Open_never_lists_a_directory (base : FileSystem) (name : list ascii) :
  (∀ g, Open base name = inr g →
     (∀ count, Readdir g count = ([], None)) ∧
     ((base name = inr (wrapped g) ∧ f_Stat (wrapped g) = inr false)
      ∨ (name ≠ go:"/" ∧ base (Path.Join [name; go:"index.html"]) = inr (wrapped g)
         ∧ ∃ f, base name = inr f ∧ f_Stat f = inr true)
      ∨ (name = go:"/" ∧ base name = inr (wrapped g) ∧ f_Stat (wrapped g) = inr true
         ∧ ∃ index, base (Path.Join [name; go:"index.html"]) = inr index))) ∧
  (∀ err, Open base name = inl err →
     base name = inl err
     ∨ (∃ f, base name = inr f ∧ f_Stat f = inl err)
     ∨ (err = ErrNotExist ∧
        ∃ f e, base name = inr f ∧ f_Stat f = inr true
               ∧ base (Path.Join [name; go:"index.html"]) = inl e)).
Proof.
  unfold Open.
  destruct (base name) as [e | f] eqn:Hf.
  { split; [discriminate |]. intros err [= <-]. auto. }
  destruct (f_Stat f) as [e | [|]] eqn:Hs.
  - split; [discriminate |]. intros err [= <-]. eauto.
  - destruct (base (Path.Join [name; go:"index.html"])) as [e | index] eqn:Hi.
    + split; [discriminate |]. intros err [= <-]. right. right. eauto 6.
    + split; [| destruct (negb _); discriminate].
      intros g. unfold eqb. case_bool_decide as Hn; cbn [negb]; intros [= <-]; cbn [wrapped];
        (split; [reflexivity |]); right; [right | left]; eauto 6.
  - split; [| discriminate]. intros g [= <-]. cbn [wrapped]. auto.
Qed.

End FileSystem.

Lemma Open_never_lists_witness :
  (∃ g, StaticFs.Open Disk.base go:"/docs" = inr g ∧
        StaticFs.f_name (StaticFs.wrapped g) = go:"/docs/index.html") ∧
  StaticFs.Open Disk.base go:"/img" = inl ErrNotExist.
Proof.
  split; [| reflexivity].
  destruct (StaticFs.Open Disk.base go:"/docs") as [e | g] eqn:H; [discriminate |].
  exists g. split; [reflexivity |].
  destruct (proj1 (Open_never_lists_a_directory Disk.base go:"/docs") g H)
    as [_ [[Hb Hs] | [(_ & Hi & _) | (Hn & _)]]].
  - change (Disk.base go:"/docs")
      with (@inr error _ {| StaticFs.f_name := go:"/docs"; StaticFs.f_Stat := inr true |}) in Hb.
    injection Hb as Hb. rewrite <- Hb in Hs. cbn in Hs. discriminate Hs.
  - injection Hi as <-. reflexivity.
  - discriminate.
Defined.

(** ** The switches of the environment *)

(** X28.  A new router has caching off exactly when [NOCACHE] is [1] and the
    preprocessor off exactly when [NOHTML] is [1].  With caching off every
    dispatch scans the tiers, every static document is parsed again, and a
    dispatch leaves caching off. *)
Theorem NOCACHE_bypasses_both_caches (sys : Sys) :
  (noCache (NewRouter sys) = true ↔ environ sys !! go:"NOCACHE" = Some go:"1") ∧
  (htmlDisabled (NewRouter sys) = true ↔ environ sys !! go:"NOHTML" = Some go:"1") ∧
  ∀ st, noCache (router st) = true →
    resolve st = resolve_scan st ∧
    (∀ call fuel text dir,
       serveHTML sys call fuel true text dir st = parseAndServe sys call fuel true text dir st) ∧
    (∀ fuel st', ServeHTTP sys fuel st = Some st' → noCache (router st') = true).
Proof.
  assert (Henv : ∀ name, eqb (Getenv sys name) go:"1" = true ↔ environ sys !! name = Some go:"1").
  { intros name. unfold eqb, Getenv. rewrite bool_decide_eq_true.
    destruct (environ sys !! name) as [v |]; cbn; split; congruence. }
  split; [apply Henv |]. split; [apply Henv |].
  intros st Hnc. split; [| split].
  - unfold resolve. rewrite Hnc. destruct (routeCache _ !! _); reflexivity.
  - intros. unfold serveHTML. rewrite Hnc. destruct (htmlCache _ !! _); reflexivity.
  - intros fuel st' H. rewrite ServeHTTP_resolve in H.
    destruct (resolve st) as [x |]; [| discriminate]. cbn in H.
    apply callRoute_step in H as [Hstep _]. rewrite (step_noCache _ _ Hstep).
    destruct x; exact Hnc.
Qed.

(** ** A placeholder for one segment *)

Section Placeholder.

Import RegexpFacts Language.

Lemma user_pattern :
  parsePattern go:"/user/@id" = (go:"^/user/([^/]+)$", [go:"id"]) ∧
  MustCompile go:"^/user/([^/]+)$" = Some user_re.
Proof. split; vm_compute; reflexivity. Qed.

Lemma user_re_run seg :
  seg ≠ [] → Forall (fun a => a ≠ "/"%char) seg →
  m (length (go:"/user/" ++ seg)) (re_prog user_re) accept (go:"/user/" ++ seg) []
  = Some ([], [(1, seg)]).
Proof.
  intros Hne Hseg. cbn [user_re re_prog]. rewrite m_begin, Nat.eqb_refl, m_lits.
  change (m ?n (mk_concat [Cap 1 (Cat (Plus true (Chr cs_nonslash)) Empty); EndText])
            accept seg [])
    with (m n (Plus true (Chr cs_nonslash))
            (fun s' c' => m n (Cat EndText Empty) accept s' ((1, consumed seg s') :: c'))
            seg []).
  rewrite <- (app_nil_r seg) at 2.
  apply plus_greedy_all.
  - eapply Forall_impl; [exact Hseg | intros a; apply cs_nonslash_mem].
  - exact Hne.
  - discriminate.
  - cbn beta. rewrite consumed_all. reflexivity.
Qed.

Lemma user_re_sound url : MatchString user_re url = true → ∃ seg, user_path url seg.
Proof.
  unfold MatchString. intros H. apply bool_decide_eq_true in H as [[[s0 s'] c] H].
  apply exec_sound in H as (pre & Hk & H).
  cbn [user_re re_prog] in H.
  inv H.
  match goal with Hb : matches _ BeginText _ _ |- _ => inv Hb end.
  assert (pre = []) as ->.
  { match goal with Hlen : length _ = length _ |- _ =>
      rewrite length_app in Hlen; destruct pre; [reflexivity | cbn in Hlen; lia] end. }
  cbn [app] in *.
  match goal with Htail : matches _ ?r _ _ |- _ =>
    change r with (mk_concat (lits go:"/user/"
                     ++ [Cap 1 (Cat (Plus true (Chr cs_nonslash)) Empty); EndText])) in Htail;
    apply matches_lits in Htail as (t & -> & Htail);
      [| repeat (constructor; [discriminate |]); constructor];
    cbn [mk_concat foldr] in Htail; inv Htail end.
  match goal with Hcap : matches _ (Cap _ _) _ _ |- _ => inv Hcap end.
  match goal with Hseg : matches _ (Cat (Plus _ _) _) _ _ |- _ => inv Hseg end.
  match goal with He : matches _ Empty _ _ |- _ => inv He end.
  match goal with Hplus : matches _ (Plus _ _) _ _ |- _ =>
    apply matches_plus_chr in Hplus as (seg & -> & Hsne & Hseg') end.
  match goal with Hend : matches _ (Cat EndText _) _ _ |- _ => inv Hend end.
  match goal with He : matches _ EndText _ _ |- _ => inv He end.
  match goal with He : matches _ Empty _ _ |- _ => inv He end.
  exists seg. rewrite app_nil_r. split; [reflexivity |]. split; [exact Hsne |].
  eapply Forall_impl; [exact Hseg' | intros a; apply cs_nonslash_mem].
Qed.

(** X21.  The route registered for [/user/@id] has the one parameter [id] and
    answers exactly the urls [/user/<segment>] with a non-empty segment free
    of slashes; on such a url it binds [id] to the segment. *)
Theorem placeholder_binds_one_segment (cb : Callback) (mthd : list ascii) (late : bool)
    (r : Router) :
  ∃ r' rt,
    createRoute go:"/user/@id" cb mthd late r = Some r' ∧
    (if late then lateRoutes r' else routes r')
      = (if late then lateRoutes r else routes r) ++ [rt] ∧
    params rt = [go:"id"] ∧
    (∀ url seg, user_path url seg →
       answers mthd url rt ∧ routeParams rt url = Some {[ go:"id" := seg ]}) ∧
    (∀ url, answers mthd url rt → ∃ seg, user_path url seg).
Proof.
  unfold createRoute. rewrite (proj1 user_pattern), (proj2 user_pattern).
  cbn [mbind option_bind].
  exists (let r0 := set_nextAddr (S (nextAddr r))
                      (if LOG_DEBUG <=? logLevel r
                       then println (LogCreate mthd go:"/user/@id") r else r) in
          let rt := {| addr := nextAddr r; pattern := Some user_re; callback := cb;
                       params := [go:"id"]; method := mthd |} in
          if late then set_lateRoutes (lateRoutes r ++ [rt]) r0
          else set_routes (routes r ++ [rt]) r0),
         {| addr := nextAddr r; pattern := Some user_re; callback := cb;
            params := [go:"id"]; method := mthd |}.
  split; [destruct late, (LOG_DEBUG <=? logLevel r); reflexivity |].
  split; [destruct late; reflexivity |]. split; [reflexivity |]. split.
  - intros url seg (-> & Hne & Hseg).
    pose proof (user_re_run seg Hne Hseg) as Hrun. split.
    + split; [reflexivity |]. eexists. split; [reflexivity |].
      eapply MatchString_here, Hrun.
    + unfold routeParams. cbn [params length Nat.ltb Nat.leb pattern mbind option_bind].
      rewrite (FindAll_here user_re _ _ _ Hrun). reflexivity.
  - intros url (_ & re & [= <-] & Hm). apply user_re_sound, Hm.
Qed.

End Placeholder.

(** ** A mount prefix is matched as text *)

Section MountedText.

Import RegexpFacts.


End MountedText.


(** ** Documents and errors *)

Lemma ClearCache_keeps_documents_witness :
  let r := set_htmlCache {[ go:"/page.html" := go:"<p>old</p>" ]} (NewRouter Scenario.env_empty) in
  ∃ r', ClearCache go:"/page.html" r = Some r' ∧
        htmlCache r' !! go:"/page.html" = Some go:"<p>old</p>".
Proof.
  intros r.
  destruct (ClearCache_keeps_documents go:"/page.html" r) as (r' & H & Hkeep).
  { repeat (constructor;
            [repeat split; (reflexivity || (left; reflexivity) || (right; reflexivity)
                            || discriminate) |]).
    constructor. }
  exists r'. split; [exact H |].
  rewrite Hkeep; [reflexivity |].
  intros a t [= <- _] [Hup _]. vm_compute in Hup. lia.
Defined.

(** X15.  An error of the preprocessor is never a not-found error, so
    [serveHTML] answers every one of them through [d.Error], as a server
    error: its not-found branch is not taken, also when the error says that
    an included file does not exist. *)
Theorem preprocessor_error_is_a_server_error (sys : Sys)
    (call : route → list ascii → State → option State) (fuel : nat) (static : bool)
    (text dir : list ascii) (st : State) (err : error) :
  parseHTML sys fuel text dir = Some (inl err) →
  Is err ErrNotExist = false ∧
  parseAndServe sys call fuel static text dir st = Error call err st ∧
  serveHTML sys call fuel false text dir st = Error call err st.
Proof.
  intros H. split; [eapply parseHTML_error, H |].
  split; [apply parse_error_is_server_error, H |].
  unfold serveHTML. apply parse_error_is_server_error, H.
Qed.

Lemma preprocessor_error_witness :
  let sys := Scenario.disk Scenario.page_missing_include in
  let st := Scenario.request_of "GET" "/page.html" (NewRouter sys) in
  ∃ err, parseHTML sys 2 Scenario.page_missing_include go:"./static" = Some (inl err) ∧
         parseAndServe sys (callRoute sys 1) 2 true Scenario.page_missing_include go:"./static" st
         = Error (callRoute sys 1) err st.
Proof.
  intros sys st.
  destruct (parseHTML sys 2 Scenario.page_missing_include go:"./static") as [[err | str] |] eqn:H;
    [| vm_compute in H; discriminate | vm_compute in H; discriminate].
  exists err. split; [reflexivity |].
  exact (proj1 (proj2 (preprocessor_error_is_a_server_error sys (callRoute sys 1) 2 true _ _
                         st err H))).
Defined.
